(** * Scalable simple random sampling (yelp_sampling)

    A shallow embedding of [yelp_sampling/scalable_srs.py] and
    [yelp_sampling/srs_sampling.py].

    Python floats are idealised as real numbers ([R]); Python integers are
    [Z].  Exceptions are values of type [exn] carried by the [result] monad.
    Dictionaries are association lists in insertion order with unique keys.
    The pseudo-random generator ([random.Random]) is an interface: a state
    type with a seeding function and a step function. *)

From Stdlib Require Import Reals Lra Lia ZArith String Bool List Permutation.
Import ListNotations.
Open Scope R_scope.

(** ** Python prelude *)

Module Py.

(** Exceptions raised by the modelled code. *)
Inductive exn : Type :=
| ValueError (msg : string)
| ZeroDivisionError
| TypeError
| IndexError
| KeyError (name : string).

Definition result (A : Type) : Type := (exn + A)%type.

Definition ret {A : Type} (a : A) : result A := inr a.
Definition raise {A : Type} (e : exn) : result A := inl e.

Definition bind {A B : Type} (m : result A) (k : A -> result B) : result B :=
  match m with
  | inl e => inl e
  | inr a => k a
  end.

(** Comparison of floats, as a boolean. *)
Definition Rltb (x y : R) : bool := if Rlt_dec x y then true else false.
Definition Rleb (x y : R) : bool := if Rle_dec x y then true else false.

(** A Python number: an [int] or a [float]. *)
Inductive number : Type :=
| Int (z : Z)
| Float (x : R).

(** [float(v)] *)
Definition float (v : number) : R :=
  match v with
  | Int z => IZR z
  | Float x => x
  end.

(** Truncation toward zero of a float, [int(x)]. *)
Definition trunc (x : R) : Z :=
  if Rle_dec 0 x then Int_part x else (- Int_part (- x))%Z.

(** [int(v)] *)
Definition int (v : number) : Z :=
  match v with
  | Int z => z
  | Float x => trunc x
  end.

(** Truth value of a number: zero is falsy. *)
Definition truthy (v : number) : bool :=
  match v with
  | Int z => negb (Z.eqb z 0)
  | Float x => if Req_dec_T x 0 then false else true
  end.

(** Float division [x / y]. *)
Definition fdiv (x y : R) : result R :=
  if Req_dec_T y 0 then raise ZeroDivisionError else ret (x / y).

(** [math.log] and [math.sqrt] with their domain errors. *)
Definition math_domain_error : exn := ValueError "math domain error".

Definition math_log (x : R) : result R :=
  if Rlt_dec 0 x then ret (ln x) else raise math_domain_error.

Definition math_sqrt (x : R) : result R :=
  if Rle_dec 0 x then ret (sqrt x) else raise math_domain_error.

(** The builtins [max(a, b)] and [min(a, b)] on two floats: the first
    argument is kept unless the second is strictly better. *)
Definition max (a b : R) : R := if Rlt_dec a b then b else a.
Definition min (a b : R) : R := if Rlt_dec b a then b else a.

(** *** Dictionaries *)

Definition dict (V : Type) : Type := list (string * V).

Fixpoint dict_get {V : Type} (d : dict V) (name : string) : option V :=
  match d with
  | [] => None
  | (k, v) :: rest => if String.eqb k name then Some v else dict_get rest name
  end.

(** [d[name] = v]: replaces in place, or appends a new entry at the end. *)
Fixpoint dict_set {V : Type} (d : dict V) (name : string) (v : V) : dict V :=
  match d with
  | [] => [(name, v)]
  | (k, w) :: rest =>
      if String.eqb k name then (k, v) :: rest
      else (k, w) :: dict_set rest name v
  end.

Definition keys {V : Type} (d : dict V) : list string := map fst d.

(** [d[name]] *)
Definition dict_lookup {V : Type} (d : dict V) (name : string) : result V :=
  match dict_get d name with
  | Some v => ret v
  | None => raise (KeyError name)
  end.

(** *** [heapq.nsmallest] *)

Fixpoint insert_sorted (x : R) (l : list R) : list R :=
  match l with
  | [] => [x]
  | y :: rest => if Rle_dec x y then x :: l else y :: insert_sorted x rest
  end.

(** [sorted(l)] *)
Definition sorted (l : list R) : list R := fold_right insert_sorted [] l.

(** [heapq.nsmallest(n, l)] is documented as [sorted(l)[:n]]. *)
Definition nsmallest (n : nat) (l : list R) : list R := firstn n (sorted l).

(** [l[-1]] and [l[-2]] *)
Definition last_item (l : list R) : result R :=
  match rev l with
  | x :: _ => ret x
  | [] => raise IndexError
  end.

Definition second_last_item (l : list R) : result R :=
  match rev l with
  | _ :: x :: _ => ret x
  | _ => raise IndexError
  end.

(** *** The generator interface of [random.Random] *)

Class PRNG (G : Type) : Type := {
  Random : Z -> G;         (* random.Random(seed) *)
  random : G -> R * G      (* rng.random() *)
}.

End Py.

Export Py.

Declare Scope py_scope.
Notation "x <- m ;; k" := (bind m (fun x => k))
  (at level 61, m at next level, right associativity) : py_scope.
Notation "' pat <- m ;; k" := (bind m (fun x => match x with pat => k end))
  (at level 61, pat pattern, m at next level, right associativity) : py_scope.
Open Scope py_scope.

(** ** [yelp_sampling/scalable_srs.py] *)

Module scalable_srs.

(** Working thresholds [(low, accept, waitlist)] and final ones
    [(low, high)]; tallies [[count, waitlist]]. *)
Definition threshold : Type := (R * R * R)%type.
Definition final_threshold : Type := (R * R)%type.
Definition tally : Type := (Z * list R)%type.

(** The error raised by [_set_up_set_sizes]. *)
Definition InvalidConfiguration : exn :=
  ValueError "Sum of sampled sets larger than source set.".

(** [int(v * count if v < 1.0 else v)] *)
Definition absolute_size (v : number) (count : R) : Z :=
  int (if Rltb (float v) 1 then Float (float v * count) else v).

(** [sum(set_sizes.values())] *)
Definition sum_sizes (set_sizes : dict Z) : Z :=
  fold_left Z.add (map snd set_sizes) 0%Z.

(** [{k: v * count / sampled_size for k, v in set_sizes.items()}] *)
Fixpoint rescale (set_sizes : dict Z) (count sampled_size : R)
  : result (dict number) :=
  match set_sizes with
  | [] => ret []
  | (k, v) :: rest =>
      x <- fdiv (IZR v * count) sampled_size ;;
      rest' <- rescale rest count sampled_size ;;
      ret ((k, Float x) :: rest')
  end.

(** [{k: int(v * count if v < 1.0 else v) for k, v in set_sizes.items()}] *)
Definition absolute_sizes (set_sizes : dict number) (count : R) : dict Z :=
  map (fun kv => (fst kv, absolute_size (snd kv) count)) set_sizes.

Definition _set_up_set_sizes (set_sizes : dict number) (count : R)
  (reproportion : bool) : result (dict number) :=
  let set_sizes := absolute_sizes set_sizes count in
  let sampled_size := IZR (sum_sizes set_sizes) in
  if Rltb count sampled_size then
    if reproportion then rescale set_sizes count sampled_size
    else raise InvalidConfiguration
  else ret (map (fun kv => (fst kv, Int (snd kv))) set_sizes).

Definition _compute_thresholds (ratio population_size delta : R)
  : result (R * R) :=
  l1 <- math_log delta ;;
  gamma1 <- fdiv (- l1) population_size ;;
  l2 <- math_log delta ;;
  gamma2 <- fdiv (- (2 * l2)) (3 * population_size) ;;
  s2 <- math_sqrt (gamma2 ^ 2 + 3 * gamma2 * ratio) ;;
  let q_low := max 0 (ratio + gamma2 - s2) in
  s1 <- math_sqrt (gamma1 ^ 2 + 2 * gamma1 * ratio) ;;
  let q_high := min 1 (ratio + gamma1 + s1) in
  ret (q_low, q_high).

(** The loop of [_get_initial_thresholds], with its two variables. *)
Fixpoint initial_thresholds_loop (items : dict number) (count delta : R)
  (offset : R) (thresholds : dict threshold) : result (R * dict threshold) :=
  match items with
  | [] => ret (offset, thresholds)
  | (set_name, set_size) :: rest =>
      ratio <- fdiv (float set_size) count ;;
      q <- _compute_thresholds ratio count delta ;;
      let q_low := fst q in
      let q_high := snd q in
      initial_thresholds_loop rest count delta (offset + q_high)
        (dict_set thresholds set_name (offset, offset + q_low, offset + q_high))
  end.

Definition _get_initial_thresholds (set_sizes : dict number) (count delta : R)
  : result (dict threshold) :=
  r <- initial_thresholds_loop set_sizes count delta 0 [] ;;
  ret (snd r).

(** [required = size - count], keeping the type of the difference. *)
Definition required_of (size : number) (count : Z) : number :=
  match size with
  | Int z => Int (z - count)
  | Float x => Float (x - IZR count)
  end.

(** [nsmallest(required + 1, waitlist)[-1]]; a float count is refused. *)
Definition mid_waitlist_cutoff (required : number) (waitlist : list R)
  : result R :=
  match required with
  | Int z => last_item (nsmallest (Z.to_nat (z + 1)) waitlist)
  | Float _ => raise TypeError
  end.

(** The body of the loop of [_get_final_thresholds], for one set. *)
Definition refine (size : number) (t : tally) (th : threshold)
  : result final_threshold :=
  let count := fst t in
  let waitlist := snd t in
  let low := fst (fst th) in
  let accept := snd (fst th) in
  let cutoff := snd th in
  let required := required_of size count in
  let waitlist_count := length waitlist in
  if Rleb (float required) 0 then ret (low, accept)
  else if Rleb (INR waitlist_count) (float required) then ret (low, cutoff)
  else
    new_cutoff <- mid_waitlist_cutoff required waitlist ;;
    ret (low, new_cutoff).

Fixpoint final_thresholds_loop (items : dict number) (counts : dict tally)
  (thresholds : dict threshold) (final_thresholds : dict final_threshold)
  : result (dict final_threshold) :=
  match items with
  | [] => ret final_thresholds
  | (name, size) :: rest =>
      t <- dict_lookup counts name ;;
      th <- dict_lookup thresholds name ;;
      ft <- refine size t th ;;
      final_thresholds_loop rest counts thresholds
        (dict_set final_thresholds name ft)
  end.

Definition _get_final_thresholds (counts : dict tally) (set_sizes : dict number)
  (thresholds : dict threshold) : result (dict final_threshold) :=
  final_thresholds_loop set_sizes counts thresholds [].

(** [values[name][0] += 1] and [values[name][1].append(key)]; every name of
    [thresholds] is a key of [values]. *)
Fixpoint dict_adjust {V : Type} (f : V -> V) (d : dict V) (name : string)
  : dict V :=
  match d with
  | [] => []
  | (k, v) :: rest =>
      if String.eqb k name then (k, f v) :: rest
      else (k, v) :: dict_adjust f rest name
  end.

Definition count_one (t : tally) : tally := ((fst t + 1)%Z, snd t).
Definition append_key (key : R) (t : tally) : tally := (fst t, snd t ++ [key]).

(** The inner loop of [_threshold_accumulator], over the sets. *)
Fixpoint classify (key : R) (thresholds : dict threshold)
  (values : dict tally) : dict tally :=
  match thresholds with
  | [] => values
  | (name, (low, accept, waitlist)) :: rest =>
      if Rltb key low then classify key rest values
      else if Rltb key accept then
        classify key rest (dict_adjust count_one values name)
      else if Rltb key waitlist then
        classify key rest (dict_adjust (append_key key) values name)
      else classify key rest values
  end.

(** [{name: [0, []] for name in thresholds}] *)
Fixpoint zero_tallies (names : list string) (values : dict tally) : dict tally :=
  match names with
  | [] => values
  | name :: rest => zero_tallies rest (dict_set values name (0%Z, []))
  end.

Section Partitions.

Context {G : Type} {rng_ops : PRNG G} {Row : Type}.

(** The outer loop of [_threshold_accumulator], over the rows. *)
Fixpoint accumulate (rng : G) (rows : list Row) (thresholds : dict threshold)
  (values : dict tally) : dict tally :=
  match rows with
  | [] => values
  | _ :: rest =>
      let (key, rng') := random rng in
      accumulate rng' rest thresholds (classify key thresholds values)
  end.

(** The generator yields one value: the tallies of the partition. *)
Definition _threshold_accumulator (idx : Z) (rows : list Row)
  (thresholds : dict threshold) (seed : Z) : list (dict tally) :=
  let rng := Random (seed + idx) in
  let values := zero_tallies (keys thresholds) [] in
  [accumulate rng rows thresholds values].

(** The inner loop of [_threshold_mapper]: the first set whose interval
    holds the key is yielded, and the loop is left. *)
Fixpoint emit (key : R) (row : Row) (thresholds : dict final_threshold)
  : list (string * Row) :=
  match thresholds with
  | [] => []
  | (name, (low, high)) :: rest =>
      if Rltb key low then emit key row rest
      else if Rltb key high then [(name, row)]
      else emit key row rest
  end.

Fixpoint map_rows (rng : G) (rows : list Row)
  (thresholds : dict final_threshold) : list (string * Row) :=
  match rows with
  | [] => []
  | row :: rest =>
      let (key, rng') := random rng in
      emit key row thresholds ++ map_rows rng' rest thresholds
  end.

Definition _threshold_mapper (idx : Z) (rows : list Row)
  (thresholds : dict final_threshold) (seed : Z) : list (string * Row) :=
  let rng := Random (seed + idx) in
  map_rows rng rows thresholds.

End Partitions.

(** [a[name][i] += v for i, v in enumerate(value)] on a tally. *)
Definition add_tally (a b : tally) : tally := ((fst a + fst b)%Z, snd a ++ snd b).

Fixpoint _dict_addition_reducer (a b : dict tally) : dict tally :=
  match b with
  | [] => a
  | (name, value) :: rest =>
      match dict_get a name with
      | None => _dict_addition_reducer (dict_set a name value) rest
      | Some _ =>
          _dict_addition_reducer (dict_adjust (fun t => add_tally t value) a name) rest
      end
  end.

(** *** The partitioned collection *)

Definition RDD (A : Type) : Type := list (list A).

Definition rdd_count {A : Type} (rdd : RDD A) : Z :=
  Z.of_nat (length (concat rdd)).

Fixpoint mapPartitionsWithIndex_from {A B : Type} (f : Z -> list A -> list B)
  (idx : Z) (rdd : RDD A) : RDD B :=
  match rdd with
  | [] => []
  | rows :: rest => f idx rows :: mapPartitionsWithIndex_from f (idx + 1) rest
  end.

Definition mapPartitionsWithIndex {A B : Type} (f : Z -> list A -> list B)
  (rdd : RDD A) : RDD B :=
  mapPartitionsWithIndex_from f 0 rdd.

(** [rdd.reduce(f)]: a left fold over the elements; an empty collection is
    an error. *)
Definition reduce {A : Type} (f : A -> A -> A) (rdd : RDD A) : result A :=
  match concat rdd with
  | [] => raise (ValueError "Can not reduce() empty RDD")
  | x :: rest => ret (fold_left f rest x)
  end.

(** [x or y] on an optional number: [None] and zero are falsy. *)
Definition or_else (x : option number) (y : number) : number :=
  match x with
  | Some v => if truthy v then v else y
  | None => y
  end.

Section Pipeline.

Context {G : Type} {rng_ops : PRNG G} {Row : Type}.

(** [now] is the value of [time.time()] at the call. *)
Definition scalable_srs (now : R) (rdd : RDD Row) (set_sizes : dict number)
  (count : option number) (delta : R) (seed : option number)
  (reproportion : bool) : result (RDD (string * Row)) :=
  let count := float (or_else count (Int (rdd_count rdd))) in
  let seed := int (or_else seed (Float now)) in
  set_sizes <- _set_up_set_sizes set_sizes count reproportion ;;
  thresholds <- _get_initial_thresholds set_sizes count delta ;;
  counts <- reduce _dict_addition_reducer
              (mapPartitionsWithIndex
                 (fun idx rows => _threshold_accumulator idx rows thresholds seed)
                 rdd) ;;
  final_thresholds <- _get_final_thresholds counts set_sizes thresholds ;;
  ret (mapPartitionsWithIndex
         (fun idx rows => _threshold_mapper idx rows final_thresholds seed)
         rdd).

End Pipeline.

End scalable_srs.

(** ** [yelp_sampling/srs_sampling.py] *)

Module srs_sampling.

Import scalable_srs.

(** A lower bound that may be [float('-inf')]. *)
Inductive bound : Type :=
| NegInf
| Fin (x : R).

(** [key > lower] *)
Definition above (key : R) (lower : bound) : bool :=
  match lower with
  | NegInf => true
  | Fin x => Rltb x key
  end.

(** The test of [filter_ad_events]:
    [random_key < upper_theshold and random_key > lower_theshold]. *)
Definition passes (random_key : R) (lower_theshold : bound)
  (upper_theshold : R) : bool :=
  Rltb random_key upper_theshold && above random_key lower_theshold.

(** The accumulators shared by the partitions of the first pass. *)
Record accumulators : Type := {
  train_accepted_items : Z;
  test_accepted_items : Z;
  train_waitlist : list R
}.

(** [round(x)] on a float: to the nearest integer, ties to the even one. *)
Definition round (x : R) : Z :=
  let f := Int_part x in
  let d := x - IZR f in
  if Rlt_dec d (1 / 2) then f
  else if Rlt_dec (1 / 2) d then (f + 1)%Z
  else if Z.even f then f else (f + 1)%Z.

Section Partitions.

Context {G : Type} {rng_ops : PRNG G} {Row : Type}.

Fixpoint filter_rows (rng : G) (ad_events : list Row) (lower_theshold : bound)
  (upper_theshold : R) : list Row :=
  match ad_events with
  | [] => []
  | ad_event :: rest =>
      let (random_key, rng') := random rng in
      if passes random_key lower_theshold upper_theshold
      then ad_event :: filter_rows rng' rest lower_theshold upper_theshold
      else filter_rows rng' rest lower_theshold upper_theshold
  end.

Definition filter_ad_events (idx : Z) (ad_events : list Row)
  (lower_theshold : bound) (upper_theshold : R) (seed : Z) : list Row :=
  filter_rows (Random (seed + idx)) ad_events lower_theshold upper_theshold.

(** One round of the loop of [select_train_test_ad_events]: the update of
    the accumulators and the keys yielded. *)
Definition select_one (random_key train_q1 train_q2 test_q1 test_q2 : R)
  (acc : accumulators) : list R * accumulators :=
  let acc1 :=
    if Rltb random_key train_q2 then
      {| train_accepted_items := (train_accepted_items acc + 1)%Z;
         test_accepted_items := test_accepted_items acc;
         train_waitlist := train_waitlist acc |}
    else if Rltb random_key train_q1 then
      {| train_accepted_items := train_accepted_items acc;
         test_accepted_items := test_accepted_items acc;
         train_waitlist := train_waitlist acc ++ [random_key] |}
    else acc in
  if Rltb random_key test_q2 then
    ([], {| train_accepted_items := train_accepted_items acc1;
            test_accepted_items := (test_accepted_items acc1 + 1)%Z;
            train_waitlist := train_waitlist acc1 |})
  else if Rltb random_key test_q1 then ([random_key], acc1)
  else ([], acc1).

Fixpoint select_rows (rng : G) (ad_events : list Row)
  (train_q1 train_q2 test_q1 test_q2 : R) (acc : accumulators)
  : list R * accumulators :=
  match ad_events with
  | [] => ([], acc)
  | _ :: rest =>
      let (random_key, rng') := random rng in
      let (out, acc1) :=
        select_one random_key train_q1 train_q2 test_q1 test_q2 acc in
      let (outs, acc2) :=
        select_rows rng' rest train_q1 train_q2 test_q1 test_q2 acc1 in
      (out ++ outs, acc2)
  end.

Definition select_train_test_ad_events (idx : Z) (ad_events : list Row)
  (train_q1 train_q2 test_q1 test_q2 : R) (seed : Z) (acc : accumulators)
  : list R * accumulators :=
  select_rows (Random (seed + idx)) ad_events
    train_q1 train_q2 test_q1 test_q2 acc.

(** The first pass over all partitions, with [collect()]: the keys yielded
    by every partition, and the accumulators after the action. *)
Fixpoint select_partitions (idx : Z) (input_logs : RDD Row)
  (train_q1 train_q2 test_q1 test_q2 : R) (seed : Z) (acc : accumulators)
  : list R * accumulators :=
  match input_logs with
  | [] => ([], acc)
  | ad_events :: rest =>
      let (out, acc1) :=
        select_train_test_ad_events idx ad_events
          train_q1 train_q2 test_q1 test_q2 seed acc in
      let (outs, acc2) :=
        select_partitions (idx + 1) rest
          train_q1 train_q2 test_q1 test_q2 seed acc1 in
      (out ++ outs, acc2)
  end.

End Partitions.

Definition compute_selection_waitlist_thresholds (approx_pop_size sample_size : R)
  : result (R * R) :=
  t1 <- fdiv 20 (3 * approx_pop_size) ;;
  t2 <- fdiv 10 approx_pop_size ;;
  sampling_prob <- fdiv sample_size approx_pop_size ;;
  s1 <- math_sqrt (t1 * t1 + 3 * t1 * sampling_prob) ;;
  let q2 := max 0 (sampling_prob + t1 - s1) in
  s2 <- math_sqrt (t2 * t2 + 2 * t2 * sampling_prob) ;;
  let q1 := min 1 (sampling_prob + t2 + s2) in
  ret (q1, q2).

Definition compute_acceptance_rejection_thresholds (num_waitlist_accepted : Z)
  (waitlist : list R) (q1 q2 : R) : result (R * R) :=
  if (Z.of_nat (length waitlist) <? num_waitlist_accepted)%Z then ret (q1, q1)
  else if (0 <? num_waitlist_accepted)%Z then
    let sorted_waitlist :=
      nsmallest (Z.to_nat (num_waitlist_accepted + 1)) waitlist in
    acceptance_threshold <- last_item sorted_waitlist ;;
    rejection_threshold <- second_last_item sorted_waitlist ;;
    ret (acceptance_threshold, rejection_threshold)
  else ret (q2, q2).

(** The thresholds of the two output filters, as the driver computes them:
    [(train_upper_threshold, test_lower_threshold, test_upper_threshold)]. *)
Record output_thresholds : Type := {
  train_upper_threshold : R;
  test_lower_threshold : R;
  test_upper_threshold : R
}.

Section Driver.

Context {G : Type} {rng_ops : PRNG G} {Row : Type}.

(** The sizes after the reproportioning of lines 116-121; the two sizes
    are integer counts, and [/] is the true division. *)
Definition resized (train_size test_size ad_event_count : Z) : Z * Z :=
  let sample_size := (train_size + test_size)%Z in
  if (ad_event_count <? sample_size)%Z then
    (Int_part (IZR train_size / IZR sample_size * IZR ad_event_count),
     Int_part (IZR test_size / IZR sample_size * IZR ad_event_count))
  else (train_size, test_size).

(** Lines 101-152 of [sample_train_test_split]: the first pass and the
    thresholds drawn from it.  [seed] is [int(round(time.time()))]. *)
Definition driver_thresholds (seed : Z) (input_logs : RDD Row)
  (train_size test_size : Z) : result output_thresholds :=
  let acc0 := {| train_accepted_items := 0; test_accepted_items := 0;
                 train_waitlist := [] |} in
  let ad_event_count := rdd_count input_logs in
  let sizes := resized train_size test_size ad_event_count in
  let train_size := fst sizes in
  let test_size := snd sizes in
  q_train <- compute_selection_waitlist_thresholds
               (IZR ad_event_count) (IZR train_size) ;;
  let train_q1 := fst q_train in
  let train_q2 := snd q_train in
  q_test <- compute_selection_waitlist_thresholds
              (IZR ad_event_count) (IZR (train_size + test_size)) ;;
  let test_q1 := fst q_test in
  let test_q2 := snd q_test in
  let collected :=
    select_partitions 0 input_logs train_q1 train_q2 test_q1 test_q2 seed acc0 in
  let test_waitlist := fst collected in
  let acc := snd collected in
  train_th <- compute_acceptance_rejection_thresholds
                (train_size - train_accepted_items acc)
                (train_waitlist acc) train_q1 train_q2 ;;
  test_th <- compute_acceptance_rejection_thresholds
               (train_size + test_size - test_accepted_items acc)
               test_waitlist test_q1 test_q2 ;;
  ret {| train_upper_threshold := fst train_th;
         test_lower_threshold := snd train_th;
         test_upper_threshold := fst test_th |}.

(** The two collections saved by [sample_train_test_split]: the train
    output and the test output. *)
Definition sample_train_test_split (now : R) (train_size test_size : Z)
  (input_logs : RDD Row) : result (RDD Row * RDD Row) :=
  let seed := round now in
  th <- driver_thresholds seed input_logs train_size test_size ;;
  ret (mapPartitionsWithIndex
         (fun idx x =>
            filter_ad_events idx x NegInf (train_upper_threshold th) seed)
         input_logs,
       mapPartitionsWithIndex
         (fun idx x =>
            filter_ad_events idx x (Fin (test_lower_threshold th))
              (test_upper_threshold th) seed)
         input_logs).

End Driver.

End srs_sampling.

(** ** The formulas of the specification *)

Module Spec.

(** The closed form of the two cutoffs, as the specification writes it. *)
Definition gamma1 (N delta : R) : R := - ln delta / N.
Definition gamma2 (N delta : R) : R := - (2 * ln delta) / (3 * N).

Definition q_low (p N delta : R) : R :=
  Rmax 0 (p + gamma2 N delta
          - sqrt (Rsqr (gamma2 N delta) + 3 * gamma2 N delta * p)).

Definition q_high (p N delta : R) : R :=
  Rmin 1 (p + gamma1 N delta
          + sqrt (Rsqr (gamma1 N delta) + 2 * gamma1 N delta * p)).


(** The number of keys of [l] strictly below [c]. *)
Definition count_below (c : R) (l : list R) : nat :=
  length (filter (fun k => Rltb k c) l).


(** The sum of the waitlist cutoffs of the sets of a configuration. *)
Definition total_q_high (sizes : dict number) (count delta : R) : R :=
  fold_right (fun kv acc => q_high (float (snd kv) / count) count delta + acc)
    0 sizes.

(** The intervals of the sets, laid out one after the other from
    [offset]: the accept zone [[offset, offset + q_low)] and the waitlist
    zone [[offset + q_low, offset + q_high)] of each set, the next set
    starting at [offset + q_high]. *)
Fixpoint layout (sizes : dict number) (count delta offset : R)
  : dict scalable_srs.threshold :=
  match sizes with
  | [] => []
  | (name, size) :: rest =>
      let p := float size / count in
      (name, (offset, offset + q_low p count delta, offset + q_high p count delta))
        :: layout rest count delta (offset + q_high p count delta)
  end.

(** A well-formed configuration: unique names and sizes that are not
    negative. *)
Definition well_formed (sizes : dict number) : Prop :=
  NoDup (keys sizes) /\ Forall (fun kv => 0 <= float (snd kv)) sizes.

(** The merge of two optional tallies: the sum of the counts and the
    concatenation of the waitlists, or the one that is present. *)
Definition merged (x y : option scalable_srs.tally)
  : option scalable_srs.tally :=
  match x, y with
  | Some a, Some b => Some (scalable_srs.add_tally a b)
  | Some a, None => Some a
  | None, y => y
  end.

(** Two optional tallies with the same count and the same waitlisted
    keys, in any order. *)
Definition same_tally (x y : option scalable_srs.tally) : Prop :=
  match x, y with
  | Some a, Some b => fst a = fst b /\ Permutation (snd a) (snd b)
  | None, None => True
  | _, _ => False
  end.

(** Membership in a list of names, as a boolean. *)
Definition in_keys (l : list string) (k : string) : bool :=
  existsb (String.eqb k) l.

(** The key [key] lies in the interval of a working threshold, accept
    zone and waitlist zone together. *)
Definition claimed (th : scalable_srs.threshold) (key : R) : Prop :=
  fst (fst th) <= key < snd th.

(** [lo <= key < hi], as a boolean. *)
Definition in_band (lo hi key : R) : bool := negb (Rltb key lo) && Rltb key hi.

Section Keys.

Context {G : Type} {rng_ops : PRNG G}.

(** The keys of the first [n] records of a partition, drawn in order from
    its generator. *)
Fixpoint partition_keys (rng : G) (n : nat) : list R :=
  match n with
  | O => []
  | S n' => let (key, rng') := random rng in key :: partition_keys rng' n'
  end.

(** The keys of all records, for partitions of the given lengths numbered
    from [idx], each generator being seeded with [seed + idx]. *)
Fixpoint rdd_keys (seed idx : Z) (lengths : list nat) : list R :=
  match lengths with
  | [] => []
  | n :: rest =>
      partition_keys (Random (seed + idx)) n ++ rdd_keys seed (idx + 1) rest
  end.

End Keys.

(** The number of keys in [[lo, hi)]. *)
Definition count_band (lo hi : R) (l : list R) : nat :=
  length (filter (in_band lo hi) l).

(** The tally of one set over a sequence of keys: the keys of the accept
    zone are counted, those of the waitlist zone are kept in order. *)
Definition tally_of (th : scalable_srs.threshold) (l : list R)
  : scalable_srs.tally :=
  (Z.of_nat (count_band (fst (fst th)) (snd (fst th)) l),
   filter (in_band (snd (fst th)) (snd th)) l).

(** The effect of one key on the tally of a set, as the branches of the
    first pass have it. *)
Definition tally_step (th : scalable_srs.threshold) (key : R)
  (t : scalable_srs.tally) : scalable_srs.tally :=
  if Rltb key (fst (fst th)) then t
  else if Rltb key (snd (fst th)) then scalable_srs.count_one t
  else if Rltb key (snd th) then scalable_srs.append_key key t
  else t.

(** The tallies of the sets after some keys: every set holds the tally
    of its own threshold. *)
Definition tallies_after (thresholds : dict scalable_srs.threshold)
  (l : list R) (values : dict scalable_srs.tally) : Prop :=
  keys values = keys thresholds
  /\ forall name th, dict_get thresholds name = Some th ->
       dict_get values name = Some (tally_of th l).

(** The pair [p] carries the name of the set [name]. *)
Definition carries {Row : Type} (name : string) (p : string * Row) : bool :=
  String.eqb (fst p) name.

(** The number of pairs of a collection that carry the name of a set. *)
Definition count_set {Row : Type} (name : string)
  (out : list (list (string * Row))) : nat :=
  length (filter (carries name) (concat out)).

(** The first pass brackets every target: the keys of the accept zone of
    a set are at most its target size, those of its whole interval at
    least. *)
Definition sufficient (sizes : dict Z) (thresholds : dict scalable_srs.threshold)
  (l : list R) : Prop :=
  forall name z low accept cutoff,
    dict_get sizes name = Some z ->
    dict_get thresholds name = Some (low, accept, cutoff) ->
    (Z.of_nat (count_band low accept l) <= z
     <= Z.of_nat (count_band low cutoff l))%Z.

(** Integer sizes as a normalized configuration. *)
Definition int_sizes (sizes : dict Z) : dict number :=
  map (fun kv => (fst kv, Int (snd kv))) sizes.

End Spec.

(** ** Concrete configurations *)

Module Examples.

Import scalable_srs.

(** One set given as the ratio 0.26. *)
Definition ratio_config : dict number := [("A"%string, Float (13 / 50))].

(** Two sets of one record each. *)
Definition two_sets : dict number := [("A"%string, Int 1); ("B"%string, Int 1)].

(** One set of target size 3, with one record accepted and three
    waitlisted by the first pass. *)
Definition one_set : dict number := [("A"%string, Int 3)].
Definition one_set_counts : dict tally :=
  [("A"%string, (1%Z, [3 / 10; 1 / 10; 1 / 5]))].
Definition one_set_thresholds : dict threshold :=
  [("A"%string, (0, 1 / 20, 1 / 2))].

(** Two tallies of one set with one waitlisted key each. *)
Definition tally_a : dict tally := [("A"%string, (0%Z, [1 / 10]))].
Definition tally_b : dict tally := [("A"%string, (0%Z, [1 / 5]))].

(** A generator that reads its keys off a table indexed by the seed and
    the position. *)
Definition table_rng (table : Z -> nat -> R) : PRNG (Z * nat) :=
  {| Random := fun seed => (seed, O);
     random := fun g => (table (fst g) (snd g), (fst g, S (snd g))) |}.

(** Two records in one partition, with the keys 1/4 and 3/4. *)
Definition quarters (seed : Z) (pos : nat) : R :=
  match pos with
  | O => 1 / 4
  | _ => 3 / 4
  end.

Definition two_records : RDD nat := [[1%nat; 2%nat]].

(** One set of one record. *)
Definition single : dict number := [("A"%string, Int 1)].

(** Ten records in one partition, with the keys 0.50, 0.51, ..., all in
    the upper half of the key space. *)
Definition upper_half (seed : Z) (pos : nat) : R := 1 / 2 + INR pos / 100.

Definition ten_records : RDD nat :=
  [[0; 1; 2; 3; 4; 5; 6; 7; 8; 9]%nat].

(** One set with the float size 3.5, as reproportioning leaves it. *)
Definition float_set : dict number := [("A"%string, Float (7 / 2))].

(** Three records in one partition, with the keys 1/4, 1/2 and 3/4. *)
Definition fourths (seed : Z) (pos : nat) : R :=
  match pos with
  | O => 1 / 4
  | S O => 1 / 2
  | _ => 3 / 4
  end.

Definition three_records : RDD nat := [[1%nat; 2%nat; 3%nat]].

(** Two sets of six records each, asked of eight records: reproportioning
    rescales both sizes to the float 4.0. *)
Definition oversubscribed : dict number :=
  [("A"%string, Int 6); ("B"%string, Int 6)].
Definition reproportioned : dict number :=
  [("A"%string, Float 4); ("B"%string, Float 4)].

(** Eight records in one partition, with eight distinct keys. *)
Definition eight_keys : list R :=
  [1 / 16; 1 / 8; 1 / 4; 3 / 8; 1 / 2; 5 / 8; 3 / 4; 7 / 8].
Definition eighths (seed : Z) (pos : nat) : R := nth pos eight_keys 0.
Definition eight_records : RDD nat := [[0; 1; 2; 3; 4; 5; 6; 7]%nat].

(** The working thresholds of the two sets of size 4.0 out of eight
    records with the default [delta], and the tallies of the eight keys. *)
Definition reproportioned_thresholds : dict threshold :=
  [("A"%string, (0, 0, 1)); ("B"%string, (1, 1, 2))].
Definition reproportioned_counts : dict tally :=
  [("A"%string, (0%Z, eight_keys)); ("B"%string, (0%Z, []))].

End Examples.

(** ** Auxiliary predicates *)

(** Ascending order: every element is at most the ones after it. *)
Inductive ascending : list R -> Prop :=
| asc_nil : ascending []
| asc_cons (x : R) (l : list R) :
    (forall y, In y l -> x <= y) -> ascending l -> ascending (x :: l).

(** An entry of the final thresholds, against the item of the
    configuration it is computed from. *)
Definition refined_entry (counts : dict scalable_srs.tally)
  (thresholds : dict scalable_srs.threshold)
  (item : string * number) (entry : string * scalable_srs.final_threshold)
  : Prop :=
  fst entry = fst item
  /\ exists t th,
       dict_get counts (fst item) = Some t
       /\ dict_get thresholds (fst item) = Some th
       /\ scalable_srs.refine (snd item) t th = ret (snd entry).

(** Final intervals that follow one another: each one ends before the
    later ones begin. *)
Inductive separated : dict scalable_srs.final_threshold -> Prop :=
| sep_nil : separated []
| sep_cons (name : string) (low high : R)
    (rest : dict scalable_srs.final_threshold) :
    (forall n ft, In (n, ft) rest -> high <= fst ft) ->
    separated rest ->
    separated ((name, (low, high)) :: rest).

(** ** Predicates of the further properties *)

Module More.

(** The final interval of the entry [e] holds [key]. *)
Definition holds (key : R) (e : string * scalable_srs.final_threshold) : bool :=
  Spec.in_band (fst (snd e)) (snd (snd e)) key.

(** What the second pass yields for one record: the pair under the name
    of the first set, in the order of the thresholds, whose interval
    holds the key. *)
Definition first_match {Row : Type} (thresholds : dict scalable_srs.final_threshold)
  (kr : R * Row) : list (string * Row) :=
  match find (holds (fst kr)) thresholds with
  | Some e => [(fst e, snd kr)]
  | None => []
  end.

End More.


(* ------------------------------------------------------------------ *)
(** * Properties *)

(** ** Comparisons and the prelude *)

Lemma Rltb_true (x y : R) : Rltb x y = true <-> x < y.
Proof. unfold Rltb; destruct (Rlt_dec x y); split; intros; auto; discriminate. Qed.

Lemma Rltb_false (x y : R) : Rltb x y = false <-> y <= x.
Proof.
  unfold Rltb; destruct (Rlt_dec x y); split; intros; auto; try discriminate; lra.
Qed.

Lemma Rleb_true (x y : R) : Rleb x y = true <-> x <= y.
Proof. unfold Rleb; destruct (Rle_dec x y); split; intros; auto; discriminate. Qed.

Lemma Rleb_false (x y : R) : Rleb x y = false <-> y < x.
Proof.
  unfold Rleb; destruct (Rle_dec x y); split; intros; auto; try discriminate; lra.
Qed.

Lemma max_Rmax (a b : R) : Py.max a b = Rmax a b.
Proof.
  unfold Py.max, Rmax; destruct (Rlt_dec a b), (Rle_dec a b); lra.
Qed.

Lemma min_Rmin (a b : R) : Py.min a b = Rmin a b.
Proof.
  unfold Py.min, Rmin; destruct (Rlt_dec b a), (Rle_dec a b); lra.
Qed.

Lemma math_log_ok (x : R) : 0 < x -> math_log x = ret (ln x).
Proof. intros H; unfold math_log; destruct (Rlt_dec 0 x); [reflexivity | lra]. Qed.

Lemma math_sqrt_ok (x : R) : 0 <= x -> math_sqrt x = ret (sqrt x).
Proof. intros H; unfold math_sqrt; destruct (Rle_dec 0 x); [reflexivity | lra]. Qed.

Lemma fdiv_ok (x y : R) : y <> 0 -> fdiv x y = ret (x / y).
Proof. intros H; unfold fdiv; destruct (Req_dec_T y 0); [contradiction | reflexivity]. Qed.

Lemma ln_neg (x : R) : 0 < x -> x < 1 -> ln x < 0.
Proof. intros H0 H1; rewrite <- ln_1; apply ln_increasing; assumption. Qed.

(** ** The threshold formulas *)

Lemma ln_nonpos (x : R) : 0 < x <= 1 -> ln x <= 0.
Proof.
  intros [H0 [H1 | H1]].
  - left. apply ln_neg; assumption.
  - subst x. rewrite ln_1. lra.
Qed.

Lemma gamma1_nonneg (N delta : R) :
  0 < N -> 0 < delta <= 1 -> 0 <= Spec.gamma1 N delta.
Proof.
  intros HN Hd. unfold Spec.gamma1.
  pose proof (ln_nonpos delta Hd).
  apply Rmult_le_pos; [lra |]. left. apply Rinv_0_lt_compat. assumption.
Qed.

Lemma gamma2_nonneg (N delta : R) :
  0 < N -> 0 < delta <= 1 -> 0 <= Spec.gamma2 N delta.
Proof.
  intros HN Hd. unfold Spec.gamma2.
  pose proof (ln_nonpos delta Hd).
  apply Rmult_le_pos; [lra |]. left. apply Rinv_0_lt_compat. lra.
Qed.

Lemma gamma1_pos (N delta : R) : 0 < N -> 0 < delta < 1 -> 0 < Spec.gamma1 N delta.
Proof.
  intros HN [H0 H1]; unfold Spec.gamma1.
  apply Rdiv_lt_0_compat; [| assumption].
  pose proof (ln_neg delta H0 H1); lra.
Qed.

(** On a well-formed input no step of [_compute_thresholds] raises, and
    the value is the closed form. *)
Lemma compute_thresholds_defined (p N delta : R) :
  0 <= p -> 0 < N -> 0 < delta <= 1 ->
  scalable_srs._compute_thresholds p N delta
  = ret (Spec.q_low p N delta, Spec.q_high p N delta).
Proof.
  intros Hp HN Hd.
  pose proof (gamma1_nonneg N delta HN Hd) as G1.
  pose proof (gamma2_nonneg N delta HN Hd) as G2.
  unfold scalable_srs._compute_thresholds.
  rewrite math_log_ok by lra. cbn [bind ret].
  rewrite fdiv_ok by lra. cbn [bind ret].
  rewrite fdiv_ok by lra. cbn [bind ret].
  fold (Spec.gamma1 N delta). fold (Spec.gamma2 N delta).
  rewrite math_sqrt_ok by nra. cbn [bind ret].
  rewrite math_sqrt_ok by nra. cbn [bind ret].
  rewrite max_Rmax, min_Rmin.
  unfold Spec.q_low, Spec.q_high, Rsqr.
  replace (Spec.gamma2 N delta ^ 2) with (Spec.gamma2 N delta * Spec.gamma2 N delta) by ring.
  replace (Spec.gamma1 N delta ^ 2) with (Spec.gamma1 N delta * Spec.gamma1 N delta) by ring.
  reflexivity.
Qed.

(** C6: for a sampling ratio [p >= 0], a population [N > 0] and [delta]
    in (0,1), [_compute_thresholds] returns exactly the pair of cutoffs
    [max(0, p + g2 - sqrt(g2^2 + 3 g2 p))] and
    [min(1, p + g1 + sqrt(g1^2 + 2 g1 p))], with [g1 = -ln(delta)/N] and
    [g2 = -(2 ln delta)/(3N)]. *)
Theorem compute_thresholds_closed_form (p N delta : R) :
  0 <= p -> 0 < N -> 0 < delta < 1 ->
  scalable_srs._compute_thresholds p N delta
  = ret (Spec.q_low p N delta, Spec.q_high p N delta).
Proof.
  intros Hp HN Hd. apply compute_thresholds_defined; lra.
Qed.

Lemma compute_thresholds_closed_form_witness :
  scalable_srs._compute_thresholds (1 / 10) 1000 (1 / 20000)
  = ret (Spec.q_low (1 / 10) 1000 (1 / 20000),
         Spec.q_high (1 / 10) 1000 (1 / 20000)).
Proof. apply compute_thresholds_closed_form; lra. Defined.

(** Bounds on the two cutoffs. *)
Lemma q_low_nonneg (p N delta : R) : 0 <= Spec.q_low p N delta.
Proof. unfold Spec.q_low. apply Rmax_l. Qed.

Lemma q_low_le_ratio (p N delta : R) :
  0 <= p -> 0 < N -> 0 < delta <= 1 -> Spec.q_low p N delta <= p.
Proof.
  intros Hp HN Hd. pose proof (gamma2_nonneg N delta HN Hd) as G2.
  unfold Spec.q_low. apply Rmax_lub; [assumption |].
  set (g := Spec.gamma2 N delta) in *.
  assert (g <= sqrt (Rsqr g + 3 * g * p)).
  { rewrite <- (sqrt_Rsqr g) at 1 by assumption.
    apply sqrt_le_1; unfold Rsqr; nra. }
  lra.
Qed.

Lemma q_high_ge_ratio (p N delta : R) :
  0 <= p <= 1 -> 0 < N -> 0 < delta <= 1 -> p <= Spec.q_high p N delta.
Proof.
  intros Hp HN Hd. pose proof (gamma1_nonneg N delta HN Hd) as G1.
  unfold Spec.q_high. apply Rmin_glb; [lra |].
  pose proof (sqrt_pos (Rsqr (Spec.gamma1 N delta) + 2 * Spec.gamma1 N delta * p)).
  lra.
Qed.

Lemma q_high_gt_ratio (p N delta : R) :
  0 <= p < 1 -> 0 < N -> 0 < delta < 1 -> p < Spec.q_high p N delta.
Proof.
  intros Hp HN Hd. pose proof (gamma1_pos N delta HN Hd) as G1.
  unfold Spec.q_high. apply Rmin_glb_lt; [lra |].
  pose proof (sqrt_pos (Rsqr (Spec.gamma1 N delta) + 2 * Spec.gamma1 N delta * p)).
  lra.
Qed.

Lemma q_high_nonneg (p N delta : R) :
  0 <= p -> 0 < N -> 0 < delta <= 1 -> 0 <= Spec.q_high p N delta.
Proof.
  intros Hp HN Hd. pose proof (gamma1_nonneg N delta HN Hd) as G1.
  unfold Spec.q_high. apply Rmin_glb; [lra |].
  pose proof (sqrt_pos (Rsqr (Spec.gamma1 N delta) + 2 * Spec.gamma1 N delta * p)).
  lra.
Qed.

(** ** Size normalization *)

Section Normalizer.

Import scalable_srs.

Lemma rescale_not_invalid (sizes : dict Z) (count sampled_size : R) :
  rescale sizes count sampled_size <> raise InvalidConfiguration.
Proof.
  induction sizes as [| [k v] rest IH]; cbn [rescale]; [discriminate |].
  unfold fdiv. destruct (Req_dec_T sampled_size 0); [discriminate |].
  cbn [bind ret].
  destruct (rescale rest count sampled_size) as [e | r] eqn:E; cbn [bind ret].
  - intros H; apply IH; exact H.
  - discriminate.
Qed.

Lemma set_up_set_sizes_raises (set_sizes : dict number) (count : R)
  (reproportion : bool) :
  _set_up_set_sizes set_sizes count reproportion = raise InvalidConfiguration
  <-> (count < IZR (sum_sizes (absolute_sizes set_sizes count))
       /\ reproportion = false).
Proof.
  unfold _set_up_set_sizes.
  destruct (Rltb count _) eqn:E.
  - apply Rltb_true in E. destruct reproportion.
    + split; [intros H; exfalso; eapply rescale_not_invalid; exact H |].
      intros [_ H]; discriminate.
    + split; auto.
  - apply Rltb_false in E. split; [discriminate |]. intros [H _]; lra.
Qed.

(** C4: [_set_up_set_sizes] raises its [ValueError] exactly when the sum
    of the absolute sizes exceeds the population and [reproportion] is
    off; [scalable_srs] then returns that error and no collection. *)
Theorem invalid_configuration_iff :
  (forall (set_sizes : dict number) (count : R) (reproportion : bool),
      _set_up_set_sizes set_sizes count reproportion = raise InvalidConfiguration
      <-> (count < IZR (sum_sizes (absolute_sizes set_sizes count))
           /\ reproportion = false))
  /\
  (forall (G : Type) (rng_ops : PRNG G) (Row : Type) (now : R) (rdd : RDD Row)
          (set_sizes : dict number) (count : option number) (delta : R)
          (seed : option number) (reproportion : bool),
      let N := float (or_else count (Int (rdd_count rdd))) in
      _set_up_set_sizes set_sizes N reproportion = raise InvalidConfiguration ->
      scalable_srs now rdd set_sizes count delta seed reproportion
      = raise InvalidConfiguration).
Proof.
  split.
  - exact set_up_set_sizes_raises.
  - intros G rng_ops Row now rdd set_sizes count delta seed reproportion N H.
    unfold scalable_srs. fold N. rewrite H. reflexivity.
Qed.

End Normalizer.

Section NormalizerValues.

Import scalable_srs.


Lemma Int_part_IZR (z : Z) : Int_part (IZR z) = z.
Proof. symmetry. apply Int_part_spec. lra. Qed.




Lemma fold_left_Zadd (l : list Z) (a : Z) :
  fold_left Z.add l a = (a + fold_right Z.add 0 l)%Z.
Proof.
  revert a; induction l as [| x l IH]; intros a; cbn; [lia |].
  rewrite IH. lia.
Qed.

Lemma sum_sizes_cons (k : string) (v : Z) (rest : dict Z) :
  sum_sizes ((k, v) :: rest) = (v + sum_sizes rest)%Z.
Proof. unfold sum_sizes; cbn. rewrite !fold_left_Zadd. lia. Qed.







End NormalizerValues.

(** ** Dictionaries *)

Section Dicts.

Context {V : Type}.

Lemma dict_get_none (d : dict V) (name : string) :
  dict_get d name = None <-> ~ In name (keys d).
Proof.
  induction d as [| [k v] rest IH]; cbn; [tauto |].
  destruct (String.eqb_spec k name) as [-> | Hne].
  - split; [discriminate | intros H; exfalso; apply H; auto].
  - rewrite IH. split; [intros H [E | I]; auto | tauto].
Qed.

Lemma dict_get_some_in (d : dict V) (name : string) (v : V) :
  dict_get d name = Some v -> In (name, v) d.
Proof.
  induction d as [| [k w] rest IH]; cbn; [discriminate |].
  destruct (String.eqb_spec k name) as [-> | Hne].
  - intros H; inversion H; auto.
  - auto.
Qed.

Lemma dict_get_in_keys (d : dict V) (name : string) (v : V) :
  dict_get d name = Some v -> In name (keys d).
Proof.
  intros H. apply dict_get_some_in in H.
  apply (in_map fst) in H. exact H.
Qed.

Lemma in_dict_get (d : dict V) (name : string) (v : V) :
  NoDup (keys d) -> In (name, v) d -> dict_get d name = Some v.
Proof.
  induction d as [| [k w] rest IH]; cbn; [tauto |].
  intros ND [E | I].
  - inversion E; subst. rewrite String.eqb_refl. reflexivity.
  - inversion ND as [| ? ? Hk ND']; subst.
    destruct (String.eqb_spec k name) as [-> | Hne].
    + exfalso. apply Hk. apply (in_map fst) in I. exact I.
    + auto.
Qed.

Lemma dict_set_fresh (d : dict V) (name : string) (v : V) :
  ~ In name (keys d) -> dict_set d name v = d ++ [(name, v)].
Proof.
  induction d as [| [k w] rest IH]; cbn; [reflexivity |].
  intros H. destruct (String.eqb_spec k name) as [-> | Hne]; [tauto |].
  rewrite IH by tauto. reflexivity.
Qed.

Lemma dict_get_set (d : dict V) (name name' : string) (v : V) :
  dict_get (dict_set d name v) name'
  = if String.eqb name name' then Some v else dict_get d name'.
Proof.
  induction d as [| [k w] rest IH]; cbn.
  - destruct (String.eqb name name'); reflexivity.
  - destruct (String.eqb_spec k name) as [-> | Hne]; cbn.
    + destruct (String.eqb name name'); reflexivity.
    + rewrite IH. destruct (String.eqb_spec k name') as [-> | Hne'].
      * destruct (String.eqb_spec name name'); [congruence | reflexivity].
      * reflexivity.
Qed.

Lemma keys_dict_set_fresh (d : dict V) (name : string) (v : V) :
  ~ In name (keys d) -> keys (dict_set d name v) = keys d ++ [name].
Proof.
  intros H. rewrite dict_set_fresh by assumption.
  unfold keys. rewrite map_app. reflexivity.
Qed.

Lemma dict_get_adjust (f : V -> V) (d : dict V) (name name' : string) :
  dict_get (scalable_srs.dict_adjust f d name) name'
  = if String.eqb name name' then option_map f (dict_get d name')
    else dict_get d name'.
Proof.
  induction d as [| [k w] rest IH]; cbn.
  - destruct (String.eqb name name'); reflexivity.
  - destruct (String.eqb_spec k name) as [-> | Hne]; cbn.
    + destruct (String.eqb name name'); reflexivity.
    + rewrite IH. destruct (String.eqb_spec k name') as [-> | Hne'].
      * destruct (String.eqb_spec name name'); [congruence | reflexivity].
      * reflexivity.
Qed.

Lemma keys_dict_adjust (f : V -> V) (d : dict V) (name : string) :
  keys (scalable_srs.dict_adjust f d name) = keys d.
Proof.
  induction d as [| [k w] rest IH]; cbn; [reflexivity |].
  destruct (String.eqb k name); cbn; [reflexivity |].
  f_equal. exact IH.
Qed.

(** A dictionary with unique keys is determined by its keys and its
    values. *)
Lemma dict_ext (d1 d2 : dict V) :
  NoDup (keys d1) -> keys d1 = keys d2 ->
  (forall name, dict_get d1 name = dict_get d2 name) -> d1 = d2.
Proof.
  revert d2; induction d1 as [| [k v] rest IH]; intros [| [k2 v2] rest2];
    cbn; intros ND HK HG; try discriminate; [reflexivity |].
  inversion HK; subst k2. inversion ND as [| ? ? Hk ND']; subst.
  pose proof (HG k) as Hh. cbn in Hh. rewrite String.eqb_refl in Hh.
  inversion Hh; subst v2. f_equal.
  apply IH; [assumption | assumption |].
  intros name. specialize (HG name). cbn in HG.
  destruct (String.eqb_spec k name) as [-> | Hne]; [| exact HG].
  transitivity (@None V).
  - apply dict_get_none. exact Hk.
  - symmetry. apply dict_get_none. unfold keys in *.
    match goal with E : map fst rest = map fst rest2 |- _ => rewrite <- E end.
    exact Hk.
Qed.

End Dicts.

(** ** The initial thresholds *)

Section InitialThresholds.

Import scalable_srs.

Lemma ratio_nonneg (size : number) (count : R) :
  0 < count -> 0 <= float size -> 0 <= float size / count.
Proof.
  intros Hc Hs. apply Rmult_le_pos; [assumption |].
  left. apply Rinv_0_lt_compat. assumption.
Qed.

Lemma initial_thresholds_loop_layout (items : dict number) (count delta : R) :
  0 < count -> 0 < delta <= 1 ->
  forall (offset : R) (acc : dict threshold),
    Forall (fun kv => 0 <= float (snd kv)) items ->
    NoDup (keys items) ->
    (forall k, In k (keys items) -> ~ In k (keys acc)) ->
    initial_thresholds_loop items count delta offset acc
    = ret (offset + Spec.total_q_high items count delta,
           acc ++ Spec.layout items count delta offset).
Proof.
  intros Hc Hd. induction items as [| [name size] rest IH];
    intros offset acc Hpos ND Hfresh.
  - cbn. rewrite app_nil_r, Rplus_0_r. reflexivity.
  - inversion Hpos as [| ? ? Hs Hpos']; subst. cbn in Hs.
    inversion ND as [| ? ? Hname ND']; subst.
    cbn [initial_thresholds_loop].
    rewrite fdiv_ok by lra. cbn [bind ret].
    rewrite compute_thresholds_defined
      by (try apply ratio_nonneg; assumption).
    cbn [bind ret fst snd].
    rewrite dict_set_fresh by (apply Hfresh; cbn; auto).
    rewrite IH; [| assumption | assumption |].
    + cbn [Spec.total_q_high Spec.layout fold_right snd].
      rewrite <- app_assoc. cbn [app].
      fold (Spec.total_q_high rest count delta).
      f_equal. f_equal. ring.
    + intros k Hk. unfold keys. rewrite map_app, in_app_iff. cbn.
      intros [H | [H | []]].
      * apply (Hfresh k); [cbn; auto | exact H].
      * subst k. apply Hname. exact Hk.
Qed.

(** C5, as amended: [_get_initial_thresholds] has no capacity check.  For a
    population [count > 0], [delta] in (0,1] and a well-formed
    configuration it returns one triple per set, whatever the sum of the
    waitlist cutoffs, which is the offset reached by the loop. *)
Theorem initial_thresholds_no_capacity_check (set_sizes : dict number)
  (count delta : R) :
  0 < count -> 0 < delta <= 1 -> Spec.well_formed set_sizes ->
  initial_thresholds_loop set_sizes count delta 0 []
  = ret (Spec.total_q_high set_sizes count delta,
         Spec.layout set_sizes count delta 0)
  /\ _get_initial_thresholds set_sizes count delta
     = ret (Spec.layout set_sizes count delta 0).
Proof.
  intros Hc Hd [ND Hpos].
  assert (E : initial_thresholds_loop set_sizes count delta 0 []
              = ret (Spec.total_q_high set_sizes count delta,
                     Spec.layout set_sizes count delta 0)).
  { rewrite initial_thresholds_loop_layout; auto.
    rewrite Rplus_0_l. reflexivity. }
  split; [exact E |].
  unfold _get_initial_thresholds. rewrite E. reflexivity.
Qed.

Lemma two_sets_well_formed : Spec.well_formed Examples.two_sets.
Proof.
  split.
  - cbn. repeat constructor; cbn; intuition discriminate.
  - repeat constructor; cbn; lra.
Qed.

Lemma initial_thresholds_no_capacity_check_witness :
  initial_thresholds_loop Examples.two_sets 2 (1 / 2) 0 []
  = ret (Spec.total_q_high Examples.two_sets 2 (1 / 2),
         Spec.layout Examples.two_sets 2 (1 / 2) 0)
  /\ _get_initial_thresholds Examples.two_sets 2 (1 / 2)
     = ret (Spec.layout Examples.two_sets 2 (1 / 2) 0).
Proof.
  apply initial_thresholds_no_capacity_check;
    [lra | lra | exact two_sets_well_formed].
Defined.

(** C5 fails as stated: for two sets of one record each out of two, with
    [delta = 1/2], the offsets add up to more than 1, and the thresholds
    are returned, the waitlist bound of the second set being past 1. *)
Lemma initial_thresholds_past_one :
  let ql := Spec.q_low (1 / 2) 2 (1 / 2) in
  let qh := Spec.q_high (1 / 2) 2 (1 / 2) in
  initial_thresholds_loop Examples.two_sets 2 (1 / 2) 0 []
  = ret (0 + (qh + (qh + 0)),
         [("A"%string, (0, 0 + ql, 0 + qh));
          ("B"%string, (0 + qh, 0 + qh + ql, 0 + qh + qh))])
  /\ _get_initial_thresholds Examples.two_sets 2 (1 / 2)
     = ret [("A"%string, (0, 0 + ql, 0 + qh));
            ("B"%string, (0 + qh, 0 + qh + ql, 0 + qh + qh))]
  /\ 1 < 0 + (qh + (qh + 0))
  /\ 1 < 0 + qh + qh.
Proof.
  intros ql qh.
  assert (E : initial_thresholds_loop Examples.two_sets 2 (1 / 2) 0 []
              = ret (0 + (qh + (qh + 0)),
                     [("A"%string, (0, 0 + ql, 0 + qh));
                      ("B"%string, (0 + qh, 0 + qh + ql, 0 + qh + qh))])).
  { rewrite initial_thresholds_loop_layout;
      [reflexivity | lra | lra | apply two_sets_well_formed
       | apply two_sets_well_formed | intros k _ []]. }
  assert (Hq : 1 / 2 < qh) by (apply q_high_gt_ratio; lra).
  split; [exact E |]. split.
  - unfold _get_initial_thresholds. rewrite E. reflexivity.
  - split; lra.
Qed.

End InitialThresholds.

(** ** The seed *)

Section Seed.

Import scalable_srs.

Context {G : Type} {rng_ops : PRNG G} {Row : Type}.

(** A seed that is not zero is the one used, whatever the clock says. *)
Lemma truthy_seed_is_used (now now' : R) (rdd : RDD Row)
  (set_sizes : dict number) (count : option number) (delta : R)
  (seed : number) (reproportion : bool) :
  truthy seed = true ->
  or_else (Some seed) (Float now) = seed
  /\ scalable_srs now rdd set_sizes count delta (Some seed) reproportion
     = scalable_srs now' rdd set_sizes count delta (Some seed) reproportion.
Proof.
  intros H. unfold scalable_srs, or_else. rewrite H. split; reflexivity.
Qed.

(** C9 at the seed 0: [seed or time.time()] takes the clock, so the
    seed used is [int(time.time())], as when no seed is given. *)
Theorem seed_zero_replaced_by_clock (now : R) (rdd : RDD Row)
  (set_sizes : dict number) (count : option number) (delta : R)
  (reproportion : bool) :
  int (or_else (Some (Int 0)) (Float now)) = trunc now
  /\ scalable_srs now rdd set_sizes count delta (Some (Int 0)) reproportion
     = scalable_srs now rdd set_sizes count delta None reproportion.
Proof. split; reflexivity. Qed.

End Seed.

(** ** Sorting and order statistics *)

Section OrderStatistics.

Lemma insert_sorted_perm (x : R) (l : list R) :
  Permutation (insert_sorted x l) (x :: l).
Proof.
  induction l as [| y rest IH]; cbn; [reflexivity |].
  destruct (Rle_dec x y); [reflexivity |].
  rewrite IH. apply perm_swap.
Qed.

Lemma sorted_perm (l : list R) : Permutation (sorted l) l.
Proof.
  induction l as [| x rest IH]; cbn; [reflexivity |].
  rewrite insert_sorted_perm. constructor. exact IH.
Qed.

Lemma insert_sorted_ascending (x : R) (l : list R) :
  ascending l -> ascending (insert_sorted x l).
Proof.
  induction 1 as [| y rest Hy Hrest IH]; cbn.
  - constructor; [intros ? [] | constructor].
  - destruct (Rle_dec x y) as [Hle | Hgt].
    + constructor; [| constructor; assumption].
      intros z [<- | Hz]; [assumption |]. specialize (Hy z Hz). lra.
    + constructor; [| assumption].
      intros z Hz.
      apply (Permutation_in _ (insert_sorted_perm x rest)) in Hz.
      destruct Hz as [<- | Hz]; [lra | auto].
Qed.

Lemma sorted_ascending (l : list R) : ascending (sorted l).
Proof.
  induction l as [| x rest IH]; cbn; [constructor |].
  apply insert_sorted_ascending. exact IH.
Qed.

Lemma count_below_perm (c : R) (l l' : list R) :
  Permutation l l' -> Spec.count_below c l = Spec.count_below c l'.
Proof.
  unfold Spec.count_below.
  induction 1 as [| x l l' _ IH | x y l | l l' l'' _ IH1 _ IH2]; cbn.
  - reflexivity.
  - destruct (Rltb x c); cbn; congruence.
  - destruct (Rltb x c), (Rltb y c); reflexivity.
  - congruence.
Qed.

Lemma count_below_none (c : R) (l : list R) :
  (forall y, In y l -> c <= y) -> Spec.count_below c l = 0%nat.
Proof.
  unfold Spec.count_below. induction l as [| x rest IH]; cbn; [reflexivity |].
  intros H. replace (Rltb x c) with false.
  - apply IH. auto.
  - symmetry. apply Rltb_false. apply H. auto.
Qed.

(** In an ascending list without repetition, exactly [i] elements are
    below the one at index [i]. *)
Lemma count_below_nth (s : list R) :
  ascending s -> NoDup s ->
  forall i, (i < length s)%nat -> Spec.count_below (nth i s 0) s = i.
Proof.
  induction 1 as [| x rest Hx Hrest IH]; intros ND i Hi; cbn in Hi; [lia |].
  inversion ND as [| ? ? Hnotin ND']; subst.
  destruct i as [| i]; cbn [nth].
  - apply count_below_none. intros y [<- | Hy]; [lra | auto].
  - unfold Spec.count_below. cbn [filter].
    assert (Hin : In (nth i rest 0) rest) by (apply nth_In; lia).
    assert (Hlt : x < nth i rest 0).
    { destruct (Hx _ Hin) as [H | H]; [exact H |].
      exfalso. apply Hnotin. rewrite H. exact Hin. }
    replace (Rltb x (nth i rest 0)) with true
      by (symmetry; apply Rltb_true; exact Hlt).
    cbn [length]. f_equal. apply IH; [assumption | lia].
Qed.

Lemma last_item_firstn (s : list R) (r : nat) :
  (r < length s)%nat -> last_item (firstn (S r) s) = ret (nth r s 0).
Proof.
  intros Hr. unfold last_item.
  assert (E : firstn (S r) s = firstn r s ++ [nth r s 0]).
  { revert r Hr. induction s as [| x rest IH]; intros r Hr; cbn in Hr; [lia |].
    destruct r as [| r]; [reflexivity |].
    cbn [firstn nth app]. cbn [firstn] in IH. rewrite IH by lia. reflexivity. }
  rewrite E, rev_app_distr. reflexivity.
Qed.

Lemma sorted_length (l : list R) : length (sorted l) = length l.
Proof. apply Permutation_length, sorted_perm. Qed.

Lemma sorted_NoDup (l : list R) : NoDup l -> NoDup (sorted l).
Proof.
  intros H. eapply Permutation_NoDup; [| exact H].
  symmetry. apply sorted_perm.
Qed.

(** The element of rank [r + 1] of a list without repetition. *)
Lemma nsmallest_last (l : list R) (r : nat) :
  (r < length l)%nat -> NoDup l ->
  let c := nth r (sorted l) 0 in
  last_item (nsmallest (S r) l) = ret c
  /\ In c l
  /\ Spec.count_below c l = r.
Proof.
  intros Hr ND c. split; [| split].
  - unfold nsmallest. apply last_item_firstn. rewrite sorted_length. exact Hr.
  - apply (Permutation_in _ (sorted_perm l)).
    apply nth_In. rewrite sorted_length. exact Hr.
  - rewrite <- (count_below_perm c _ _ (sorted_perm l)).
    apply count_below_nth.
    + apply sorted_ascending.
    + apply sorted_NoDup. exact ND.
    + rewrite sorted_length. exact Hr.
Qed.

End OrderStatistics.

(** ** The final thresholds *)

Section FinalThresholds.

Import scalable_srs.

Variables (counts : dict tally) (thresholds : dict threshold).

Lemma final_thresholds_loop_shape (items : dict number) :
  forall (acc final : dict final_threshold),
    NoDup (keys items) ->
    (forall k, In k (keys items) -> ~ In k (keys acc)) ->
    final_thresholds_loop items counts thresholds acc = ret final ->
    exists fin,
      final = acc ++ fin
      /\ Forall2 (refined_entry counts thresholds) items fin.
Proof.
  induction items as [| [name size] rest IH]; intros acc final ND Hfresh H.
  - cbn in H. inversion H. exists []. rewrite app_nil_r. split; constructor.
  - inversion ND as [| ? ? Hname ND']; subst.
    cbn [final_thresholds_loop] in H. unfold dict_lookup in H.
    destruct (dict_get counts name) as [t |] eqn:Et; [| discriminate].
    cbn [bind ret] in H.
    destruct (dict_get thresholds name) as [th |] eqn:Eth; [| discriminate].
    cbn [bind ret] in H.
    destruct (refine size t th) as [e | ft] eqn:Er; [discriminate |].
    cbn [bind ret] in H.
    rewrite dict_set_fresh in H by (apply Hfresh; cbn; auto).
    apply IH in H; [| assumption |].
    + destruct H as [fin [-> Hfin]]. exists ((name, ft) :: fin).
      rewrite <- app_assoc. split; [reflexivity |].
      constructor; [| exact Hfin].
      split; [reflexivity |]. exists t, th. cbn. auto.
    + intros k Hk. unfold keys. rewrite map_app, in_app_iff. cbn.
      intros [Hin | [Hin | []]].
      * apply (Hfresh k); [cbn; auto | exact Hin].
      * subst k. apply Hname. exact Hk.
Qed.

Lemma final_thresholds_loop_total (items : dict number) :
  forall (acc : dict final_threshold),
    (forall name size, In (name, size) items ->
       exists t th ft,
         dict_get counts name = Some t
         /\ dict_get thresholds name = Some th
         /\ refine size t th = ret ft) ->
    exists final, final_thresholds_loop items counts thresholds acc = ret final.
Proof.
  induction items as [| [name size] rest IH]; intros acc H.
  - exists acc. reflexivity.
  - destruct (H name size) as [t [th [ft [Et [Eth Er]]]]]; [cbn; auto |].
    cbn [final_thresholds_loop]. unfold dict_lookup.
    rewrite Et, Eth. cbn [bind ret]. rewrite Er. cbn [bind ret].
    apply IH. intros n s Hin. apply H. cbn; auto.
Qed.

Lemma refined_entry_lookup (items : dict number) (fin : dict final_threshold) :
  Forall2 (refined_entry counts thresholds) items fin ->
  forall name size,
    dict_get items name = Some size ->
    exists ft t th,
      dict_get fin name = Some ft
      /\ dict_get counts name = Some t
      /\ dict_get thresholds name = Some th
      /\ refine size t th = ret ft.
Proof.
  induction 1 as [| [k s] [k' ft] items fin [Hk [t [th [Et [Eth Er]]]]] _ IH];
    intros name size Hget; cbn in *; [discriminate |].
  subst k'. destruct (String.eqb_spec k name) as [-> | Hne].
  - inversion Hget; subst. exists ft, t, th. auto.
  - apply IH. exact Hget.
Qed.

End FinalThresholds.

Section Refine.

Import scalable_srs.

Lemma INR_Z (n : nat) : INR n = IZR (Z.of_nat n).
Proof. apply INR_IZR_INZ. Qed.

Lemma refine_enough (size : number) (count : Z) (waitlist : list R)
  (low accept cutoff : R) :
  float (required_of size count) <= 0 ->
  refine size (count, waitlist) (low, accept, cutoff) = ret (low, accept).
Proof.
  intros H. unfold refine. cbn [fst snd].
  replace (Rleb _ 0) with true by (symmetry; apply Rleb_true; exact H).
  reflexivity.
Qed.

Lemma refine_short (size : number) (count : Z) (waitlist : list R)
  (low accept cutoff : R) :
  0 < float (required_of size count) ->
  INR (length waitlist) <= float (required_of size count) ->
  refine size (count, waitlist) (low, accept, cutoff) = ret (low, cutoff).
Proof.
  intros H0 H. unfold refine. cbn [fst snd].
  replace (Rleb _ 0) with false by (symmetry; apply Rleb_false; exact H0).
  replace (Rleb _ _) with true by (symmetry; apply Rleb_true; exact H).
  reflexivity.
Qed.

Lemma refine_mid (size count : Z) (waitlist : list R) (low accept cutoff : R) :
  (0 < size - count < Z.of_nat (length waitlist))%Z ->
  refine (Int size) (count, waitlist) (low, accept, cutoff)
  = ret (low, nth (Z.to_nat (size - count)) (sorted waitlist) 0).
Proof.
  intros [H0 H1]. unfold refine. cbn [fst snd required_of float].
  replace (Rleb (IZR (size - count)) 0) with false
    by (symmetry; apply Rleb_false; apply IZR_lt; exact H0).
  replace (Rleb _ _) with false
    by (symmetry; apply Rleb_false; rewrite INR_Z; apply IZR_lt; exact H1).
  cbn [mid_waitlist_cutoff].
  replace (Z.to_nat (size - count + 1)) with (S (Z.to_nat (size - count))) by lia.
  unfold nsmallest. rewrite last_item_firstn by (rewrite sorted_length; lia).
  reflexivity.
Qed.

(** With an integer size no branch of the loop body raises. *)
Lemma refine_int_total (size : Z) (t : tally) (th : threshold) :
  exists ft, refine (Int size) t th = ret ft.
Proof.
  destruct t as [count waitlist]. destruct th as [[low accept] cutoff].
  destruct (Rle_dec (float (required_of (Int size) count)) 0) as [H | H].
  - eexists. apply refine_enough. exact H.
  - destruct (Rle_dec (INR (length waitlist))
                (float (required_of (Int size) count))) as [H' | H'].
    + eexists. apply refine_short; [lra | exact H'].
    + eexists. apply refine_mid. cbn [required_of float] in *.
      rewrite INR_Z in H'. split.
      * apply lt_IZR. lra.
      * apply lt_IZR. lra.
Qed.

(** X20: the mid-waitlist branch at integer sizes.  When every set has
    an integer size, a tally and a threshold, [_get_final_thresholds]
    returns; for each set with [0 < required < len(waitlist)] and
    pairwise-distinct waitlisted keys, the cutoff it sets is the key of
    rank [required + 1] of the waitlist, and exactly [required]
    waitlisted keys are strictly below it. *)
Theorem final_cutoff_is_order_statistic (counts : dict tally)
  (set_sizes : dict number) (thresholds : dict threshold) :
  NoDup (keys set_sizes) ->
  (forall name size, In (name, size) set_sizes ->
     (exists z, size = Int z)
     /\ In name (keys counts) /\ In name (keys thresholds)) ->
  exists final,
    _get_final_thresholds counts set_sizes thresholds = ret final
    /\ forall name size count waitlist low accept cutoff,
         dict_get set_sizes name = Some (Int size) ->
         dict_get counts name = Some (count, waitlist) ->
         dict_get thresholds name = Some (low, accept, cutoff) ->
         (0 < size - count < Z.of_nat (length waitlist))%Z ->
         NoDup waitlist ->
         let required := Z.to_nat (size - count) in
         let c := nth required (sorted waitlist) 0 in
         dict_get final name = Some (low, c)
         /\ In c waitlist
         /\ Spec.count_below c waitlist = required.
Proof.
  intros ND Hall.
  destruct (final_thresholds_loop_total counts thresholds set_sizes []) as [final Hfinal].
  { intros name size Hin. destruct (Hall name size Hin) as [[z ->] [Hc Ht]].
    destruct (dict_get counts name) as [t |] eqn:Et;
      [| apply dict_get_none in Et; contradiction].
    destruct (dict_get thresholds name) as [th |] eqn:Eth;
      [| apply dict_get_none in Eth; contradiction].
    destruct (refine_int_total z t th) as [ft Hft].
    exists t, th, ft. auto. }
  exists final. split; [exact Hfinal |].
  intros name size count waitlist low accept cutoff Hs Hc Ht Hreq NDw required c.
  apply final_thresholds_loop_shape in Hfinal; [| exact ND | intros ? _ []].
  destruct Hfinal as [fin [-> Hfin]]. cbn [app].
  destruct (refined_entry_lookup _ _ _ _ Hfin name (Int size) Hs)
    as [ft [t [th [Hft [Et [Eth Er]]]]]].
  rewrite Hc in Et. inversion Et; subst t.
  rewrite Ht in Eth. inversion Eth; subst th.
  rewrite refine_mid in Er by exact Hreq. inversion Er; subst ft.
  split; [exact Hft |].
  assert (Hr : (required < length waitlist)%nat) by (unfold required; lia).
  destruct (nsmallest_last waitlist required Hr NDw) as [_ [Hin Hcount]].
  split; assumption.
Qed.

End Refine.

Lemma final_cutoff_is_order_statistic_witness :
  let waitlist := [3 / 10; 1 / 10; 1 / 5] in
  let c := nth 2 (sorted waitlist) 0 in
  exists final,
    scalable_srs._get_final_thresholds Examples.one_set_counts Examples.one_set
      Examples.one_set_thresholds = ret final
    /\ dict_get final "A"%string = Some (0, c)
    /\ In c waitlist
    /\ Spec.count_below c waitlist = 2%nat.
Proof.
  intros waitlist c.
  destruct (final_cutoff_is_order_statistic Examples.one_set_counts
              Examples.one_set Examples.one_set_thresholds) as [final [H1 H2]].
  - cbn. repeat constructor. intros [].
  - intros name size [E | []]. inversion E; subst.
    split; [exists 3%Z; reflexivity |]. cbn. auto.
  - exists final. split; [exact H1 |].
    apply (H2 "A"%string 3%Z 1%Z waitlist 0 (1 / 20) (1 / 2));
      try reflexivity.
    + cbn. lia.
    + unfold waitlist. repeat constructor; cbn; intros H;
        repeat (destruct H as [H | H]; try lra); exact H.
Defined.

(** ** The merge of the tallies *)

Section Merge.

Import scalable_srs.

Lemma in_keys_true (l : list string) (k : string) :
  Spec.in_keys l k = true <-> In k l.
Proof.
  unfold Spec.in_keys. rewrite existsb_exists. split.
  - intros [x [Hin Heq]]. apply String.eqb_eq in Heq. subst. exact Hin.
  - intros H. exists k. split; [exact H | apply String.eqb_refl].
Qed.

Lemma in_keys_false (l : list string) (k : string) :
  Spec.in_keys l k = false <-> ~ In k l.
Proof.
  rewrite <- in_keys_true. destruct (Spec.in_keys l k); split; intros; auto;
    try discriminate. exfalso; auto.
Qed.

Lemma filter_twice {A : Type} (f g : A -> bool) (l : list A) :
  filter f (filter g l) = filter (fun x => g x && f x) l.
Proof.
  induction l as [| x rest IH]; cbn; [reflexivity |].
  destruct (g x); cbn; [| exact IH].
  destruct (f x); rewrite IH; reflexivity.
Qed.

Lemma reducer_get (b : dict tally) :
  NoDup (keys b) ->
  forall (a : dict tally) (name : string),
    dict_get (_dict_addition_reducer a b) name
    = Spec.merged (dict_get a name) (dict_get b name).
Proof.
  induction b as [| [k v] rest IH]; intros ND a name.
  - cbn. destruct (dict_get a name); reflexivity.
  - inversion ND as [| ? ? Hk ND']; subst.
    apply dict_get_none in Hk. cbn [_dict_addition_reducer dict_get].
    destruct (dict_get a k) as [av |] eqn:Ea.
    + rewrite IH by assumption. rewrite dict_get_adjust.
      destruct (String.eqb_spec k name) as [-> | Hne]; [| reflexivity].
      rewrite Ea, Hk. reflexivity.
    + rewrite IH by assumption. rewrite dict_get_set.
      destruct (String.eqb_spec k name) as [-> | Hne]; [| reflexivity].
      rewrite Ea, Hk. reflexivity.
Qed.

Lemma reducer_keys (b : dict tally) :
  NoDup (keys b) ->
  forall (a : dict tally),
    keys (_dict_addition_reducer a b)
    = keys a ++ filter (fun k => negb (Spec.in_keys (keys a) k)) (keys b).
Proof.
  induction b as [| [k v] rest IH]; intros ND a.
  - cbn. rewrite app_nil_r. reflexivity.
  - inversion ND as [| ? ? Hk ND']; subst.
    cbn [_dict_addition_reducer].
    change (keys ((k, v) :: rest)) with (k :: keys rest). cbn [filter].
    destruct (dict_get a k) as [av |] eqn:Ea.
    + rewrite IH by assumption. rewrite keys_dict_adjust.
      apply dict_get_in_keys in Ea. apply in_keys_true in Ea.
      rewrite Ea. reflexivity.
    + rewrite IH by assumption.
      apply dict_get_none in Ea.
      rewrite keys_dict_set_fresh by assumption.
      apply in_keys_false in Ea. rewrite Ea. cbn [negb].
      rewrite <- app_assoc. cbn [app]. f_equal. f_equal.
      apply filter_ext_in. intros x Hx. f_equal.
      unfold Spec.in_keys. rewrite existsb_app. cbn.
      destruct (String.eqb_spec x k) as [-> | Hne]; [contradiction |].
      rewrite !orb_false_r. reflexivity.
Qed.

Lemma reducer_NoDup (a b : dict tally) :
  NoDup (keys a) -> NoDup (keys b) -> NoDup (keys (_dict_addition_reducer a b)).
Proof.
  intros Ha Hb. rewrite reducer_keys by assumption.
  apply NoDup_app; [assumption | apply NoDup_filter; assumption |].
  intros k Hk Hin. apply filter_In in Hin. destruct Hin as [_ Hin].
  apply in_keys_true in Hk. rewrite Hk in Hin. discriminate.
Qed.

Lemma merged_assoc (x y z : option tally) :
  Spec.merged (Spec.merged x y) z = Spec.merged x (Spec.merged y z).
Proof.
  destruct x as [[cx wx] |], y as [[cy wy] |], z as [[cz wz] |]; cbn;
    try reflexivity.
  unfold add_tally; cbn. rewrite Z.add_assoc, app_assoc. reflexivity.
Qed.

Lemma merged_comm (x y : option tally) :
  Spec.same_tally (Spec.merged x y) (Spec.merged y x).
Proof.
  destruct x as [[cx wx] |], y as [[cy wy] |]; cbn; auto.
  split; [lia | apply Permutation_app_comm].
Qed.

Lemma reducer_assoc (a b c : dict tally) :
  NoDup (keys a) -> NoDup (keys b) -> NoDup (keys c) ->
  _dict_addition_reducer (_dict_addition_reducer a b) c
  = _dict_addition_reducer a (_dict_addition_reducer b c).
Proof.
  intros Ha Hb Hc.
  pose proof (reducer_NoDup b c Hb Hc) as Hbc.
  apply dict_ext.
  - apply reducer_NoDup; [apply reducer_NoDup |]; assumption.
  - rewrite (reducer_keys c Hc), (reducer_keys b Hb a).
    rewrite (reducer_keys _ Hbc a), (reducer_keys c Hc b).
    rewrite filter_app, <- app_assoc. f_equal. f_equal.
    rewrite filter_twice.
    apply filter_ext. intros k.
    unfold Spec.in_keys at 1. rewrite existsb_app.
    fold (Spec.in_keys (keys a) k).
    destruct (Spec.in_keys (keys a) k) eqn:Eka; cbn; [now rewrite andb_false_r |].
    rewrite andb_true_r. f_equal.
    destruct (Spec.in_keys (keys b) k) eqn:Ekb.
    + apply existsb_exists. exists k. split; [| apply String.eqb_refl].
      apply filter_In. split; [apply in_keys_true; exact Ekb |].
      rewrite Eka. reflexivity.
    + apply not_true_is_false. intros H. apply existsb_exists in H.
      destruct H as [x [Hx Hxk]]. apply String.eqb_eq in Hxk. subst x.
      apply filter_In in Hx. destruct Hx as [Hx _].
      apply in_keys_true in Hx. congruence.
  - intros name.
    rewrite (reducer_get c Hc), (reducer_get b Hb).
    rewrite (reducer_get _ Hbc), (reducer_get c Hc).
    apply merged_assoc.
Qed.

(** C8, as amended: on dictionaries, the merge holds for each name the sum
    of the counts and the concatenation of the waitlists; it is
    associative; and it is commutative up to the order of the waitlisted
    keys. *)
Theorem dict_addition_reducer_laws (a b c : dict tally) :
  NoDup (keys a) -> NoDup (keys b) -> NoDup (keys c) ->
  (forall name,
      dict_get (_dict_addition_reducer a b) name
      = Spec.merged (dict_get a name) (dict_get b name))
  /\ _dict_addition_reducer (_dict_addition_reducer a b) c
     = _dict_addition_reducer a (_dict_addition_reducer b c)
  /\ (forall name,
        Spec.same_tally (dict_get (_dict_addition_reducer a b) name)
                        (dict_get (_dict_addition_reducer b a) name)).
Proof.
  intros Ha Hb Hc. split; [| split].
  - intros name. apply reducer_get. assumption.
  - apply reducer_assoc; assumption.
  - intros name. rewrite (reducer_get b Hb), (reducer_get a Ha).
    apply merged_comm.
Qed.

Lemma tally_a_NoDup : NoDup (keys Examples.tally_a).
Proof. cbn. repeat constructor. intros []. Qed.

Lemma tally_b_NoDup : NoDup (keys Examples.tally_b).
Proof. cbn. repeat constructor. intros []. Qed.

Lemma dict_addition_reducer_laws_witness :
  (forall name,
      dict_get (_dict_addition_reducer Examples.tally_a Examples.tally_b) name
      = Spec.merged (dict_get Examples.tally_a name)
                    (dict_get Examples.tally_b name))
  /\ _dict_addition_reducer
       (_dict_addition_reducer Examples.tally_a Examples.tally_b)
       Examples.tally_a
     = _dict_addition_reducer Examples.tally_a
         (_dict_addition_reducer Examples.tally_b Examples.tally_a)
  /\ (forall name,
        Spec.same_tally
          (dict_get (_dict_addition_reducer Examples.tally_a Examples.tally_b) name)
          (dict_get (_dict_addition_reducer Examples.tally_b Examples.tally_a) name)).
Proof.
  apply dict_addition_reducer_laws;
    [exact tally_a_NoDup | exact tally_b_NoDup | exact tally_a_NoDup].
Defined.

(** C8 fails as stated: the merge is not commutative, the waitlists being
    concatenated in the order of the arguments. *)
Lemma dict_addition_reducer_not_commutative :
  _dict_addition_reducer Examples.tally_a Examples.tally_b
  = [("A"%string, (0%Z, [1 / 10; 1 / 5]))]
  /\ _dict_addition_reducer Examples.tally_b Examples.tally_a
     = [("A"%string, (0%Z, [1 / 5; 1 / 10]))]
  /\ _dict_addition_reducer Examples.tally_a Examples.tally_b
     <> _dict_addition_reducer Examples.tally_b Examples.tally_a.
Proof.
  split; [reflexivity |]. split; [reflexivity |].
  cbn. intros H. inversion H. lra.
Qed.

End Merge.

(** ** Disjoint intervals *)

Section Disjointness.

Import scalable_srs.

Variables (count delta : R).
Hypothesis count_pos : 0 < count.
Hypothesis delta_range : 0 < delta <= 1.

Lemma layout_lower_bound (items : dict number) :
  Forall (fun kv => 0 <= float (snd kv)) items ->
  forall offset name th,
    In (name, th) (Spec.layout items count delta offset) ->
    offset <= fst (fst th).
Proof.
  induction 1 as [| [k size] rest Hs _ IH]; intros offset name th Hin;
    cbn in Hin; [contradiction |].
  destruct Hin as [E | Hin].
  - inversion E; subst. cbn. lra.
  - apply IH in Hin. cbn in Hs.
    pose proof (q_high_nonneg (float size / count) count delta
                  (ratio_nonneg size count count_pos Hs) count_pos delta_range).
    lra.
Qed.

Lemma layout_ordered (items : dict number) :
  Forall (fun kv => 0 <= float (snd kv)) items ->
  forall offset i j n1 t1 n2 t2,
    (i < j)%nat ->
    nth_error (Spec.layout items count delta offset) i = Some (n1, t1) ->
    nth_error (Spec.layout items count delta offset) j = Some (n2, t2) ->
    snd t1 <= fst (fst t2).
Proof.
  induction 1 as [| [k size] rest Hs Hrest IH];
    intros offset i j n1 t1 n2 t2 Hij H1 H2.
  - destruct i; discriminate.
  - destruct j as [| j]; [lia |]. cbn in H2.
    destruct i as [| i].
    + cbn in H1. inversion H1; subst. cbn [snd].
      apply nth_error_In in H2.
      apply (layout_lower_bound rest Hrest) in H2. exact H2.
    + cbn in H1. eapply (IH _ i j n1 t1 n2 t2); [lia | exact H1 | exact H2].
Qed.

End Disjointness.

Section AtMostOneSet.

Import scalable_srs.

Context {G : Type} {rng_ops : PRNG G} {Row : Type}.

Lemma emit_at_most_one (key : R) (row : Row) (thresholds : dict final_threshold) :
  (length (emit key row thresholds) <= 1)%nat.
Proof.
  induction thresholds as [| [name [low high]] rest IH]; cbn; [lia |].
  destruct (Rltb key low); [exact IH |].
  destruct (Rltb key high); [cbn; lia | exact IH].
Qed.

Lemma map_rows_length (rows : list Row) :
  forall (rng : G) (thresholds : dict final_threshold),
    (length (map_rows rng rows thresholds) <= length rows)%nat.
Proof.
  induction rows as [| row rest IH]; intros rng thresholds; cbn; [lia |].
  destruct (random rng) as [key rng'].
  rewrite length_app.
  pose proof (emit_at_most_one key row thresholds).
  specialize (IH rng' thresholds). lia.
Qed.

End AtMostOneSet.

(** C2: for a population [count > 0], [delta] in (0,1] and a well-formed
    configuration, the intervals made by [_get_initial_thresholds] are
    pairwise disjoint, each ending where the next ones begin; and for
    each record [_threshold_mapper] yields at most one pair, whatever the
    final thresholds. *)
Theorem each_record_in_at_most_one_set :
  (forall (set_sizes : dict number) (count delta : R),
      0 < count -> 0 < delta <= 1 -> Spec.well_formed set_sizes ->
      exists thresholds,
        scalable_srs._get_initial_thresholds set_sizes count delta
        = ret thresholds
        /\ forall i j n1 t1 n2 t2,
             (i < j)%nat ->
             nth_error thresholds i = Some (n1, t1) ->
             nth_error thresholds j = Some (n2, t2) ->
             snd t1 <= fst (fst t2)
             /\ forall key, ~ (Spec.claimed t1 key /\ Spec.claimed t2 key))
  /\
  (forall (G : Type) (rng_ops : PRNG G) (Row : Type) (key : R) (row : Row)
          (idx seed : Z) (rows : list Row)
          (thresholds : dict scalable_srs.final_threshold),
      (length (scalable_srs.emit key row thresholds) <= 1)%nat
      /\ (length (scalable_srs._threshold_mapper idx rows thresholds seed)
          <= length rows)%nat).
Proof.
  split.
  - intros set_sizes count delta Hc Hd Hwf.
    exists (Spec.layout set_sizes count delta 0). split.
    + unfold scalable_srs._get_initial_thresholds.
      rewrite initial_thresholds_loop_layout;
        [reflexivity | assumption | assumption | apply Hwf | apply Hwf
         | intros k _ []].
    + intros i j n1 t1 n2 t2 Hij H1 H2.
      assert (Hle : snd t1 <= fst (fst t2)).
      { apply (layout_ordered count delta Hc Hd set_sizes (proj2 Hwf)
                 0 i j n1 t1 n2 t2 Hij H1 H2). }
      split; [exact Hle |].
      unfold Spec.claimed. intros key [[_ Hk1] [Hk2 _]]. lra.
  - intros G rng_ops Row key row idx seed rows thresholds. split.
    + apply emit_at_most_one.
    + unfold scalable_srs._threshold_mapper. apply map_rows_length.
Qed.

Lemma each_record_in_at_most_one_set_witness :
  exists thresholds,
    scalable_srs._get_initial_thresholds Examples.two_sets 2 (1 / 2)
    = ret thresholds
    /\ forall i j n1 t1 n2 t2,
         (i < j)%nat ->
         nth_error thresholds i = Some (n1, t1) ->
         nth_error thresholds j = Some (n2, t2) ->
         snd t1 <= fst (fst t2)
         /\ forall key, ~ (Spec.claimed t1 key /\ Spec.claimed t2 key).
Proof.
  apply (proj1 each_record_in_at_most_one_set);
    [lra | lra | exact two_sets_well_formed].
Defined.

(** ** The two-set variant *)

Section TrainTest.

Import scalable_srs srs_sampling.

Lemma in_band_true (lo hi key : R) :
  Spec.in_band lo hi key = true <-> lo <= key < hi.
Proof.
  unfold Spec.in_band. rewrite andb_true_iff, negb_true_iff.
  rewrite Rltb_false, Rltb_true. tauto.
Qed.

Lemma ascending_app_inv (l1 l2 : list R) (x : R) :
  ascending (l1 ++ x :: l2) ->
  (forall y, In y l1 -> y <= x) /\ (forall y, In y l2 -> x <= y).
Proof.
  induction l1 as [| a l1 IH]; cbn; intros H.
  - inversion H; subst. split; [intros ? [] | assumption].
  - inversion H as [| ? ? Ha Hrest]; subst.
    destruct (IH Hrest) as [H1 H2]. split; [| exact H2].
    intros y [<- | Hy]; [| auto].
    apply Ha. apply in_or_app. right. left. reflexivity.
Qed.

(** No element of a list lies strictly between the last two of its
    [n] smallest. *)
Lemma nsmallest_last_two_adjacent (n : nat) (l : list R) (lo up : R) :
  last_item (nsmallest n l) = ret up ->
  second_last_item (nsmallest n l) = ret lo ->
  In lo l /\ In up l /\ forall k, In k l -> ~ (lo < k < up).
Proof.
  unfold last_item, second_last_item, nsmallest. intros Hup Hlo.
  pose proof (firstn_skipn n (sorted l)) as Hsplit.
  destruct (rev (firstn n (sorted l))) as [| x [| y pre]] eqn:E;
    try discriminate.
  inversion Hup; subst x. inversion Hlo; subst y.
  assert (Es : firstn n (sorted l) = rev pre ++ [lo; up]).
  { rewrite <- (rev_involutive (firstn n (sorted l))), E. cbn.
    rewrite <- app_assoc. reflexivity. }
  rewrite Es in Hsplit.
  assert (Hin : forall k, In k l <-> In k (sorted l)).
  { intros k. split; apply Permutation_in;
      [symmetry |]; apply sorted_perm. }
  pose proof (sorted_ascending l) as Hasc. rewrite <- Hsplit in Hasc.
  split; [| split].
  - apply Hin. rewrite <- Hsplit. rewrite !in_app_iff. cbn. auto.
  - apply Hin. rewrite <- Hsplit. rewrite !in_app_iff. cbn. auto.
  - intros k Hk [Hlk Hku]. apply Hin in Hk. rewrite <- Hsplit in Hk.
    rewrite <- app_assoc in Hasc, Hk. cbn [app] in Hasc, Hk.
    destruct (ascending_app_inv _ _ _ Hasc) as [Hbefore Hafter].
    apply in_app_or in Hk. destruct Hk as [Hk | [Hk | Hk]].
    + specialize (Hbefore k Hk). lra.
    + lra.
    + change (rev pre ++ lo :: up :: skipn n (sorted l))
        with (rev pre ++ [lo] ++ up :: skipn n (sorted l)) in Hasc.
      rewrite app_assoc in Hasc.
      destruct (ascending_app_inv _ _ _ Hasc) as [_ Hafter'].
      destruct Hk as [Hk | Hk]; [lra |].
      specialize (Hafter' k Hk). lra.
Qed.

(** The thresholds drawn from a waitlist that holds every generated key
    of its band: no generated key is strictly between the rejection
    threshold and the acceptance threshold. *)
Lemma acceptance_rejection_adjacent (num : Z) (waitlist : list R)
  (q1 q2 up lo : R) :
  compute_acceptance_rejection_thresholds num waitlist q1 q2 = ret (up, lo) ->
  (forall w, In w waitlist -> q2 <= w < q1) ->
  forall k, (q2 <= k < q1 -> In k waitlist) -> ~ (lo < k < up).
Proof.
  unfold compute_acceptance_rejection_thresholds. intros H Hband k Hk.
  destruct (Z.of_nat (length waitlist) <? num)%Z.
  - inversion H; subst. lra.
  - destruct (0 <? num)%Z.
    + destruct (last_item _) as [e | a] eqn:Ea; [discriminate |].
      cbn [bind ret] in H.
      destruct (second_last_item _) as [e | r] eqn:Er; [discriminate |].
      cbn [bind ret] in H. inversion H; subst a r.
      destruct (nsmallest_last_two_adjacent _ _ _ _ Ea Er)
        as [Hlo [Hup Hnone]].
      intros Hbetween. apply (Hnone k); [| exact Hbetween].
      apply Hk. pose proof (Hband lo Hlo). pose proof (Hband up Hup). lra.
    + inversion H; subst. lra.
Qed.

Context {G : Type} {rng_ops : PRNG G} {Row : Type}.

Lemma select_one_waitlist (key q1 q2 tq1 tq2 : R) (acc : accumulators) :
  train_waitlist (snd (select_one key q1 q2 tq1 tq2 acc))
  = train_waitlist acc ++ filter (Spec.in_band q2 q1) [key].
Proof.
  unfold select_one, Spec.in_band. cbn [filter].
  destruct (Rltb key q2), (Rltb key q1), (Rltb key tq2), (Rltb key tq1);
    cbn; rewrite ?app_nil_r; reflexivity.
Qed.

Lemma select_rows_waitlist (q1 q2 tq1 tq2 : R) (rows : list Row) :
  forall (rng : G) (acc : accumulators),
    train_waitlist (snd (select_rows rng rows q1 q2 tq1 tq2 acc))
    = train_waitlist acc
      ++ filter (Spec.in_band q2 q1) (Spec.partition_keys rng (length rows)).
Proof.
  induction rows as [| row rest IH]; intros rng acc; cbn.
  - rewrite app_nil_r. reflexivity.
  - destruct (random rng) as [key rng'].
    pose proof (select_one_waitlist key q1 q2 tq1 tq2 acc) as H1.
    destruct (select_one key q1 q2 tq1 tq2 acc) as [out acc1].
    specialize (IH rng' acc1).
    destruct (select_rows rng' rest q1 q2 tq1 tq2 acc1) as [outs acc2].
    cbn [snd] in *. rewrite IH, H1. rewrite <- app_assoc.
    change (key :: Spec.partition_keys rng' (length rest))
      with ([key] ++ Spec.partition_keys rng' (length rest)).
    rewrite filter_app. reflexivity.
Qed.

Lemma select_partitions_waitlist (q1 q2 tq1 tq2 : R) (seed : Z)
  (input_logs : RDD Row) :
  forall (idx : Z) (acc : accumulators),
    train_waitlist
      (snd (select_partitions idx input_logs q1 q2 tq1 tq2 seed acc))
    = train_waitlist acc
      ++ filter (Spec.in_band q2 q1)
           (Spec.rdd_keys seed idx (map (@length Row) input_logs)).
Proof.
  induction input_logs as [| rows rest IH]; intros idx acc; cbn.
  - rewrite app_nil_r. reflexivity.
  - unfold select_train_test_ad_events.
    pose proof (select_rows_waitlist q1 q2 tq1 tq2 rows (Random (seed + idx)) acc)
      as H1.
    destruct (select_rows (Random (seed + idx)) rows q1 q2 tq1 tq2 acc)
      as [out acc1].
    specialize (IH (idx + 1)%Z acc1).
    destruct (select_partitions (idx + 1) rest q1 q2 tq1 tq2 seed acc1)
      as [outs acc2].
    cbn [snd] in *. rewrite IH, H1, filter_app, <- app_assoc. reflexivity.
Qed.

(** The key of the record at position [pos] of partition [idx] is one of
    the keys of the collection. *)
Lemma record_key_in_rdd_keys (seed : Z) (input_logs : RDD Row) :
  forall (start : Z) (idx : nat) (rows : list Row) (pos : nat) (key : R),
    nth_error input_logs idx = Some rows ->
    nth_error (Spec.partition_keys (Random (seed + (start + Z.of_nat idx)))
                 (length rows)) pos = Some key ->
    In key (Spec.rdd_keys seed start (map (@length Row) input_logs)).
Proof.
  induction input_logs as [| rows0 rest IH];
    intros start idx rows pos key Hrows Hkey.
  - destruct idx; discriminate.
  - cbn [map Spec.rdd_keys]. apply in_or_app.
    destruct idx as [| idx].
    + left. cbn in Hrows. inversion Hrows; subst rows0.
      rewrite Z.add_0_r in Hkey. eapply nth_error_In. exact Hkey.
    + right. cbn in Hrows. apply (IH (start + 1)%Z idx rows pos key Hrows).
      replace (start + 1 + Z.of_nat idx)%Z with (start + Z.of_nat (S idx))%Z
        by lia.
      exact Hkey.
Qed.

(** No record passes both output filters. *)
Lemma no_key_passes_both (seed : Z) (input_logs : RDD Row)
  (train_size test_size : Z) (th : output_thresholds) :
  driver_thresholds seed input_logs train_size test_size = ret th ->
  forall (idx : nat) (rows : list Row) (pos : nat) (key : R),
    nth_error input_logs idx = Some rows ->
    nth_error (Spec.partition_keys (Random (seed + Z.of_nat idx))
                 (length rows)) pos = Some key ->
    ~ (passes key NegInf (train_upper_threshold th) = true
       /\ passes key (Fin (test_lower_threshold th))
            (test_upper_threshold th) = true).
Proof.
  unfold driver_thresholds. intros H idx rows pos key Hrows Hkey.
  destruct (compute_selection_waitlist_thresholds _ _) as [e | [q1 q2]];
    [discriminate |].
  cbn [bind ret fst snd] in H.
  destruct (compute_selection_waitlist_thresholds _ _) as [e | [tq1 tq2]];
    [discriminate |].
  cbn [bind ret fst snd] in H.
  match type of H with
  | context [select_partitions ?i ?l ?a ?b ?c ?d ?s ?acc] =>
      pose proof (select_partitions_waitlist a b c d s l i acc) as Hwl;
      destruct (select_partitions i l a b c d s acc) as [test_waitlist acc']
  end.
  cbn [fst snd train_waitlist app] in *.
  destruct (compute_acceptance_rejection_thresholds _ (train_waitlist acc') _ _)
    as [e | [up lo]] eqn:Etrain; [discriminate |].
  cbn [bind ret fst snd] in H.
  destruct (compute_acceptance_rejection_thresholds _ test_waitlist _ _)
    as [e | [tup tlo]]; [discriminate |].
  cbn [bind ret fst snd] in H. inversion H; subst th.
  cbn [train_upper_threshold test_lower_threshold test_upper_threshold].
  unfold passes, above. rewrite !andb_true_iff, !Rltb_true.
  intros [[Hup _] [_ Hlo]].
  apply (acceptance_rejection_adjacent _ _ _ _ _ _ Etrain) with (k := key).
  - intros w Hw. rewrite Hwl in Hw. apply filter_In in Hw.
    apply in_band_true. apply Hw.
  - intros Hband. rewrite Hwl. apply filter_In. split.
    + apply (record_key_in_rdd_keys seed input_logs 0 idx rows pos key Hrows).
      exact Hkey.
    + apply in_band_true. exact Hband.
  - lra.
Qed.

End TrainTest.

Section TrainTestOutputs.

Import scalable_srs srs_sampling.

(** On a population of at most 6 records every key of [0,1) is
    waitlisted: the selection cutoff is 0 and the waitlist cutoff 1. *)
Lemma selection_thresholds_small (pop sample : R) :
  0 < pop <= 6 -> 0 <= sample <= pop ->
  compute_selection_waitlist_thresholds pop sample = ret (1, 0).
Proof.
  intros Hpop Hs. unfold compute_selection_waitlist_thresholds.
  rewrite !fdiv_ok by lra. cbn [bind ret].
  set (t1 := 20 / (3 * pop)). set (t2 := 10 / pop). set (sp := sample / pop).
  assert (Ht1 : t1 * (3 * pop) = 20) by (unfold t1; field; lra).
  assert (Ht2 : t2 * pop = 10) by (unfold t2; field; lra).
  assert (Hsp : sp * pop = sample) by (unfold sp; field; lra).
  assert (H1 : 1 <= t1) by nra.
  assert (H2 : 1 <= t2) by nra.
  assert (H3 : 0 <= sp <= 1) by (split; nra).
  rewrite !math_sqrt_ok by nra. cbn [bind ret].
  assert (Hs1 : sp + t1 <= sqrt (t1 * t1 + 3 * t1 * sp)).
  { rewrite <- (sqrt_square (sp + t1)) at 1 by lra.
    apply sqrt_le_1; nra. }
  pose proof (sqrt_pos (t2 * t2 + 2 * t2 * sp)) as Hs2.
  unfold Py.max, Py.min.
  destruct (Rlt_dec 0 _); [lra |].
  destruct (Rlt_dec _ 1); [lra |].
  reflexivity.
Qed.

Context {G : Type} {rng_ops : PRNG G} {Row : Type}.

Lemma mapPartitionsWithIndex_ext {A B : Type} (f g : Z -> list A -> list B)
  (rdd : RDD A) :
  (forall idx x, f idx x = g idx x) ->
  mapPartitionsWithIndex f rdd = mapPartitionsWithIndex g rdd.
Proof.
  intros Hfg. unfold mapPartitionsWithIndex. generalize 0%Z.
  induction rdd as [| x rest IH]; intros i; cbn; [reflexivity |].
  rewrite Hfg, IH. reflexivity.
Qed.

(** The rows kept by [filter_ad_events] are those whose key passes. *)
Lemma filter_rows_by_keys (lower : bound) (upper : R) (rows : list Row) :
  forall rng : G,
    filter_rows rng rows lower upper
    = map snd
        (filter (fun kr => passes (fst kr) lower upper)
           (combine (Spec.partition_keys rng (length rows)) rows)).
Proof.
  induction rows as [| row rest IH]; intros rng; cbn; [reflexivity |].
  destruct (random rng) as [key rng']. cbn.
  destruct (passes key lower upper); cbn; rewrite IH; reflexivity.
Qed.

(** C10, as amended: both sets are decided against the same key, and in
    the first pass a key below both selection cutoffs is counted for
    train and for test; but when [sample_train_test_split] returns, its
    outputs are the rows whose keys pass the two filters, and no
    record's key passes both. *)
Theorem train_and_test_outputs_disjoint (now : R) (train_size test_size : Z)
  (input_logs : RDD Row) (train_out test_out : RDD Row) :
  sample_train_test_split now train_size test_size input_logs
  = ret (train_out, test_out) ->
  (forall key q1 q2 tq1 tq2 acc,
      key < q2 -> key < tq2 ->
      let acc' := snd (select_one key q1 q2 tq1 tq2 acc) in
      train_accepted_items acc' = (train_accepted_items acc + 1)%Z
      /\ test_accepted_items acc' = (test_accepted_items acc + 1)%Z)
  /\ exists th,
       driver_thresholds (round now) input_logs train_size test_size = ret th
       /\ train_out
          = mapPartitionsWithIndex
              (fun idx x =>
                 map snd
                   (filter
                      (fun kr => passes (fst kr) NegInf (train_upper_threshold th))
                      (combine
                         (Spec.partition_keys (Random (round now + idx))
                            (length x)) x)))
              input_logs
       /\ test_out
          = mapPartitionsWithIndex
              (fun idx x =>
                 map snd
                   (filter
                      (fun kr => passes (fst kr) (Fin (test_lower_threshold th))
                                   (test_upper_threshold th))
                      (combine
                         (Spec.partition_keys (Random (round now + idx))
                            (length x)) x)))
              input_logs
       /\ forall (idx : nat) (rows : list Row) (pos : nat) (key : R),
            nth_error input_logs idx = Some rows ->
            nth_error (Spec.partition_keys (Random (round now + Z.of_nat idx))
                         (length rows)) pos = Some key ->
            ~ (passes key NegInf (train_upper_threshold th) = true
               /\ passes key (Fin (test_lower_threshold th))
                    (test_upper_threshold th) = true).
Proof.
  intros H. split.
  - intros key q1 q2 tq1 tq2 acc Hq2 Htq2. unfold select_one.
    apply Rltb_true in Hq2, Htq2. rewrite Hq2, Htq2. cbn. auto.
  - unfold sample_train_test_split in H.
    destruct (driver_thresholds (round now) input_logs train_size test_size)
      as [e | th] eqn:Eth; [discriminate |].
    cbn [bind ret] in H. inversion H. exists th.
    split; [reflexivity |]. split; [| split].
    + apply mapPartitionsWithIndex_ext. intros i x.
      unfold filter_ad_events. apply filter_rows_by_keys.
    + apply mapPartitionsWithIndex_ext. intros i x.
      unfold filter_ad_events. apply filter_rows_by_keys.
    + apply (no_key_passes_both _ _ _ _ _ Eth).
Qed.

End TrainTestOutputs.

(** C10 fails as stated: there are no input, seed and thresholds computed
    by the driver for which the key of a record passes both the train
    filter and the test filter. *)
Lemma no_record_passes_both_filters :
  ~ exists (G : Type) (rng_ops : PRNG G) (Row : Type) (seed : Z)
      (input_logs : scalable_srs.RDD Row) (train_size test_size : Z)
      (th : srs_sampling.output_thresholds)
      (idx : nat) (rows : list Row) (pos : nat) (key : R),
      srs_sampling.driver_thresholds seed input_logs train_size test_size
      = ret th
      /\ nth_error input_logs idx = Some rows
      /\ nth_error (Spec.partition_keys (Random (seed + Z.of_nat idx))
                      (length rows)) pos = Some key
      /\ srs_sampling.passes key srs_sampling.NegInf
           (srs_sampling.train_upper_threshold th) = true
      /\ srs_sampling.passes key
           (srs_sampling.Fin (srs_sampling.test_lower_threshold th))
           (srs_sampling.test_upper_threshold th) = true.
Proof.
  intros [G [rng_ops [Row [seed [input_logs [train_size [test_size [th
          [idx [rows [pos [key [Hth [Hrows [Hkey [H1 H2]]]]]]]]]]]]]]]].
  apply (no_key_passes_both seed input_logs train_size test_size th Hth
           idx rows pos key Hrows Hkey).
  split; assumption.
Qed.

(** ** Evaluation on concrete inputs *)

Ltac decide_Rltb :=
  repeat first
    [ match goal with
      | |- context [Rltb ?x ?y] =>
          replace (Rltb x y) with true by (symmetry; apply Rltb_true; lra)
      end
    | match goal with
      | |- context [Rltb ?x ?y] =>
          replace (Rltb x y) with false by (symmetry; apply Rltb_false; lra)
      end ].

Lemma round_IZR (z : Z) : srs_sampling.round (IZR z) = z.
Proof.
  unfold srs_sampling.round. rewrite Int_part_IZR.
  destruct (Rlt_dec _ _); [reflexivity | lra].
Qed.

Lemma sorted_quarters : sorted [1 / 4; 3 / 4] = [1 / 4; 3 / 4].
Proof.
  unfold sorted. cbn [fold_right insert_sorted].
  destruct (Rle_dec (1 / 4) (3 / 4)); [reflexivity | lra].
Qed.

Lemma driver_thresholds_quarters :
  @srs_sampling.driver_thresholds _ (Examples.table_rng Examples.quarters) nat
    0 Examples.two_records 1 1
  = ret {| srs_sampling.train_upper_threshold := 3 / 4;
           srs_sampling.test_lower_threshold := 1 / 4;
           srs_sampling.test_upper_threshold := 3 / 4 |}.
Proof.
  unfold srs_sampling.driver_thresholds.
  change (scalable_srs.rdd_count Examples.two_records) with 2%Z.
  change (srs_sampling.resized 1 1 2) with (1%Z, 1%Z).
  cbn [fst snd Z.add Pos.add].
  rewrite !selection_thresholds_small by lra.
  cbn [bind ret fst snd].
  unfold Examples.two_records, srs_sampling.select_partitions,
    srs_sampling.select_train_test_ad_events, srs_sampling.select_rows.
  cbn [random Random Examples.table_rng Examples.quarters fst snd Z.add].
  unfold srs_sampling.select_one.
  cbn [srs_sampling.train_waitlist srs_sampling.train_accepted_items
       srs_sampling.test_accepted_items].
  decide_Rltb.
  cbn [srs_sampling.train_waitlist srs_sampling.train_accepted_items
       srs_sampling.test_accepted_items fst snd app Z.sub Z.add Z.opp].
  decide_Rltb.
  cbn [srs_sampling.train_waitlist srs_sampling.train_accepted_items
       srs_sampling.test_accepted_items fst snd app].
  unfold srs_sampling.compute_acceptance_rejection_thresholds.
  cbn [length Z.of_nat Z.ltb Z.compare Pos.of_succ_nat Pos.succ Pos.compare
       Pos.compare_cont Z.sub Z.add Z.opp Z.pos_sub Pos.add Z.to_nat
       Pos.to_nat Pos.iter_op Init.Nat.add].
  unfold nsmallest. rewrite sorted_quarters.
  cbn [firstn last_item second_last_item rev app bind ret fst snd].
  reflexivity.
Qed.

Lemma sample_train_test_split_quarters :
  @srs_sampling.sample_train_test_split _ (Examples.table_rng Examples.quarters)
    nat 0 1 1 Examples.two_records
  = ret ([[1%nat]], [[]]).
Proof.
  unfold srs_sampling.sample_train_test_split.
  rewrite (round_IZR 0). rewrite driver_thresholds_quarters.
  cbn [bind ret srs_sampling.train_upper_threshold
       srs_sampling.test_lower_threshold srs_sampling.test_upper_threshold].
  unfold Examples.two_records, scalable_srs.mapPartitionsWithIndex,
    scalable_srs.mapPartitionsWithIndex_from, srs_sampling.filter_ad_events,
    srs_sampling.filter_rows.
  cbn [random Random Examples.table_rng Examples.quarters fst snd Z.add].
  unfold srs_sampling.passes, srs_sampling.above.
  decide_Rltb. reflexivity.
Qed.

Lemma train_and_test_outputs_disjoint_witness :
  let rng := Examples.table_rng Examples.quarters in
  @srs_sampling.sample_train_test_split _ rng nat 0 1 1 Examples.two_records
  = ret ([[1%nat]], [[]])
  /\ exists th,
       @srs_sampling.driver_thresholds _ rng nat (srs_sampling.round 0)
         Examples.two_records 1 1 = ret th
       /\ forall (idx : nat) (rows : list nat) (pos : nat) (key : R),
            nth_error Examples.two_records idx = Some rows ->
            nth_error
              (@Spec.partition_keys _ rng
                 (@Random _ rng (srs_sampling.round 0 + Z.of_nat idx))
                 (length rows)) pos = Some key ->
            ~ (srs_sampling.passes key srs_sampling.NegInf
                 (srs_sampling.train_upper_threshold th) = true
               /\ srs_sampling.passes key
                    (srs_sampling.Fin (srs_sampling.test_lower_threshold th))
                    (srs_sampling.test_upper_threshold th) = true).
Proof.
  intros rng. split; [exact sample_train_test_split_quarters |].
  destruct (@train_and_test_outputs_disjoint _ rng nat 0 1 1
              Examples.two_records [[1%nat]] [[]]
              sample_train_test_split_quarters)
    as [_ [th [Hth [_ [_ Hnone]]]]].
  exists th. split; [exact Hth | exact Hnone].
Defined.

(** ** The first pass *)

Section FirstPass.

Import scalable_srs.

(** The effect of one key on the tally of one set. *)
Lemma classify_keys (key : R) (thresholds : dict threshold) :
  forall values : dict tally, keys (classify key thresholds values) = keys values.
Proof.
  induction thresholds as [| [name [[low accept] waitlist]] rest IH];
    intros values; cbn [classify]; [reflexivity |].
  destruct (Rltb key low); [apply IH |].
  destruct (Rltb key accept); [rewrite IH; apply keys_dict_adjust |].
  destruct (Rltb key waitlist); [rewrite IH; apply keys_dict_adjust |].
  apply IH.
Qed.

Lemma tally_of_snoc (th : threshold) (l : list R) (key : R) :
  fst (fst th) <= snd (fst th) ->
  Spec.tally_of th (l ++ [key]) = Spec.tally_step th key (Spec.tally_of th l).
Proof.
  destruct th as [[low accept] waitlist]. cbn [fst snd]. intros Hle.
  unfold Spec.tally_step, Spec.tally_of, Spec.count_band. cbn [fst snd].
  rewrite !filter_app, !length_app. cbn [filter]. unfold Spec.in_band.
  destruct (Rltb key low) eqn:E1.
  - apply Rltb_true in E1.
    replace (Rltb key accept) with true by (symmetry; apply Rltb_true; lra).
    cbn. rewrite Nat.add_0_r, app_nil_r. reflexivity.
  - destruct (Rltb key accept) eqn:E2; cbn.
    + rewrite app_nil_r. unfold count_one. cbn. f_equal. lia.
    + destruct (Rltb key waitlist); cbn.
      * rewrite Nat.add_0_r. reflexivity.
      * rewrite Nat.add_0_r, app_nil_r. reflexivity.
Qed.

Lemma classify_get (key : R) (thresholds : dict threshold) :
  NoDup (keys thresholds) ->
  forall (values : dict tally) (name : string),
    dict_get (classify key thresholds values) name
    = match dict_get thresholds name with
      | Some th => option_map (Spec.tally_step th key) (dict_get values name)
      | None => dict_get values name
      end.
Proof.
  induction thresholds as [| [n [[low accept] waitlist]] rest IH];
    intros ND values name; [reflexivity |].
  inversion ND as [| ? ? Hn ND']; subst.
  cbn [classify dict_get].
  destruct (String.eqb_spec n name) as [-> | Hne].
  - apply dict_get_none in Hn. unfold Spec.tally_step. cbn [fst snd].
    destruct (Rltb key low).
    + rewrite IH, Hn by assumption. destruct (dict_get values name); reflexivity.
    + destruct (Rltb key accept).
      * rewrite IH, Hn by assumption. rewrite dict_get_adjust, String.eqb_refl.
        reflexivity.
      * destruct (Rltb key waitlist).
        -- rewrite IH, Hn by assumption.
           rewrite dict_get_adjust, String.eqb_refl. reflexivity.
        -- rewrite IH, Hn by assumption.
           destruct (dict_get values name); reflexivity.
  - apply String.eqb_neq in Hne.
    destruct (Rltb key low); [apply IH; assumption |].
    destruct (Rltb key accept).
    + rewrite IH by assumption. rewrite dict_get_adjust, Hne. reflexivity.
    + destruct (Rltb key waitlist).
      * rewrite IH by assumption. rewrite dict_get_adjust, Hne. reflexivity.
      * apply IH; assumption.
Qed.

Section OnePartition.

Context {G : Type} {rng_ops : PRNG G} {Row : Type}.

Variable thresholds : dict threshold.
Hypothesis names_unique : NoDup (keys thresholds).
Hypothesis accept_after_low :
  forall name th, dict_get thresholds name = Some th ->
    fst (fst th) <= snd (fst th).

Lemma classify_tallies (key : R) (l : list R) (values : dict tally) :
  Spec.tallies_after thresholds l values ->
  Spec.tallies_after thresholds (l ++ [key]) (classify key thresholds values).
Proof.
  intros [Hk Hv]. split.
  - rewrite classify_keys. exact Hk.
  - intros name th Hth. rewrite classify_get by assumption.
    rewrite Hth, (Hv name th Hth). cbn [option_map].
    rewrite tally_of_snoc by (apply (accept_after_low name); assumption).
    reflexivity.
Qed.

Lemma accumulate_tallies (rows : list Row) :
  forall (rng : G) (l : list R) (values : dict tally),
    Spec.tallies_after thresholds l values ->
    Spec.tallies_after thresholds
      (l ++ Spec.partition_keys rng (length rows))
      (accumulate rng rows thresholds values).
Proof.
  induction rows as [| row rest IH]; intros rng l values H; cbn.
  - rewrite app_nil_r. exact H.
  - destruct (random rng) as [key rng'].
    change (key :: Spec.partition_keys rng' (length rest))
      with ([key] ++ Spec.partition_keys rng' (length rest)).
    rewrite app_assoc. apply IH. apply classify_tallies. exact H.
Qed.

Lemma zero_tallies_shape (names : list string) :
  forall values : dict tally,
    NoDup names ->
    (forall k, In k names -> ~ In k (keys values)) ->
    zero_tallies names values
    = values ++ map (fun name => (name, (0%Z, []))) names.
Proof.
  induction names as [| name rest IH]; intros values ND Hfresh; cbn.
  - rewrite app_nil_r. reflexivity.
  - inversion ND as [| ? ? Hn ND']; subst.
    rewrite dict_set_fresh by (apply Hfresh; cbn; auto).
    rewrite IH; [rewrite <- app_assoc; reflexivity | assumption |].
    intros k Hk. unfold keys. rewrite map_app, in_app_iff. cbn.
    intros [H | [H | []]].
    + apply (Hfresh k); [cbn; auto | exact H].
    + subst k. contradiction.
Qed.

Lemma zero_tallies_after :
  Spec.tallies_after thresholds [] (zero_tallies (keys thresholds) []).
Proof.
  rewrite zero_tallies_shape; [| assumption | intros k _ []].
  cbn [app]. split.
  - unfold keys. rewrite map_map. cbn. apply map_id.
  - intros name th Hth. apply in_dict_get.
    + unfold keys. rewrite map_map. cbn. rewrite map_id. exact names_unique.
    + apply dict_get_in_keys in Hth. apply in_map_iff.
      exists name. split; [reflexivity | exact Hth].
Qed.

Lemma reducer_tallies (l1 l2 : list R) (a b : dict tally) :
  Spec.tallies_after thresholds l1 a ->
  Spec.tallies_after thresholds l2 b ->
  Spec.tallies_after thresholds (l1 ++ l2) (_dict_addition_reducer a b).
Proof.
  intros [Hka Hva] [Hkb Hvb].
  assert (NDb : NoDup (keys b)) by (rewrite Hkb; exact names_unique).
  split.
  - rewrite reducer_keys by assumption. rewrite Hka, Hkb.
    rewrite (filter_ext_in _ (fun _ => false)).
    + rewrite filter_false, app_nil_r. reflexivity.
    + intros k Hk. apply negb_false_iff. apply in_keys_true. exact Hk.
  - intros name th Hth. rewrite reducer_get by assumption.
    rewrite (Hva name th Hth), (Hvb name th Hth). cbn [Spec.merged].
    unfold add_tally, Spec.tally_of, Spec.count_band. cbn [fst snd].
    rewrite !filter_app, length_app. f_equal. f_equal. lia.
Qed.

Lemma fold_reducer_tallies (seed : Z) (rdd : RDD Row) :
  forall (idx : Z) (l : list R) (a : dict tally),
    Spec.tallies_after thresholds l a ->
    Spec.tallies_after thresholds
      (l ++ Spec.rdd_keys seed idx (map (@length Row) rdd))
      (fold_left _dict_addition_reducer
         (concat
            (mapPartitionsWithIndex_from
               (fun idx rows => _threshold_accumulator idx rows thresholds seed)
               idx rdd))
         a).
Proof.
  induction rdd as [| rows rest IH]; intros idx l a Ha; cbn.
  - rewrite app_nil_r. exact Ha.
  - rewrite app_assoc. apply IH.
    apply reducer_tallies; [exact Ha |].
    apply (accumulate_tallies rows (Random (seed + idx)) []).
    exact zero_tallies_after.
Qed.

(** The global tallies: the first pass and its reduction. *)
Lemma first_pass_tallies (seed : Z) (rdd : RDD Row) :
  rdd <> [] ->
  exists counts,
    reduce _dict_addition_reducer
      (mapPartitionsWithIndex
         (fun idx rows => _threshold_accumulator idx rows thresholds seed) rdd)
    = ret counts
    /\ Spec.tallies_after thresholds
         (Spec.rdd_keys seed 0 (map (@length Row) rdd)) counts.
Proof.
  destruct rdd as [| rows rest]; [congruence |]. intros _.
  unfold reduce, mapPartitionsWithIndex. cbn.
  eexists. split; [reflexivity |].
  apply fold_reducer_tallies.
  apply (accumulate_tallies rows (Random (seed + 0)) []).
  exact zero_tallies_after.
Qed.

End OnePartition.

End FirstPass.

(** ** The second pass *)

Section SecondPass.

Import scalable_srs.

Context {G : Type} {rng_ops : PRNG G} {Row : Type}.

Lemma emit_names (key : R) (row : Row) (fin : dict final_threshold) :
  forall p, In p (emit key row fin) -> In (fst p) (keys fin).
Proof.
  induction fin as [| [n [low high]] rest IH]; intros p Hp; cbn in *;
    [contradiction |].
  destruct (Rltb key low); [right; apply IH; exact Hp |].
  destruct (Rltb key high).
  - destruct Hp as [<- | []]. left. reflexivity.
  - right. apply IH. exact Hp.
Qed.

Lemma emit_other_name (key : R) (row : Row) (fin : dict final_threshold)
  (name : string) :
  ~ In name (keys fin) -> filter (Spec.carries name) (emit key row fin) = [].
Proof.
  intros Hn.
  rewrite (filter_ext_in _ (fun _ => false)); [apply filter_false |].
  intros p Hp. apply emit_names in Hp. unfold Spec.carries.
  apply String.eqb_neq. intros E. rewrite E in Hp. contradiction.
Qed.

(** A record is emitted under the name of a set exactly when its key is
    in the final interval of the set. *)
Lemma emit_count (key : R) (row : Row) (fin : dict final_threshold) :
  NoDup (keys fin) -> separated fin ->
  forall name low high,
    dict_get fin name = Some (low, high) ->
    length (filter (Spec.carries name) (emit key row fin))
    = if Spec.in_band low high key then 1%nat else 0%nat.
Proof.
  intros ND Hsep. induction Hsep as [| n l h rest Hafter Hsep IH];
    intros name low high Hget; [discriminate |].
  inversion ND as [| ? ? Hn ND']; subst.
  cbn [dict_get] in Hget. cbn [emit]. unfold Spec.in_band.
  destruct (String.eqb_spec n name) as [-> | Hne].
  - inversion Hget; subst l h.
    destruct (Rltb key low); cbn [negb andb].
    + rewrite emit_other_name by assumption. reflexivity.
    + destruct (Rltb key high); cbn [negb andb].
      * cbn. unfold Spec.carries. cbn. rewrite String.eqb_refl. reflexivity.
      * rewrite emit_other_name by assumption. reflexivity.
  - specialize (IH ND' name low high Hget). unfold Spec.in_band in IH.
    destruct (Rltb key l) eqn:El; [exact IH |].
    destruct (Rltb key h) eqn:Eh; [| exact IH].
    cbn. unfold Spec.carries. cbn.
    apply String.eqb_neq in Hne. rewrite Hne. cbn.
    apply dict_get_some_in in Hget. apply Hafter in Hget. cbn in Hget.
    apply Rltb_true in Eh.
    replace (Rltb key low) with true by (symmetry; apply Rltb_true; lra).
    reflexivity.
Qed.

Variable fin : dict final_threshold.
Hypothesis names_unique : NoDup (keys fin).
Hypothesis intervals_separated : separated fin.

Lemma map_rows_count (name : string) (low high : R) (rows : list Row) :
  dict_get fin name = Some (low, high) ->
  forall rng : G,
    length (filter (Spec.carries name) (map_rows rng rows fin))
    = Spec.count_band low high (Spec.partition_keys rng (length rows)).
Proof.
  intros Hget. induction rows as [| row rest IH]; intros rng; cbn;
    [reflexivity |].
  destruct (random rng) as [key rng'].
  rewrite filter_app, length_app, IH.
  rewrite (emit_count key row fin names_unique intervals_separated
             name low high Hget).
  unfold Spec.count_band. cbn [filter].
  destruct (Spec.in_band low high key); reflexivity.
Qed.

(** The number of pairs of a set in the output of the second pass. *)
Lemma second_pass_count (name : string) (low high : R) (seed : Z)
  (rdd : RDD Row) :
  dict_get fin name = Some (low, high) ->
  forall idx : Z,
    length
      (filter (Spec.carries name)
         (concat
            (mapPartitionsWithIndex_from
               (fun idx rows => _threshold_mapper idx rows fin seed) idx rdd)))
    = Spec.count_band low high
        (Spec.rdd_keys seed idx (map (@length Row) rdd)).
Proof.
  intros Hget. induction rdd as [| rows rest IH]; intros idx; cbn;
    [reflexivity |].
  rewrite filter_app, length_app, IH.
  unfold _threshold_mapper. rewrite (map_rows_count name low high rows Hget).
  unfold Spec.count_band. rewrite filter_app, length_app. reflexivity.
Qed.

End SecondPass.

(** ** Exact sizes *)

Section ExactSizes.

Import scalable_srs.

Lemma count_band_split (lo mid hi : R) (l : list R) :
  lo <= mid <= hi ->
  Spec.count_band lo hi l
  = (Spec.count_band lo mid l + Spec.count_band mid hi l)%nat.
Proof.
  intros H. unfold Spec.count_band, Spec.in_band.
  induction l as [| k rest IH]; cbn; [reflexivity |].
  destruct (Rltb k lo) eqn:E1; cbn.
  - apply Rltb_true in E1.
    replace (Rltb k mid) with true by (symmetry; apply Rltb_true; lra).
    cbn. exact IH.
  - destruct (Rltb k mid) eqn:E2; cbn.
    + apply Rltb_true in E2.
      replace (Rltb k hi) with true by (symmetry; apply Rltb_true; lra).
      cbn. rewrite IH. reflexivity.
    + destruct (Rltb k hi); cbn; rewrite IH; lia.
Qed.

Lemma count_below_waitlist (accept cutoff c : R) (l : list R) :
  c <= cutoff ->
  Spec.count_below c (filter (Spec.in_band accept cutoff) l)
  = Spec.count_band accept c l.
Proof.
  intros H. unfold Spec.count_below, Spec.count_band.
  rewrite filter_twice. f_equal. apply filter_ext. intros k.
  unfold Spec.in_band.
  destruct (Rltb k accept); cbn; [reflexivity |].
  destruct (Rltb k c) eqn:E; [| apply andb_false_r].
  apply Rltb_true in E.
  replace (Rltb k cutoff) with true by (symmetry; apply Rltb_true; lra).
  reflexivity.
Qed.

(** The final interval of a set holds exactly as many keys as its target
    size, when the first pass brackets the target and no two keys are
    equal. *)
Lemma refine_exact (z : Z) (low accept cutoff : R) (l : list R)
  (ft : final_threshold) :
  low <= accept <= cutoff ->
  NoDup l ->
  (Z.of_nat (Spec.count_band low accept l) <= z
   <= Z.of_nat (Spec.count_band low cutoff l))%Z ->
  refine (Int z) (Spec.tally_of (low, accept, cutoff) l) (low, accept, cutoff)
  = ret ft ->
  fst ft = low
  /\ snd ft <= cutoff
  /\ Spec.count_band low (snd ft) l = Z.to_nat z.
Proof.
  intros Hord ND Hz. unfold Spec.tally_of. cbn [fst snd].
  set (c := Z.of_nat (Spec.count_band low accept l)) in *.
  set (w := filter (Spec.in_band accept cutoff) l).
  assert (Hw : length w = Spec.count_band accept cutoff l) by reflexivity.
  rewrite (count_band_split low accept cutoff l Hord) in Hz.
  intros H.
  destruct (Rle_dec (float (required_of (Int z) c)) 0) as [H0 | H0].
  - rewrite refine_enough in H by exact H0. inversion H; subst ft.
    cbn [fst snd]. cbn [required_of float] in H0. apply le_IZR in H0.
    split; [reflexivity |]. split; [lra |]. unfold c in *. lia.
  - destruct (Rle_dec (INR (length w)) (float (required_of (Int z) c)))
      as [H1 | H1].
    + rewrite refine_short in H by (try lra; exact H1).
      inversion H; subst ft. cbn [fst snd].
      cbn [required_of float] in H1. rewrite INR_Z in H1. apply le_IZR in H1.
      split; [reflexivity |]. split; [lra |].
      rewrite (count_band_split low accept cutoff l Hord). unfold c in *. lia.
    + cbn [required_of float] in H0, H1. rewrite INR_Z in H1.
      assert (Hmid : (0 < z - c < Z.of_nat (length w))%Z).
      { split; apply lt_IZR; lra. }
      rewrite refine_mid in H by exact Hmid. inversion H; subst ft.
      cbn [fst snd].
      assert (Hr : (Z.to_nat (z - c) < length w)%nat) by lia.
      assert (NDw : NoDup w) by (apply NoDup_filter; exact ND).
      destruct (nsmallest_last w (Z.to_nat (z - c)) Hr NDw)
        as [_ [Hin Hcount]].
      set (cth := nth (Z.to_nat (z - c)) (sorted w) 0) in *.
      apply filter_In in Hin. destruct Hin as [_ Hin].
      apply in_band_true in Hin.
      split; [reflexivity |]. split; [lra |].
      rewrite (count_band_split low accept cth l) by lra.
      unfold w in Hcount. rewrite count_below_waitlist in Hcount by lra.
      rewrite Hcount. unfold c. lia.
Qed.

(** *** The layout of the intervals *)

Variables (count delta : R).
Hypothesis count_pos : 0 < count.
Hypothesis delta_range : 0 < delta <= 1.

Lemma layout_keys (items : dict number) :
  forall offset, keys (Spec.layout items count delta offset) = keys items.
Proof.
  induction items as [| [name size] rest IH]; intros offset; cbn;
    [reflexivity |].
  f_equal. apply IH.
Qed.

Lemma layout_entry (items : dict number) :
  Forall (fun kv => 0 <= float (snd kv) <= count) items ->
  forall offset name th,
    In (name, th) (Spec.layout items count delta offset) ->
    fst (fst th) <= snd (fst th) <= snd th.
Proof.
  induction 1 as [| [k size] rest Hs _ IH]; intros offset name th Hin;
    cbn in Hin; [contradiction |].
  destruct Hin as [E | Hin]; [| eapply IH; exact Hin].
  inversion E; subst. cbn [fst snd] in *.
  assert (Hp : 0 <= float size / count <= 1).
  { split.
    - apply ratio_nonneg; [assumption | lra].
    - apply (Rmult_le_reg_r count); [assumption |].
      unfold Rdiv. rewrite Rmult_assoc, Rinv_l by lra. lra. }
  pose proof (q_low_nonneg (float size / count) count delta).
  pose proof (q_low_le_ratio (float size / count) count delta
                (proj1 Hp) count_pos delta_range).
  pose proof (q_high_ge_ratio (float size / count) count delta
                Hp count_pos delta_range).
  lra.
Qed.

End ExactSizes.

Section ListFacts.

Lemma Forall2_nth_error_r {A B : Type} (P : A -> B -> Prop)
  (l1 : list A) (l2 : list B) :
  Forall2 P l1 l2 ->
  forall i y, nth_error l2 i = Some y ->
    exists x, nth_error l1 i = Some x /\ P x y.
Proof.
  induction 1 as [| x y l1 l2 Hxy _ IH]; intros i z Hi.
  - destruct i; discriminate.
  - destruct i as [| i]; cbn in *.
    + inversion Hi; subst. exists x. auto.
    + apply IH. exact Hi.
Qed.

Lemma separated_of_nth (fin : dict scalable_srs.final_threshold) :
  (forall i j n1 ft1 n2 ft2,
      (i < j)%nat ->
      nth_error fin i = Some (n1, ft1) ->
      nth_error fin j = Some (n2, ft2) ->
      snd ft1 <= fst ft2) ->
  separated fin.
Proof.
  induction fin as [| [n [low high]] rest IH]; intros H; constructor.
  - intros n' ft Hin. apply In_nth_error in Hin. destruct Hin as [j Hj].
    apply (H 0%nat (S j) n (low, high) n' ft); [lia | reflexivity | exact Hj].
  - apply IH. intros i j n1 ft1 n2 ft2 Hij H1 H2.
    apply (H (S i) (S j) n1 ft1 n2 ft2); [lia | exact H1 | exact H2].
Qed.

Lemma nth_error_keys {V : Type} (d : dict V) (i : nat) (name : string) :
  nth_error (keys d) i = Some name ->
  exists v, nth_error d i = Some (name, v).
Proof.
  unfold keys. rewrite nth_error_map.
  destruct (nth_error d i) as [[k v] |]; cbn; [| discriminate].
  intros H; inversion H; subst. exists v. reflexivity.
Qed.

Lemma trunc_nonneg (x : R) : 0 <= x -> (0 <= trunc x)%Z.
Proof.
  intros H. unfold trunc. destruct (Rle_dec 0 x); [| lra].
  destruct (base_Int_part x) as [_ Hb].
  assert (IZR (-1) < IZR (Int_part x)) by lra.
  apply lt_IZR in H0. lia.
Qed.

Lemma absolute_size_nonneg (v : number) (count : R) :
  0 < count -> 0 <= float v -> (0 <= scalable_srs.absolute_size v count)%Z.
Proof.
  intros Hc Hv. unfold scalable_srs.absolute_size.
  destruct (Rltb (float v) 1).
  - cbn [int]. apply trunc_nonneg. apply Rmult_le_pos; lra.
  - destruct v as [z | x]; cbn in *.
    + apply le_IZR. exact Hv.
    + apply trunc_nonneg. exact Hv.
Qed.

Lemma sum_sizes_nonneg (sizes : dict Z) :
  Forall (fun kv => (0 <= snd kv)%Z) sizes ->
  (0 <= scalable_srs.sum_sizes sizes)%Z.
Proof.
  induction 1 as [| [k v] rest Hv _ IH]; [cbn; lia |].
  rewrite sum_sizes_cons. cbn in Hv. lia.
Qed.

Lemma sizes_bounded (sizes : dict Z) (N : R) :
  Forall (fun kv => (0 <= snd kv)%Z) sizes ->
  IZR (scalable_srs.sum_sizes sizes) <= N ->
  Forall (fun kv => 0 <= IZR (snd kv) <= N) sizes.
Proof.
  induction 1 as [| [k v] rest Hv Hrest IH]; intros Hsum; constructor.
  - rewrite sum_sizes_cons, plus_IZR in Hsum. cbn [snd] in *.
    pose proof (sum_sizes_nonneg rest Hrest) as Hr.
    apply IZR_le in Hr, Hv. lra.
  - apply IH. rewrite sum_sizes_cons, plus_IZR in Hsum.
    cbn in Hv. apply IZR_le in Hv. lra.
Qed.

Lemma int_sizes_keys (sizes : dict Z) : keys (Spec.int_sizes sizes) = keys sizes.
Proof.
  unfold keys, Spec.int_sizes. rewrite map_map. reflexivity.
Qed.

End ListFacts.

(** ** The two passes together *)

Section TwoPasses.

Import scalable_srs.

Context {G : Type} {rng_ops : PRNG G} {Row : Type}.

Variables (rdd : RDD Row) (sizes : dict Z) (N delta : R) (seed : Z).

Hypothesis population_pos : 0 < N.
Hypothesis delta_range : 0 < delta <= 1.
Hypothesis names_unique : NoDup (keys sizes).
Hypothesis sizes_nonneg : Forall (fun kv => (0 <= snd kv)%Z) sizes.
Hypothesis sizes_fit : IZR (sum_sizes sizes) <= N.
Hypothesis partitions : rdd <> [].
Hypothesis keys_distinct :
  NoDup (Spec.rdd_keys seed 0 (map (@length Row) rdd)).
Hypothesis first_pass_sufficient :
  Spec.sufficient sizes (Spec.layout (Spec.int_sizes sizes) N delta 0)
    (Spec.rdd_keys seed 0 (map (@length Row) rdd)).

Lemma items_bounded :
  Forall (fun kv => 0 <= float (snd kv) <= N) (Spec.int_sizes sizes).
Proof.
  unfold Spec.int_sizes. apply Forall_map.
  apply (sizes_bounded sizes N sizes_nonneg sizes_fit).
Qed.

Lemma items_nonneg :
  Forall (fun kv => 0 <= float (snd kv)) (Spec.int_sizes sizes).
Proof.
  eapply Forall_impl; [| exact items_bounded]. cbn. intros a H. lra.
Qed.

Lemma layout_names_unique :
  NoDup (keys (Spec.layout (Spec.int_sizes sizes) N delta 0)).
Proof. rewrite layout_keys, int_sizes_keys. exact names_unique. Qed.

Lemma layout_lookup_entry (name : string) (th : threshold) :
  dict_get (Spec.layout (Spec.int_sizes sizes) N delta 0) name = Some th ->
  fst (fst th) <= snd (fst th) <= snd th.
Proof.
  intros H. apply dict_get_some_in in H.
  apply (layout_entry N delta population_pos delta_range _ items_bounded
           0 name th H).
Qed.

(** The refinement of one set, from the tallies of the first pass. *)
Lemma refined_entry_exact (counts : dict tally) (name : string) (z : Z)
  (th : threshold) (ft : final_threshold) :
  Spec.tallies_after (Spec.layout (Spec.int_sizes sizes) N delta 0)
    (Spec.rdd_keys seed 0 (map (@length Row) rdd)) counts ->
  dict_get sizes name = Some z ->
  dict_get (Spec.layout (Spec.int_sizes sizes) N delta 0) name = Some th ->
  refined_entry counts (Spec.layout (Spec.int_sizes sizes) N delta 0)
    (name, Int z) (name, ft) ->
  fst ft = fst (fst th)
  /\ snd ft <= snd th
  /\ Spec.count_band (fst ft) (snd ft)
       (Spec.rdd_keys seed 0 (map (@length Row) rdd)) = Z.to_nat z.
Proof.
  intros [_ Htal] Hz Hth [_ [t [th' [Ht [Hth' Hr]]]]]. cbn [fst snd] in *.
  rewrite Hth in Hth'. inversion Hth'; subst th'.
  rewrite (Htal name th Hth) in Ht. inversion Ht; subst t.
  pose proof (layout_lookup_entry name th Hth) as Hord.
  destruct th as [[low accept] cutoff]. cbn [fst snd] in *.
  destruct (refine_exact z low accept cutoff _ ft Hord keys_distinct
              (first_pass_sufficient name z low accept cutoff Hz Hth) Hr)
    as [H1 [H2 H3]].
  rewrite H1. auto.
Qed.

Lemma two_passes :
  exists counts fin,
    reduce _dict_addition_reducer
      (mapPartitionsWithIndex
         (fun idx rows =>
            _threshold_accumulator idx rows
              (Spec.layout (Spec.int_sizes sizes) N delta 0) seed) rdd)
    = ret counts
    /\ _get_final_thresholds counts (Spec.int_sizes sizes)
         (Spec.layout (Spec.int_sizes sizes) N delta 0) = ret fin
    /\ forall name z,
         dict_get sizes name = Some z ->
         Z.of_nat
           (Spec.count_set name
              (mapPartitionsWithIndex
                 (fun idx rows => _threshold_mapper idx rows fin seed) rdd))
         = z.
Proof.
  set (ths := Spec.layout (Spec.int_sizes sizes) N delta 0) in *.
  set (all := Spec.rdd_keys seed 0 (map (@length Row) rdd)) in *.
  destruct (first_pass_tallies ths layout_names_unique
              (fun name th H => proj1 (layout_lookup_entry name th H))
              seed rdd partitions) as [counts [Hcounts Htal]].
  fold all in Htal.
  exists counts.
  (* the final thresholds are computed *)
  destruct (final_thresholds_loop_total counts ths (Spec.int_sizes sizes) [])
    as [fin Hfin].
  { intros name size Hin.
    unfold Spec.int_sizes in Hin. apply in_map_iff in Hin.
    destruct Hin as [[k z] [E Hin]]. cbn in E. inversion E; subst.
    assert (Hk : In name (keys ths)).
    { unfold ths. rewrite layout_keys, int_sizes_keys.
      apply (in_map fst) in Hin. exact Hin. }
    destruct (dict_get ths name) as [th |] eqn:Eth;
      [| apply dict_get_none in Eth; contradiction].
    destruct (refine_int_total z (Spec.tally_of th all) th) as [ft Hft].
    exists (Spec.tally_of th all), th, ft.
    split; [apply Htal; exact Eth | auto]. }
  exists fin. split; [exact Hcounts |]. split; [exact Hfin |].
  pose proof Hfin as Hshape.
  apply final_thresholds_loop_shape in Hshape;
    [| rewrite int_sizes_keys; exact names_unique | intros ? _ []].
  destruct Hshape as [fin' [E Hall]]. cbn [app] in E. subst fin'.
  (* every entry of the final thresholds, by its position *)
  assert (Hentry : forall i n ft,
             nth_error fin i = Some (n, ft) ->
             exists z th,
               nth_error ths i = Some (n, th)
               /\ dict_get sizes n = Some z
               /\ fst ft = fst (fst th)
               /\ snd ft <= snd th
               /\ Spec.count_band (fst ft) (snd ft) all = Z.to_nat z).
  { intros i n ft Hi.
    destruct (Forall2_nth_error_r _ _ _ Hall i (n, ft) Hi)
      as [[n' size] [Hitem Hent]].
    pose proof Hent as [Hname _]. cbn in Hname. subst n'.
    unfold Spec.int_sizes in Hitem. rewrite nth_error_map in Hitem.
    destruct (nth_error sizes i) as [[k z] |] eqn:Es; [| discriminate].
    cbn in Hitem. inversion Hitem; subst k size.
    assert (Hz : dict_get sizes n = Some z).
    { apply in_dict_get; [exact names_unique |].
      eapply nth_error_In. exact Es. }
    assert (Hk : nth_error (keys ths) i = Some n).
    { unfold ths. rewrite layout_keys, int_sizes_keys.
      unfold keys. rewrite nth_error_map, Es. reflexivity. }
    destruct (nth_error_keys ths i n Hk) as [th Hth].
    assert (Hget : dict_get ths n = Some th).
    { apply in_dict_get; [exact layout_names_unique |].
      eapply nth_error_In. exact Hth. }
    exists z, th. split; [exact Hth |]. split; [exact Hz |].
    apply (refined_entry_exact counts n z th ft Htal Hz Hget Hent). }
  assert (NDfin : NoDup (keys fin)).
  { replace (keys fin) with (keys sizes); [exact names_unique |].
    rewrite <- int_sizes_keys.
    clear -Hall. induction Hall as [| [n s] [n' ft] l l' [Hn _] _ IH];
      [reflexivity |].
    cbn in *. subst n'. f_equal. exact IH. }
  assert (Hsep : separated fin).
  { apply separated_of_nth. intros i j n1 ft1 n2 ft2 Hij H1 H2.
    destruct (Hentry i n1 ft1 H1) as [z1 [th1 [Hth1 [_ [_ [Hhigh _]]]]]].
    destruct (Hentry j n2 ft2 H2) as [z2 [th2 [Hth2 [_ [Hlow _]]]]].
    pose proof (layout_ordered N delta population_pos delta_range
                  (Spec.int_sizes sizes) items_nonneg 0 i j n1 th1 n2 th2
                  Hij Hth1 Hth2) as Hord.
    lra. }
  intros name z Hz.
  assert (Hin : In name (keys fin)).
  { replace (keys fin) with (keys sizes).
    - eapply dict_get_in_keys. exact Hz.
    - rewrite <- int_sizes_keys.
      clear -Hall. induction Hall as [| [n s] [n' ft] l l' [Hn _] _ IH];
        [reflexivity |].
      cbn in *. subst n'. f_equal. exact IH. }
  destruct (dict_get fin name) as [[low high] |] eqn:Eget;
    [| apply dict_get_none in Eget; contradiction].
  pose proof (dict_get_some_in _ _ _ Eget) as Hin'.
  apply In_nth_error in Hin'. destruct Hin' as [i Hi].
  destruct (Hentry i name (low, high) Hi) as [z' [th [_ [Hz' [_ [_ Hcount]]]]]].
  rewrite Hz in Hz'. inversion Hz'; subst z'. cbn [fst snd] in Hcount.
  unfold Spec.count_set, mapPartitionsWithIndex.
  rewrite (second_pass_count fin NDfin Hsep name low high seed rdd Eget 0).
  fold all. rewrite Hcount.
  apply Z2Nat.id.
  apply dict_get_some_in in Hz.
  rewrite Forall_forall in sizes_nonneg.
  apply (sizes_nonneg (name, z) Hz).
Qed.

End TwoPasses.

(** C1, as amended: when moreover the first pass brackets every target
    (for each set, the keys of its accept zone are at most its target
    size and the keys of its whole interval at least), [scalable_srs]
    returns a collection that holds, for each set, exactly its target
    number of pairs.  The configuration has a population [N > 0],
    [delta] in (0,1], unique names, sizes that are not negative and sum
    to at most [N], at least one partition, and pairwise distinct
    keys. *)
Theorem scalable_srs_exact_sizes {G : Type} {rng_ops : PRNG G} {Row : Type}
  (now : R) (rdd : scalable_srs.RDD Row) (set_sizes : dict number)
  (count : option number) (delta : R) (seed : option number)
  (reproportion : bool) :
  let N := float (scalable_srs.or_else count (Int (scalable_srs.rdd_count rdd))) in
  let sd := int (scalable_srs.or_else seed (Float now)) in
  let sizes := scalable_srs.absolute_sizes set_sizes N in
  let all := Spec.rdd_keys sd 0 (map (@length Row) rdd) in
  0 < N -> 0 < delta <= 1 ->
  Spec.well_formed set_sizes ->
  IZR (scalable_srs.sum_sizes sizes) <= N ->
  rdd <> [] ->
  NoDup all ->
  Spec.sufficient sizes (Spec.layout (Spec.int_sizes sizes) N delta 0) all ->
  exists out,
    scalable_srs.scalable_srs now rdd set_sizes count delta seed reproportion
    = ret out
    /\ forall name z,
         dict_get sizes name = Some z ->
         Z.of_nat (Spec.count_set name out) = z.
Proof.
  intros N sd sizes all HN Hd [Hnames Hpos] Hsum Hrdd Hkeys Hsuff.
  assert (NDs : NoDup (keys sizes)).
  { unfold sizes, scalable_srs.absolute_sizes, keys. rewrite map_map.
    exact Hnames. }
  assert (Hnn : Forall (fun kv => (0 <= snd kv)%Z) sizes).
  { unfold sizes, scalable_srs.absolute_sizes. apply Forall_map.
    eapply Forall_impl; [| exact Hpos]. cbn. intros [k v] Hv.
    apply absolute_size_nonneg; assumption. }
  destruct (two_passes rdd sizes N delta sd HN Hd NDs Hnn Hsum Hrdd Hkeys Hsuff)
    as [counts [fin [Hcounts [Hfin Hout]]]].
  exists (scalable_srs.mapPartitionsWithIndex
            (fun idx rows => scalable_srs._threshold_mapper idx rows fin sd) rdd).
  split; [| exact Hout].
  unfold scalable_srs.scalable_srs. fold N. fold sd.
  unfold scalable_srs._set_up_set_sizes. fold sizes.
  replace (Rltb N (IZR (scalable_srs.sum_sizes sizes))) with false
    by (symmetry; apply Rltb_false; exact Hsum).
  cbn [bind ret]. fold (Spec.int_sizes sizes).
  unfold scalable_srs._get_initial_thresholds.
  rewrite initial_thresholds_loop_layout;
    [| assumption | assumption
     | apply (items_nonneg sizes N Hnn Hsum)
     | rewrite int_sizes_keys; exact NDs
     | intros k _ []].
  cbn [bind ret snd app]. rewrite Hcounts. cbn [bind ret].
  rewrite Hfin. reflexivity.
Qed.

(** ** The pipeline on concrete inputs *)

Section Runs.

Import scalable_srs.

Lemma absolute_size_int (z : Z) (count : R) :
  1 <= IZR z -> absolute_size (Int z) count = z.
Proof.
  intros H. unfold absolute_size. cbn [float].
  replace (Rltb (IZR z) 1) with false by (symmetry; apply Rltb_false; exact H).
  reflexivity.
Qed.

Lemma single_well_formed : Spec.well_formed Examples.single.
Proof.
  split.
  - cbn. repeat constructor. intros [].
  - repeat constructor; cbn; lra.
Qed.

Lemma ln_half_bound : -1 < ln (1 / 2) < 0.
Proof.
  split; [| apply ln_neg; lra].
  replace (1 / 2) with (/ 2) by lra. rewrite ln_Rinv by lra.
  assert (ln 2 < ln (exp 1)); [| rewrite ln_exp in *; lra].
  apply ln_increasing; [lra |].
  pose proof (exp_ineq1 1). lra.
Qed.

(** With [delta = 1/2] the interval of one record out of ten ends before
    the middle of the key space. *)
Lemma q_high_tenth : Spec.q_high (1 / 10) 10 (1 / 2) < 1 / 2.
Proof.
  unfold Spec.q_high, Spec.gamma1.
  pose proof ln_half_bound as [Hl Hu].
  set (g := - ln (1 / 2) / 10).
  assert (Hg : 0 < g < 1 / 10) by (unfold g; lra).
  assert (Hs : sqrt (Rsqr g + 2 * g * (1 / 10)) <= 2 / 10).
  { rewrite <- (sqrt_square (2 / 10)) by lra.
    apply sqrt_le_1; unfold Rsqr; nra. }
  unfold Rmin. destruct (Rle_dec 1 _); lra.
Qed.

Lemma upper_half_ge (seed : Z) (pos : nat) : 1 / 2 <= Examples.upper_half seed pos.
Proof.
  unfold Examples.upper_half. pose proof (pos_INR pos).
  assert (0 <= INR pos / 100); [| lra].
  apply Rmult_le_pos; [assumption | lra].
Qed.

(** Keys of the upper half leave the tally of a set that ends before the
    middle untouched, and no record is emitted for it. *)
Lemma accumulate_upper_half (accept waitlist : R) (values : dict tally)
  (rows : list nat) :
  accept <= 1 / 2 -> waitlist <= 1 / 2 ->
  forall (seed : Z) (pos : nat),
    @accumulate _ (Examples.table_rng Examples.upper_half) nat (seed, pos) rows
      [("A"%string, (0, accept, waitlist))] values
    = values.
Proof.
  intros Ha Hw. induction rows as [| row rest IH]; intros seed pos;
    [reflexivity |].
  cbn [accumulate random Examples.table_rng fst snd].
  pose proof (upper_half_ge seed pos).
  cbn [classify].
  replace (Rltb (Examples.upper_half seed pos) 0) with false
    by (symmetry; apply Rltb_false; lra).
  replace (Rltb (Examples.upper_half seed pos) accept) with false
    by (symmetry; apply Rltb_false; lra).
  replace (Rltb (Examples.upper_half seed pos) waitlist) with false
    by (symmetry; apply Rltb_false; lra).
  apply IH.
Qed.

Lemma map_rows_upper_half (high : R) (rows : list nat) :
  high <= 1 / 2 ->
  forall (seed : Z) (pos : nat),
    @map_rows _ (Examples.table_rng Examples.upper_half) nat (seed, pos) rows
      [("A"%string, (0, high))]
    = [].
Proof.
  intros Hh. induction rows as [| row rest IH]; intros seed pos;
    [reflexivity |].
  cbn [map_rows random Examples.table_rng fst snd].
  pose proof (upper_half_ge seed pos).
  cbn [emit].
  replace (Rltb (Examples.upper_half seed pos) 0) with false
    by (symmetry; apply Rltb_false; lra).
  replace (Rltb (Examples.upper_half seed pos) high) with false
    by (symmetry; apply Rltb_false; lra).
  cbn [app]. apply IH.
Qed.

Lemma upper_half_keys_in (seed : Z) (n : nat) :
  forall (pos : nat) (k : R),
    In k (@Spec.partition_keys _ (Examples.table_rng Examples.upper_half)
            (seed, pos) n) ->
    exists j, (pos <= j)%nat /\ k = Examples.upper_half seed j.
Proof.
  induction n as [| n IH]; intros pos k Hk; [contradiction |].
  cbn [Spec.partition_keys random Examples.table_rng fst snd] in Hk.
  destruct Hk as [<- | Hk].
  - exists pos. split; [lia | reflexivity].
  - apply IH in Hk. destruct Hk as [j [Hj ->]]. exists j. split; [lia | reflexivity].
Qed.

Lemma upper_half_keys_distinct (seed : Z) (n : nat) :
  forall pos : nat,
    NoDup (@Spec.partition_keys _ (Examples.table_rng Examples.upper_half)
             (seed, pos) n).
Proof.
  induction n as [| n IH]; intros pos; [constructor |].
  cbn [Spec.partition_keys random Examples.table_rng fst snd].
  constructor; [| apply IH].
  intros Hin. apply upper_half_keys_in in Hin. destruct Hin as [j [Hj E]].
  unfold Examples.upper_half in E.
  assert (INR pos = INR j) by lra.
  apply INR_eq in H. lia.
Qed.

(** C1 fails as stated: one record is asked out of ten, the sizes sum to
    less than the population and the ten keys are pairwise distinct, but
    all of them lie above the interval of the set, and the pipeline
    returns no pair at all. *)
Lemma scalable_srs_misses_target :
  let sizes := absolute_sizes Examples.single 10 in
  @scalable_srs _ (Examples.table_rng Examples.upper_half) nat
    0 Examples.ten_records Examples.single None (1 / 2) (Some (Int 1)) false
  = ret [[]]
  /\ dict_get sizes "A"%string = Some 1%Z
  /\ IZR (sum_sizes sizes) <= 10
  /\ NoDup (@Spec.rdd_keys _ (Examples.table_rng Examples.upper_half) 1 0
              (map (@length nat) Examples.ten_records))
  /\ Spec.count_set "A"%string [@nil (string * nat)] = 0%nat.
Proof.
  intros sizes.
  assert (Es : sizes = [("A"%string, 1%Z)]).
  { unfold sizes, absolute_sizes, Examples.single. cbn [map fst snd].
    rewrite absolute_size_int by lra. reflexivity. }
  split; [| rewrite Es; split; [reflexivity | split; [cbn; lra | split; [| reflexivity]]]].
  - unfold scalable_srs.
    change (float (or_else None (Int (rdd_count Examples.ten_records))))
      with 10.
    change (int (or_else (Some (Int 1)) (Float 0))) with 1%Z.
    unfold _set_up_set_sizes. fold sizes. rewrite Es.
    cbn [sum_sizes map snd fst fold_left Z.add].
    replace (Rltb 10 1) with false by (symmetry; apply Rltb_false; lra).
    cbn [bind ret]. unfold _get_initial_thresholds.
    rewrite initial_thresholds_loop_layout;
      [| lra | lra | repeat constructor; cbn; lra
       | cbn; repeat constructor; intros [] | intros k _ []].
    cbn [bind ret snd app Spec.layout float].
    set (ql := Spec.q_low (1 / 10) 10 (1 / 2)).
    set (qh := Spec.q_high (1 / 10) 10 (1 / 2)).
    assert (Hql : ql <= 1 / 10) by (apply q_low_le_ratio; lra).
    assert (Hqh : qh < 1 / 2) by exact q_high_tenth.
    unfold Examples.ten_records, mapPartitionsWithIndex,
      mapPartitionsWithIndex_from, _threshold_accumulator, reduce.
    cbn [keys map fst zero_tallies dict_set concat app fold_left Random
         Examples.table_rng].
    rewrite accumulate_upper_half by lra.
    cbn [bind ret]. unfold _get_final_thresholds.
    cbn [final_thresholds_loop dict_lookup dict_get String.eqb Ascii.eqb
         Bool.eqb bind ret].
    rewrite refine_short;
      [| cbn; lra | cbn; lra].
    cbn [bind ret dict_set]. unfold _threshold_mapper.
    cbn [Random Examples.table_rng].
    rewrite map_rows_upper_half by lra. reflexivity.
  - cbn [Examples.ten_records map length Spec.rdd_keys Random
         Examples.table_rng]. rewrite app_nil_r.
    apply upper_half_keys_distinct.
Qed.

Lemma scalable_srs_exact_sizes_witness :
  exists out,
    @scalable_srs _ (Examples.table_rng Examples.quarters) nat
      0 Examples.two_records Examples.single None (1 / 2) (Some (Int 1)) false
    = ret out
    /\ forall name z,
         dict_get (absolute_sizes Examples.single 2) name = Some z ->
         Z.of_nat (Spec.count_set name out) = z.
Proof.
  assert (Es : absolute_sizes Examples.single 2 = [("A"%string, 1%Z)]).
  { unfold absolute_sizes, Examples.single. cbn [map fst snd].
    rewrite absolute_size_int by lra. reflexivity. }
  apply (@scalable_srs_exact_sizes _ (Examples.table_rng Examples.quarters) nat
           0 Examples.two_records Examples.single None (1 / 2)
           (Some (Int 1)) false).
  - change (0 < 2). lra.
  - lra.
  - exact single_well_formed.
  - change (IZR (sum_sizes (absolute_sizes Examples.single 2)) <= 2).
    rewrite Es. cbn. lra.
  - discriminate.
  - cbn. repeat constructor; cbn; intros H;
      repeat (destruct H as [H | H]; try lra); exact H.
  - change (Spec.sufficient (absolute_sizes Examples.single 2)
              (Spec.layout (Spec.int_sizes (absolute_sizes Examples.single 2))
                 2 (1 / 2) 0)
              [1 / 4; 3 / 4]).
    rewrite Es. cbn [Spec.int_sizes map fst snd Spec.layout float].
    set (ql := Spec.q_low (1 / 2) 2 (1 / 2)).
    set (qh := Spec.q_high (1 / 2) 2 (1 / 2)).
    assert (Hql : ql <= 1 / 2) by (apply q_low_le_ratio; lra).
    assert (Hqh : 1 / 2 < qh) by (apply q_high_gt_ratio; lra).
    intros name z low accept cutoff Hz Hth. cbn [dict_get] in Hz, Hth.
    destruct (String.eqb "A" name); [| discriminate].
    inversion Hz; subst z. inversion Hth; subst low accept cutoff.
    unfold Spec.count_band, Spec.in_band. cbn [filter].
    replace (Rltb (1 / 4) 0) with false by (symmetry; apply Rltb_false; lra).
    replace (Rltb (3 / 4) 0) with false by (symmetry; apply Rltb_false; lra).
    replace (Rltb (3 / 4) (0 + ql)) with false
      by (symmetry; apply Rltb_false; lra).
    replace (Rltb (1 / 4) (0 + qh)) with true
      by (symmetry; apply Rltb_true; lra).
    cbn [negb andb].
    destruct (Rltb (1 / 4) (0 + ql)), (Rltb (3 / 4) (0 + qh)); cbn; lia.
Defined.

End Runs.

(* ------------------------------------------------------------------ *)
(** * Further properties of the code *)

(** ** The cutoffs of [_compute_thresholds] *)

Section Cutoffs.

Import scalable_srs.

Lemma q_high_le_one (p N delta : R) : Spec.q_high p N delta <= 1.
Proof. unfold Spec.q_high. apply Rmin_l. Qed.

Lemma gamma2_pos (N delta : R) : 0 < N -> 0 < delta < 1 -> 0 < Spec.gamma2 N delta.
Proof.
  intros HN [H0 H1]; unfold Spec.gamma2.
  apply Rdiv_lt_0_compat; [| lra].
  pose proof (ln_neg delta H0 H1); lra.
Qed.

Lemma q_low_lt_ratio (p N delta : R) :
  0 < p -> 0 < N -> 0 < delta < 1 -> Spec.q_low p N delta < p.
Proof.
  intros Hp HN Hd. pose proof (gamma2_pos N delta HN Hd) as G2.
  unfold Spec.q_low. apply Rmax_lub_lt; [assumption |].
  set (g := Spec.gamma2 N delta) in *.
  assert (g < sqrt (Rsqr g + 3 * g * p)).
  { rewrite <- (sqrt_Rsqr g) at 1 by lra.
    apply sqrt_lt_1; unfold Rsqr; nra. }
  lra.
Qed.

(** X1: for a ratio in [0,1], a population [N > 0] and [delta] in (0,1],
    [_compute_thresholds] returns cutoffs with
    [0 <= q_low <= ratio <= q_high <= 1]; when [delta < 1] and the ratio
    is strictly between 0 and 1 the two inner inequalities are strict, so
    that the waitlist band is not empty. *)
Theorem compute_thresholds_bracket_ratio (p N delta : R) :
  0 <= p <= 1 -> 0 < N -> 0 < delta <= 1 ->
  exists q_low q_high,
    _compute_thresholds p N delta = ret (q_low, q_high)
    /\ 0 <= q_low <= p
    /\ p <= q_high <= 1
    /\ (delta < 1 -> 0 < p < 1 -> q_low < p < q_high).
Proof.
  intros Hp HN Hd.
  exists (Spec.q_low p N delta), (Spec.q_high p N delta).
  split; [apply compute_thresholds_defined; lra |].
  split; [split; [apply q_low_nonneg | apply q_low_le_ratio; lra] |].
  split; [split; [apply q_high_ge_ratio; lra | apply q_high_le_one] |].
  intros Hd1 Hp1. split.
  - apply q_low_lt_ratio; lra.
  - apply q_high_gt_ratio; lra.
Qed.

Lemma compute_thresholds_bracket_ratio_witness :
  exists q_low q_high,
    _compute_thresholds (1 / 10) 1000 (1 / 20000) = ret (q_low, q_high)
    /\ 0 <= q_low <= 1 / 10
    /\ 1 / 10 <= q_high <= 1
    /\ (1 / 20000 < 1 -> 0 < 1 / 10 < 1 -> q_low < 1 / 10 < q_high).
Proof. apply compute_thresholds_bracket_ratio; lra. Defined.

Lemma gamma1_gamma2 (N delta : R) :
  N <> 0 -> Spec.gamma1 N delta = 3 / 2 * Spec.gamma2 N delta.
Proof. intros HN. unfold Spec.gamma1, Spec.gamma2. field. exact HN. Qed.

(** X2: the errors of [_compute_thresholds].  A [delta <= 0] is a math
    domain error of [math.log]; a population of 0 is a division by zero;
    and for [N > 0] and [delta] in (0,1) the function returns (the closed
    form) exactly when [3 * ratio + gamma2 >= 0], a more negative ratio
    being a math domain error of [math.sqrt]. *)
Theorem compute_thresholds_errors :
  (forall p N delta, delta <= 0 ->
     _compute_thresholds p N delta = raise math_domain_error)
  /\ (forall p delta, 0 < delta ->
        _compute_thresholds p 0 delta = raise ZeroDivisionError)
  /\ (forall p N delta, 0 < N -> 0 < delta < 1 ->
        (0 <= 3 * p + Spec.gamma2 N delta ->
         _compute_thresholds p N delta
         = ret (Spec.q_low p N delta, Spec.q_high p N delta))
        /\ (3 * p + Spec.gamma2 N delta < 0 ->
            _compute_thresholds p N delta = raise math_domain_error)).
Proof.
  split; [| split].
  - intros p N delta Hd. unfold _compute_thresholds, math_log.
    destruct (Rlt_dec 0 delta); [lra | reflexivity].
  - intros p delta Hd. unfold _compute_thresholds.
    rewrite math_log_ok by assumption. cbn [bind ret]. unfold fdiv.
    destruct (Req_dec_T 0 0); [reflexivity | congruence].
  - intros p N delta HN Hd.
    pose proof (gamma2_pos N delta HN Hd) as G2.
    pose proof (gamma1_gamma2 N delta) as G12.
    unfold _compute_thresholds.
    rewrite math_log_ok by lra. cbn [bind ret].
    rewrite !fdiv_ok by lra. cbn [bind ret].
    fold (Spec.gamma1 N delta). fold (Spec.gamma2 N delta).
    rewrite G12 by lra. set (g := Spec.gamma2 N delta) in *.
    split; intros H.
    + rewrite !math_sqrt_ok by nra. cbn [bind ret].
      rewrite max_Rmax, min_Rmin. unfold Spec.q_low, Spec.q_high, Rsqr.
      fold g. rewrite G12 by lra. fold g.
      replace (g ^ 2) with (g * g) by ring.
      replace ((3 / 2 * g) ^ 2) with (3 / 2 * g * (3 / 2 * g)) by ring.
      reflexivity.
    + unfold math_sqrt at 1.
      destruct (Rle_dec 0 (g ^ 2 + 3 * g * p)); [nra | reflexivity].
Qed.

Lemma compute_thresholds_errors_witness :
  _compute_thresholds (1 / 10) 1000 0 = raise math_domain_error
  /\ _compute_thresholds (1 / 10) 0 (1 / 2) = raise ZeroDivisionError
  /\ _compute_thresholds (1 / 10) 1000 (1 / 2)
     = ret (Spec.q_low (1 / 10) 1000 (1 / 2), Spec.q_high (1 / 10) 1000 (1 / 2)).
Proof.
  destruct compute_thresholds_errors as [H1 [H2 H3]].
  split; [apply H1; lra |]. split; [apply H2; lra |].
  apply H3; [lra | lra |].
  pose proof (gamma2_pos 1000 (1 / 2)). lra.
Defined.

End Cutoffs.

(** ** The cutoffs of the two-set variant *)

Section SelectionCutoffs.

Import scalable_srs srs_sampling.

Lemma selection_as_compute (pop sample : R) :
  compute_selection_waitlist_thresholds pop sample
  = (p <- fdiv sample pop ;;
     q <- _compute_thresholds p pop (exp (- 10)) ;;
     ret (snd q, fst q)).
Proof.
  unfold compute_selection_waitlist_thresholds, _compute_thresholds, fdiv.
  destruct (Req_dec_T pop 0) as [-> | Hpop].
  - destruct (Req_dec_T (3 * 0) 0); [reflexivity | lra].
  - destruct (Req_dec_T (3 * pop) 0); [lra |]. cbn [bind ret].
    rewrite math_log_ok by apply exp_pos. cbn [bind ret].
    destruct (Req_dec_T pop 0); [contradiction |].
    destruct (Req_dec_T (3 * pop) 0); [lra |]. cbn [bind ret].
    rewrite ln_exp.
    replace (- (2 * - 10) / (3 * pop)) with (20 / (3 * pop)) by (field; lra).
    replace (- - 10 / pop) with (10 / pop) by (field; lra).
    set (t1 := 20 / (3 * pop)). set (t2 := 10 / pop). set (sp := sample / pop).
    replace (t1 ^ 2) with (t1 * t1) by ring.
    replace (t2 ^ 2) with (t2 * t2) by ring.
    destruct (math_sqrt (t1 * t1 + 3 * t1 * sp)) as [e | s1]; [reflexivity |].
    cbn [bind ret].
    destruct (math_sqrt (t2 * t2 + 2 * t2 * sp)) as [e | s2]; reflexivity.
Qed.

(** X3: [compute_selection_waitlist_thresholds] is [_compute_thresholds]
    at the ratio [sample_size / approx_pop_size] and the error bound
    [exp(-10)], with the pair returned in the other order (waitlist
    cutoff first); the two raise on the same inputs. *)
Theorem selection_thresholds_are_compute_thresholds (pop sample : R) :
  compute_selection_waitlist_thresholds pop sample
  = (p <- fdiv sample pop ;;
     q <- _compute_thresholds p pop (exp (- 10)) ;;
     ret (snd q, fst q)).
Proof. apply selection_as_compute. Qed.

Lemma exp_minus_ten_range : 0 < exp (- 10) < 1.
Proof.
  split; [apply exp_pos |].
  rewrite <- exp_0. apply exp_increasing. lra.
Qed.

Lemma selection_thresholds_value (pop sample : R) :
  0 < pop -> 0 <= sample ->
  compute_selection_waitlist_thresholds pop sample
  = ret (Spec.q_high (sample / pop) pop (exp (- 10)),
         Spec.q_low (sample / pop) pop (exp (- 10))).
Proof.
  intros Hpop Hs. rewrite selection_as_compute.
  rewrite fdiv_ok by lra. cbn [bind ret].
  pose proof exp_minus_ten_range.
  rewrite compute_thresholds_defined;
    [reflexivity | | assumption | lra].
  apply Rmult_le_pos; [assumption |]. left. apply Rinv_0_lt_compat. assumption.
Qed.

(** X4: for a population [> 0] and a sample size between 0 and the
    population, [compute_selection_waitlist_thresholds] returns
    [(q1, q2)] with [0 <= q2 <= sample/population <= q1 <= 1]: the
    selection cutoff is below the sampling probability and the waitlist
    cutoff above it. *)
Theorem selection_thresholds_bracket_probability (pop sample : R) :
  0 < pop -> 0 <= sample <= pop ->
  exists q1 q2,
    compute_selection_waitlist_thresholds pop sample = ret (q1, q2)
    /\ 0 <= q2 <= sample / pop
    /\ sample / pop <= q1 <= 1.
Proof.
  intros Hpop Hs. pose proof exp_minus_ten_range as Hd.
  assert (Hp : 0 <= sample / pop <= 1).
  { split.
    - apply Rmult_le_pos; [lra |]. left. apply Rinv_0_lt_compat. assumption.
    - apply (Rmult_le_reg_r pop); [assumption |].
      unfold Rdiv. rewrite Rmult_assoc, Rinv_l by lra. lra. }
  eexists. eexists. split; [apply selection_thresholds_value; lra |].
  split; [split; [apply q_low_nonneg | apply q_low_le_ratio; lra] |].
  split; [apply q_high_ge_ratio; lra | apply q_high_le_one].
Qed.

Lemma selection_thresholds_bracket_probability_witness :
  exists q1 q2,
    compute_selection_waitlist_thresholds 1000 100 = ret (q1, q2)
    /\ 0 <= q2 <= 100 / 1000
    /\ 100 / 1000 <= q1 <= 1.
Proof. apply selection_thresholds_bracket_probability; lra. Defined.

End SelectionCutoffs.

(** ** The intervals of [_get_initial_thresholds] *)

Section InitialIntervals.

Import scalable_srs.

Lemma layout_contiguous (items : dict number) (count delta : R) :
  forall offset i n1 t1 n2 t2,
    nth_error (Spec.layout items count delta offset) i = Some (n1, t1) ->
    nth_error (Spec.layout items count delta offset) (S i) = Some (n2, t2) ->
    fst (fst t2) = snd t1.
Proof.
  induction items as [| [k size] rest IH]; intros offset i n1 t1 n2 t2 H1 H2.
  - destruct i; discriminate.
  - destruct i as [| i].
    + cbn in H1. inversion H1; subst. cbn [snd].
      destruct rest as [| [k' size'] rest']; [discriminate |].
      cbn in H2. inversion H2; subst. reflexivity.
    + cbn in H1, H2. eapply IH; [exact H1 | exact H2].
Qed.

Lemma layout_first (items : dict number) (count delta offset : R) :
  forall n th,
    nth_error (Spec.layout items count delta offset) 0 = Some (n, th) ->
    fst (fst th) = offset.
Proof.
  destruct items as [| [k size] rest]; intros n th H; [discriminate |].
  cbn in H. inversion H; subst. reflexivity.
Qed.

(** X5: for a population [count > 0], [delta] in (0,1], unique names and
    sizes between 0 and [count], [_get_initial_thresholds] returns one
    triple per set, in the order of the configuration, with
    [0 <= low <= accept <= waitlist]; the first interval starts at 0 and
    each next one starts exactly where the one before it ends. *)
Theorem initial_thresholds_contiguous (set_sizes : dict number)
  (count delta : R) :
  0 < count -> 0 < delta <= 1 ->
  NoDup (keys set_sizes) ->
  Forall (fun kv => 0 <= float (snd kv) <= count) set_sizes ->
  exists thresholds,
    _get_initial_thresholds set_sizes count delta = ret thresholds
    /\ keys thresholds = keys set_sizes
    /\ (forall name th, In (name, th) thresholds ->
          0 <= fst (fst th) /\ fst (fst th) <= snd (fst th) <= snd th)
    /\ (forall n th, nth_error thresholds 0 = Some (n, th) -> fst (fst th) = 0)
    /\ (forall i n1 t1 n2 t2,
          nth_error thresholds i = Some (n1, t1) ->
          nth_error thresholds (S i) = Some (n2, t2) ->
          fst (fst t2) = snd t1).
Proof.
  intros Hc Hd ND Hsizes.
  assert (Hpos : Forall (fun kv => 0 <= float (snd kv)) set_sizes).
  { eapply Forall_impl; [| exact Hsizes]. cbn. intros a H. lra. }
  exists (Spec.layout set_sizes count delta 0).
  split; [| split; [| split; [| split]]].
  - unfold _get_initial_thresholds.
    rewrite initial_thresholds_loop_layout;
      [reflexivity | assumption | assumption | assumption | assumption
       | intros k _ []].
  - apply layout_keys.
  - intros name th Hin. split.
    + apply (layout_lower_bound count delta Hc Hd set_sizes Hpos 0 name th Hin).
    + apply (layout_entry count delta Hc Hd set_sizes Hsizes 0 name th Hin).
  - apply layout_first.
  - apply layout_contiguous.
Qed.

Lemma initial_thresholds_contiguous_witness :
  exists thresholds,
    _get_initial_thresholds Examples.two_sets 2 (1 / 2) = ret thresholds
    /\ keys thresholds = keys Examples.two_sets
    /\ (forall name th, In (name, th) thresholds ->
          0 <= fst (fst th) /\ fst (fst th) <= snd (fst th) <= snd th)
    /\ (forall n th, nth_error thresholds 0 = Some (n, th) -> fst (fst th) = 0)
    /\ (forall i n1 t1 n2 t2,
          nth_error thresholds i = Some (n1, t1) ->
          nth_error thresholds (S i) = Some (n2, t2) ->
          fst (fst t2) = snd t1).
Proof.
  apply initial_thresholds_contiguous; [lra | lra | |].
  - apply two_sets_well_formed.
  - repeat constructor; cbn; lra.
Defined.

(** X6: the errors of [_get_initial_thresholds].  Without sets it returns
    the empty dictionary, whatever [count] and [delta]; with at least one
    set, a [count] of 0 is a division by zero, and for [count <> 0] a
    [delta <= 0] is a math domain error. *)
Theorem initial_thresholds_errors :
  (forall count delta, _get_initial_thresholds [] count delta = ret [])
  /\ (forall set_sizes delta, set_sizes <> [] ->
        _get_initial_thresholds set_sizes 0 delta = raise ZeroDivisionError)
  /\ (forall set_sizes count delta,
        set_sizes <> [] -> count <> 0 -> delta <= 0 ->
        _get_initial_thresholds set_sizes count delta
        = raise math_domain_error).
Proof.
  split; [reflexivity |]. split.
  - intros [| [name size] rest] delta H; [congruence |].
    unfold _get_initial_thresholds. cbn [initial_thresholds_loop]. unfold fdiv.
    destruct (Req_dec_T 0 0); [reflexivity | congruence].
  - intros [| [name size] rest] count delta H Hc Hd; [congruence |].
    unfold _get_initial_thresholds. cbn [initial_thresholds_loop].
    rewrite fdiv_ok by assumption. cbn [bind ret].
    unfold _compute_thresholds, math_log.
    destruct (Rlt_dec 0 delta); [lra | reflexivity].
Qed.

Lemma initial_thresholds_errors_witness :
  _get_initial_thresholds Examples.two_sets 0 (1 / 2) = raise ZeroDivisionError
  /\ _get_initial_thresholds Examples.two_sets 2 0 = raise math_domain_error.
Proof.
  destruct initial_thresholds_errors as [_ [H1 H2]]. split.
  - apply H1. discriminate.
  - apply H2; [discriminate | lra | lra].
Defined.

End InitialIntervals.

(** ** The branches of [_get_final_thresholds] *)

Section FinalBranches.

Import scalable_srs.

Lemma refined_entries_keys (counts : dict tally) (thresholds : dict threshold)
  (items : dict number) (fin : dict final_threshold) :
  Forall2 (refined_entry counts thresholds) items fin -> keys fin = keys items.
Proof.
  induction 1 as [| [n s] [n' ft] l l' [Hn _] _ IH]; [reflexivity |].
  cbn in *. subst n'. f_equal. exact IH.
Qed.

Lemma refine_float_mid (x : R) (count : Z) (waitlist : list R) (th : threshold) :
  0 < x - IZR count < INR (length waitlist) ->
  refine (Float x) (count, waitlist) th = raise TypeError.
Proof.
  intros [H0 H1]. unfold refine. cbn [fst snd required_of float].
  replace (Rleb (x - IZR count) 0) with false
    by (symmetry; apply Rleb_false; exact H0).
  replace (Rleb _ _) with false by (symmetry; apply Rleb_false; exact H1).
  reflexivity.
Qed.

Lemma refine_cases (size : number) (count : Z) (waitlist : list R)
  (low accept cutoff : R) (ft : final_threshold) :
  refine size (count, waitlist) (low, accept, cutoff) = ret ft ->
  let required := float (required_of size count) in
  fst ft = low
  /\ (required <= 0 -> snd ft = accept)
  /\ (0 < required -> INR (length waitlist) <= required -> snd ft = cutoff)
  /\ (0 < required < INR (length waitlist) ->
      In (snd ft) waitlist /\ exists z, size = Int z).
Proof.
  intros H required.
  destruct (Rle_dec required 0) as [H0 | H0].
  - rewrite refine_enough in H by exact H0. inversion H; subst ft. cbn.
    repeat split; intros; try reflexivity; lra.
  - destruct (Rle_dec (INR (length waitlist)) required) as [H1 | H1].
    + rewrite refine_short in H by (try exact H1; unfold required in H0; lra).
      inversion H; subst ft. cbn.
      repeat split; intros; try reflexivity; lra.
    + destruct size as [z | x].
      * unfold required in *. cbn [required_of float] in *.
        rewrite INR_Z in H1.
        assert (Hmid : (0 < z - count < Z.of_nat (length waitlist))%Z)
          by (split; apply lt_IZR; lra).
        rewrite refine_mid in H by exact Hmid. inversion H; subst ft. cbn.
        split; [reflexivity |]. split; [intros; lra |].
        split; [intros; rewrite INR_Z in *; lra |]. intros _.
        split; [| exists z; reflexivity].
        apply (Permutation_in _ (sorted_perm waitlist)).
        apply nth_In. rewrite sorted_length. lia.
      * unfold required in *. cbn [required_of float] in *.
        rewrite refine_float_mid in H by lra. discriminate.
Qed.

(** X7: when [_get_final_thresholds] returns (names being unique), the
    result has one interval per set in the order of the configuration,
    each with the lower bound of its working threshold; its upper bound
    is [accept] when [required <= 0], the waitlist bound when
    [required >= len(waitlist)], and otherwise one of the waitlisted
    keys. *)
Theorem final_thresholds_branches (counts : dict tally)
  (set_sizes : dict number) (thresholds : dict threshold)
  (final : dict final_threshold) :
  NoDup (keys set_sizes) ->
  _get_final_thresholds counts set_sizes thresholds = ret final ->
  keys final = keys set_sizes
  /\ forall name size count waitlist low accept cutoff,
       dict_get set_sizes name = Some size ->
       dict_get counts name = Some (count, waitlist) ->
       dict_get thresholds name = Some (low, accept, cutoff) ->
       let required := float (required_of size count) in
       exists high,
         dict_get final name = Some (low, high)
         /\ (required <= 0 -> high = accept)
         /\ (0 < required -> INR (length waitlist) <= required -> high = cutoff)
         /\ (0 < required < INR (length waitlist) -> In high waitlist).
Proof.
  intros ND H. unfold _get_final_thresholds in H.
  apply final_thresholds_loop_shape in H; [| exact ND | intros ? _ []].
  destruct H as [fin [-> Hfin]]. cbn [app]. split.
  - eapply refined_entries_keys. exact Hfin.
  - intros name size count waitlist low accept cutoff Hs Hc Ht. cbv zeta.
    destruct (refined_entry_lookup _ _ _ _ Hfin name size Hs)
      as [ft [t [th [Hft [Et [Eth Er]]]]]].
    rewrite Hc in Et. inversion Et; subst t.
    rewrite Ht in Eth. inversion Eth; subst th.
    destruct (refine_cases _ _ _ _ _ _ _ Er) as [H1 [H2 [H3 H4]]].
    exists (snd ft). split; [| split; [exact H2 | split; [exact H3 |]]].
    + rewrite Hft. destruct ft as [l h]. cbn in *. subst l. reflexivity.
    + intros Hmid. apply H4. exact Hmid.
Qed.

Lemma final_thresholds_branches_witness :
  exists final,
    _get_final_thresholds Examples.one_set_counts Examples.one_set
      Examples.one_set_thresholds = ret final
    /\ keys final = keys Examples.one_set
    /\ exists high,
         dict_get final "A"%string = Some (0, high)
         /\ In high [3 / 10; 1 / 10; 1 / 5].
Proof.
  destruct (final_thresholds_loop_total Examples.one_set_counts
              Examples.one_set_thresholds Examples.one_set [])
    as [final Hfinal].
  { intros name size [E | []]. inversion E; subst.
    destruct (refine_int_total 3 (1%Z, [3 / 10; 1 / 10; 1 / 5])
                (0, 1 / 20, 1 / 2)) as [ft Hft].
    eexists. eexists. exists ft. repeat split; [reflexivity .. | exact Hft]. }
  exists final. split; [exact Hfinal |].
  destruct (final_thresholds_branches Examples.one_set_counts Examples.one_set
              Examples.one_set_thresholds final) as [Hk Hb].
  - cbn. repeat constructor. intros [].
  - exact Hfinal.
  - split; [exact Hk |].
    destruct (Hb "A"%string (Int 3) 1%Z [3 / 10; 1 / 10; 1 / 5]
                0 (1 / 20) (1 / 2) eq_refl eq_refl eq_refl)
      as [high [Hh [_ [_ Hin]]]].
    exists high. split; [exact Hh |]. apply Hin. cbn. lra.
Defined.

(** X8: the errors of [_get_final_thresholds] (names being unique).  It
    returns nothing but an error when a set of the configuration has no
    tally, or no working threshold, or when a set has a float size (as
    after reproportioning) with [0 < required < len(waitlist)]: the body
    of the loop then raises [TypeError], [nsmallest] being given a float
    count. *)
Theorem final_thresholds_errors (counts : dict tally)
  (set_sizes : dict number) (thresholds : dict threshold) :
  NoDup (keys set_sizes) ->
  (forall name size,
      In (name, size) set_sizes ->
      dict_get counts name = None \/ dict_get thresholds name = None ->
      exists e, _get_final_thresholds counts set_sizes thresholds = raise e)
  /\ (forall name x count waitlist th,
        In (name, Float x) set_sizes ->
        dict_get counts name = Some (count, waitlist) ->
        dict_get thresholds name = Some th ->
        0 < x - IZR count < INR (length waitlist) ->
        refine (Float x) (count, waitlist) th = raise TypeError
        /\ exists e,
             _get_final_thresholds counts set_sizes thresholds = raise e).
Proof.
  intros ND.
  assert (Hret : forall final name size,
             _get_final_thresholds counts set_sizes thresholds = ret final ->
             In (name, size) set_sizes ->
             exists ft t th,
               dict_get counts name = Some t
               /\ dict_get thresholds name = Some th
               /\ refine size t th = ret ft).
  { intros final name size H Hin. unfold _get_final_thresholds in H.
    apply final_thresholds_loop_shape in H; [| exact ND | intros ? _ []].
    destruct H as [fin [_ Hfin]].
    destruct (refined_entry_lookup _ _ _ _ Hfin name size
                (in_dict_get _ _ _ ND Hin))
      as [ft [t [th [_ [Et [Eth Er]]]]]].
    exists ft, t, th. auto. }
  split.
  - intros name size Hin Hmiss.
    destruct (_get_final_thresholds counts set_sizes thresholds)
      as [e | final] eqn:E; [exists e; reflexivity |].
    destruct (Hret final name size eq_refl Hin) as [ft [t [th [Et [Eth _]]]]].
    destruct Hmiss as [Hm | Hm]; congruence.
  - intros name x count waitlist th Hin Hc Ht Hmid.
    split; [apply refine_float_mid; exact Hmid |].
    destruct (_get_final_thresholds counts set_sizes thresholds)
      as [e | final] eqn:E; [exists e; reflexivity |].
    destruct (Hret final name (Float x) eq_refl Hin)
      as [ft [t [th' [Et [Eth Er]]]]].
    rewrite Hc in Et. inversion Et; subst t.
    rewrite refine_float_mid in Er by exact Hmid. discriminate.
Qed.

End FinalBranches.

Lemma final_thresholds_errors_witness :
  (exists e,
      scalable_srs._get_final_thresholds [] Examples.float_set
        Examples.one_set_thresholds = raise e)
  /\ scalable_srs.refine (Float (7 / 2)) (1%Z, [3 / 10; 1 / 10; 1 / 5])
       (0, 1 / 20, 1 / 2) = raise TypeError
  /\ exists e,
       scalable_srs._get_final_thresholds Examples.one_set_counts
         Examples.float_set Examples.one_set_thresholds = raise e.
Proof.
  assert (ND : NoDup (keys Examples.float_set))
    by (cbn; repeat constructor; intros []).
  split.
  - apply (proj1 (final_thresholds_errors [] Examples.float_set
                    Examples.one_set_thresholds ND)
             "A"%string (Float (7 / 2))); [cbn; auto | left; reflexivity].
  - apply (proj2 (final_thresholds_errors Examples.one_set_counts
                    Examples.float_set Examples.one_set_thresholds ND)
             "A"%string (7 / 2) 1%Z [3 / 10; 1 / 10; 1 / 5] (0, 1 / 20, 1 / 2));
      [cbn; auto | reflexivity | reflexivity | cbn; lra].
Defined.

(** ** The two passes over a partition *)

Section PartitionPasses.

Import scalable_srs.

Context {G : Type} {rng_ops : PRNG G} {Row : Type}.

Lemma partition_keys_length (n : nat) :
  forall rng : G, length (Spec.partition_keys rng n) = n.
Proof.
  induction n as [| n IH]; intros rng; cbn; [reflexivity |].
  destruct (random rng) as [key rng']. cbn. rewrite IH. reflexivity.
Qed.

Lemma bands_exclusive (low accept cutoff : R) (l : list R) :
  (Spec.count_band low accept l
   + length (filter (Spec.in_band accept cutoff) l) <= length l)%nat.
Proof.
  unfold Spec.count_band, Spec.in_band.
  induction l as [| k rest IH]; cbn; [lia |].
  destruct (Rltb k low), (Rltb k accept), (Rltb k cutoff); cbn; lia.
Qed.

(** X9: for thresholds with unique names and [low <= accept],
    [_threshold_accumulator] yields one dictionary with the names of the
    thresholds, in which each set has the number of keys of the partition
    in [[low, accept)] and, in the order of the records, the keys in
    [[accept, waitlist)]; the two together never exceed the number of
    records. *)
Theorem threshold_accumulator_tally (idx seed : Z) (rows : list Row)
  (thresholds : dict threshold) :
  NoDup (keys thresholds) ->
  (forall name th, dict_get thresholds name = Some th ->
     fst (fst th) <= snd (fst th)) ->
  let drawn := Spec.partition_keys (Random (seed + idx)) (length rows) in
  exists values,
    _threshold_accumulator idx rows thresholds seed = [values]
    /\ keys values = keys thresholds
    /\ forall name low accept cutoff,
         dict_get thresholds name = Some (low, accept, cutoff) ->
         dict_get values name
         = Some (Z.of_nat (Spec.count_band low accept drawn),
                 filter (Spec.in_band accept cutoff) drawn)
         /\ (Spec.count_band low accept drawn
             + length (filter (Spec.in_band accept cutoff) drawn)
             <= length rows)%nat.
Proof.
  intros ND Hord drawn.
  pose proof (accumulate_tallies thresholds ND Hord rows (Random (seed + idx)) []
                _ (zero_tallies_after thresholds ND)) as [Hk Hv].
  eexists. split; [reflexivity |]. split; [exact Hk |].
  intros name low accept cutoff Hth. split.
  - apply (Hv name (low, accept, cutoff) Hth).
  - pose proof (bands_exclusive low accept cutoff drawn) as Hb.
    unfold drawn in Hb at 3. rewrite partition_keys_length in Hb. exact Hb.
Qed.

(** X10: the reduction of the tallies of all partitions with
    [_dict_addition_reducer] is the tally of the keys of the whole
    collection, partition after partition; a collection without
    partitions makes [reduce] raise its [ValueError]. *)
Theorem first_pass_reduction (seed : Z) (rdd : RDD Row)
  (thresholds : dict threshold) :
  NoDup (keys thresholds) ->
  (forall name th, dict_get thresholds name = Some th ->
     fst (fst th) <= snd (fst th)) ->
  let drawn := Spec.rdd_keys seed 0 (map (@length Row) rdd) in
  let tallies :=
    mapPartitionsWithIndex
      (fun idx rows => _threshold_accumulator idx rows thresholds seed) rdd in
  (rdd = [] ->
   reduce _dict_addition_reducer tallies
   = raise (ValueError "Can not reduce() empty RDD"))
  /\ (rdd <> [] ->
      exists counts,
        reduce _dict_addition_reducer tallies = ret counts
        /\ keys counts = keys thresholds
        /\ forall name low accept cutoff,
             dict_get thresholds name = Some (low, accept, cutoff) ->
             dict_get counts name
             = Some (Z.of_nat (Spec.count_band low accept drawn),
                     filter (Spec.in_band accept cutoff) drawn)).
Proof.
  intros ND Hord drawn tallies. split.
  - intros ->. reflexivity.
  - intros Hrdd.
    destruct (first_pass_tallies thresholds ND Hord seed rdd Hrdd)
      as [counts [Hc [Hk Hv]]].
    exists counts. split; [exact Hc |]. split; [exact Hk |].
    intros name low accept cutoff Hth.
    apply (Hv name (low, accept, cutoff) Hth).
Qed.

Lemma emit_first_match (key : R) (row : Row) (thresholds : dict final_threshold) :
  emit key row thresholds = More.first_match thresholds (key, row).
Proof.
  unfold More.first_match. cbn [fst snd].
  induction thresholds as [| [name [low high]] rest IH]; [reflexivity |].
  cbn [emit find]. unfold More.holds at 1, Spec.in_band. cbn [fst snd].
  destruct (Rltb key low); cbn [negb andb]; [exact IH |].
  destruct (Rltb key high); [reflexivity | exact IH].
Qed.

Lemma map_rows_first_match (thresholds : dict final_threshold) (rows : list Row) :
  forall rng : G,
    map_rows rng rows thresholds
    = flat_map (More.first_match thresholds)
        (combine (Spec.partition_keys rng (length rows)) rows).
Proof.
  induction rows as [| row rest IH]; intros rng; cbn; [reflexivity |].
  destruct (random rng) as [key rng']. cbn [combine flat_map].
  rewrite emit_first_match, IH. reflexivity.
Qed.

(** X11: [_threshold_mapper] yields, record after record, the pair under
    the name of the first set (in the order of the thresholds) whose
    interval [[low, high)] holds the key of the record, and nothing for a
    record whose key is in no interval: the records yielded are, in the
    order of the partition, exactly those whose key some interval
    holds. *)
Theorem threshold_mapper_first_match (idx seed : Z) (rows : list Row)
  (thresholds : dict final_threshold) :
  let drawn := Spec.partition_keys (Random (seed + idx)) (length rows) in
  _threshold_mapper idx rows thresholds seed
  = flat_map (More.first_match thresholds) (combine drawn rows)
  /\ map snd (_threshold_mapper idx rows thresholds seed)
     = map snd
         (filter (fun kr => existsb (More.holds (fst kr)) thresholds)
            (combine drawn rows)).
Proof.
  intros drawn. unfold _threshold_mapper.
  rewrite map_rows_first_match. fold drawn. split; [reflexivity |].
  induction (combine drawn rows) as [| [key row] rest IH]; [reflexivity |].
  cbn [flat_map filter fst]. rewrite map_app, IH.
  unfold More.first_match at 1. cbn [fst snd].
  destruct (find (More.holds key) thresholds) as [e |] eqn:E.
  - apply find_some in E. destruct E as [Hin Hh].
    replace (existsb (More.holds key) thresholds) with true.
    + reflexivity.
    + symmetry. apply existsb_exists. exists e. auto.
  - replace (existsb (More.holds key) thresholds) with false; [reflexivity |].
    symmetry. apply not_true_is_false. intros H. apply existsb_exists in H.
    destruct H as [e [Hin Hh]].
    pose proof (find_none _ _ E e Hin). congruence.
Qed.

End PartitionPasses.

Section PartitionPassesRuns.

Import scalable_srs.

Lemma one_set_thresholds_ordered :
  NoDup (keys Examples.one_set_thresholds)
  /\ forall name th, dict_get Examples.one_set_thresholds name = Some th ->
       fst (fst th) <= snd (fst th).
Proof.
  split.
  - cbn. repeat constructor. intros [].
  - intros name th H.
    unfold Examples.one_set_thresholds in H. cbn [dict_get] in H.
    destruct (String.eqb "A" name); [| discriminate].
    inversion H; subst. cbn. lra.
Qed.

Lemma threshold_accumulator_tally_witness :
  let rng := Examples.table_rng Examples.quarters in
  let drawn := @Spec.partition_keys _ rng (@Random _ rng (1 + 0)) 2 in
  exists values,
    @_threshold_accumulator _ rng nat 0 [1; 2]%nat
      Examples.one_set_thresholds 1 = [values]
    /\ keys values = keys Examples.one_set_thresholds
    /\ forall name low accept cutoff,
         dict_get Examples.one_set_thresholds name = Some (low, accept, cutoff) ->
         dict_get values name
         = Some (Z.of_nat (Spec.count_band low accept drawn),
                 filter (Spec.in_band accept cutoff) drawn)
         /\ (Spec.count_band low accept drawn
             + length (filter (Spec.in_band accept cutoff) drawn)
             <= 2)%nat.
Proof.
  intros rng drawn.
  apply (@threshold_accumulator_tally _ rng nat 0 1 [1; 2]%nat
           Examples.one_set_thresholds);
    apply one_set_thresholds_ordered.
Defined.

Lemma first_pass_reduction_witness :
  let rng := Examples.table_rng Examples.quarters in
  let drawn :=
    @Spec.rdd_keys _ rng 1 0 (map (@length nat) Examples.two_records) in
  exists counts,
    reduce _dict_addition_reducer
      (mapPartitionsWithIndex
         (fun idx rows =>
            @_threshold_accumulator _ rng nat idx rows
              Examples.one_set_thresholds 1)
         Examples.two_records)
    = ret counts
    /\ keys counts = keys Examples.one_set_thresholds
    /\ forall name low accept cutoff,
         dict_get Examples.one_set_thresholds name = Some (low, accept, cutoff) ->
         dict_get counts name
         = Some (Z.of_nat (Spec.count_band low accept drawn),
                 filter (Spec.in_band accept cutoff) drawn).
Proof.
  intros rng drawn.
  apply (proj2 (@first_pass_reduction _ rng nat 1 Examples.two_records
                  Examples.one_set_thresholds
                  (proj1 one_set_thresholds_ordered)
                  (proj2 one_set_thresholds_ordered))).
  discriminate.
Defined.

End PartitionPassesRuns.

(** ** The names of the merged tallies *)

Section MergeNames.

Import scalable_srs.

Lemma reducer_empty_left (b : dict tally) :
  NoDup (keys b) -> _dict_addition_reducer [] b = b.
Proof.
  intros ND. apply dict_ext.
  - apply reducer_NoDup; [constructor | exact ND].
  - rewrite reducer_keys by exact ND. cbn [keys map app].
    transitivity (filter (fun _ : string => true) (keys b));
      [apply filter_ext; intros k; reflexivity | apply filter_true].
  - intros name. rewrite reducer_get by exact ND. reflexivity.
Qed.

(** X12: [_dict_addition_reducer a b] keeps the names of [a] in their
    order and appends, in their order, the names of [b] that [a] does not
    have, so that unique names stay unique; merging with an empty
    dictionary, on either side, changes nothing. *)
Theorem dict_addition_reducer_names (a b : dict tally) :
  NoDup (keys b) ->
  keys (_dict_addition_reducer a b)
  = keys a ++ filter (fun k => negb (Spec.in_keys (keys a) k)) (keys b)
  /\ (NoDup (keys a) -> NoDup (keys (_dict_addition_reducer a b)))
  /\ _dict_addition_reducer a [] = a
  /\ _dict_addition_reducer [] b = b.
Proof.
  intros ND. split; [apply reducer_keys; exact ND |].
  split; [intros Ha; apply reducer_NoDup; assumption |].
  split; [reflexivity | apply reducer_empty_left; exact ND].
Qed.

Lemma dict_addition_reducer_names_witness :
  keys (_dict_addition_reducer Examples.tally_a Examples.tally_b)
  = keys Examples.tally_a
    ++ filter (fun k => negb (Spec.in_keys (keys Examples.tally_a) k))
         (keys Examples.tally_b)
  /\ (NoDup (keys Examples.tally_a) ->
      NoDup (keys (_dict_addition_reducer Examples.tally_a Examples.tally_b)))
  /\ _dict_addition_reducer Examples.tally_a [] = Examples.tally_a
  /\ _dict_addition_reducer [] Examples.tally_b = Examples.tally_b.
Proof. apply dict_addition_reducer_names. exact tally_b_NoDup. Defined.

End MergeNames.

(** ** Reproportioning and degenerate collections *)

Section Degenerate.

Import scalable_srs.

Lemma rescale_total (sizes : dict Z) (count S : R) :
  S <> 0 ->
  rescale sizes count S
  = ret (map (fun kv => (fst kv, Float (IZR (snd kv) * count / S))) sizes).
Proof.
  intros HS. induction sizes as [| [k v] rest IH]; [reflexivity |].
  cbn [rescale]. rewrite fdiv_ok by exact HS. cbn [bind ret].
  rewrite IH. reflexivity.
Qed.



Lemma initial_thresholds_zero_count (set_sizes : dict number) (delta : R) :
  set_sizes <> [] ->
  _get_initial_thresholds set_sizes 0 delta = raise ZeroDivisionError.
Proof.
  destruct set_sizes as [| [name size] rest]; intros H; [congruence |].
  unfold _get_initial_thresholds. cbn [initial_thresholds_loop]. unfold fdiv.
  destruct (Req_dec_T 0 0); [reflexivity | congruence].
Qed.

Context {G : Type} {rng_ops : PRNG G} {Row : Type}.

(** X14: [scalable_srs] on degenerate collections.  On a collection
    without partitions it returns nothing but an error.  With at least
    one set and a population of 0 (an empty collection whose count is
    not given) it raises the [ValueError] of the normalizer when the
    absolute sizes sum to more than 0 and [reproportion] is off, and a
    division by zero otherwise. *)
Theorem scalable_srs_degenerate (now : R) (rdd : RDD Row)
  (set_sizes : dict number) (count : option number) (delta : R)
  (seed : option number) (reproportion : bool) :
  (rdd = [] ->
   exists e,
     scalable_srs now rdd set_sizes count delta seed reproportion = raise e)
  /\ (float (or_else count (Int (rdd_count rdd))) = 0 ->
      set_sizes <> [] ->
      scalable_srs now rdd set_sizes count delta seed reproportion
      = raise
          (if Rltb 0 (IZR (sum_sizes (absolute_sizes set_sizes 0)))
              && negb reproportion
           then InvalidConfiguration else ZeroDivisionError)).
Proof.
  split.
  - intros ->. unfold scalable_srs.
    destruct (_set_up_set_sizes _ _ _) as [e | sizes];
      [exists e; reflexivity |].
    cbn [bind ret].
    destruct (_get_initial_thresholds _ _ _) as [e | ths];
      [exists e; reflexivity |].
    cbn [bind ret]. eexists. reflexivity.
  - intros HN Hne. unfold scalable_srs. rewrite HN.
    unfold _set_up_set_sizes.
    set (sizes := absolute_sizes set_sizes 0).
    assert (Hsizes : sizes <> []).
    { unfold sizes, absolute_sizes. destruct set_sizes; [congruence |].
      discriminate. }
    destruct (Rltb 0 (IZR (sum_sizes sizes))) eqn:E.
    + destruct reproportion; cbn [andb negb]; [| reflexivity].
      apply Rltb_true in E.
      rewrite rescale_total by lra. cbn [bind ret].
      rewrite initial_thresholds_zero_count; [reflexivity |].
      destruct sizes; [congruence | discriminate].
    + cbn [andb bind ret].
      rewrite initial_thresholds_zero_count; [reflexivity |].
      destruct sizes; [congruence | discriminate].
Qed.

End Degenerate.

Lemma scalable_srs_degenerate_witness :
  (exists e,
      @scalable_srs.scalable_srs _ (Examples.table_rng Examples.quarters) nat
        0 [] Examples.two_sets None (1 / 2) None false = raise e)
  /\ @scalable_srs.scalable_srs _ (Examples.table_rng Examples.quarters) nat
       0 [[]] Examples.ratio_config None (1 / 2) None false
     = raise
         (if Rltb 0 (IZR (scalable_srs.sum_sizes
                            (scalable_srs.absolute_sizes Examples.ratio_config 0)))
             && negb false
          then scalable_srs.InvalidConfiguration else ZeroDivisionError).
Proof.
  split.
  - apply (proj1 (@scalable_srs_degenerate _ (Examples.table_rng Examples.quarters)
                    nat 0 [] Examples.two_sets None (1 / 2) None false)).
    reflexivity.
  - apply (proj2 (@scalable_srs_degenerate _ (Examples.table_rng Examples.quarters)
                    nat 0 [[]] Examples.ratio_config None (1 / 2) None false)).
    + reflexivity.
    + discriminate.
Defined.

(** ** The thresholds drawn from a waitlist *)

Section WaitlistThresholds.

Import scalable_srs srs_sampling.

Lemma second_last_item_firstn (s : list R) (r : nat) :
  (S r < length s)%nat ->
  second_last_item (firstn (S (S r)) s) = ret (nth r s 0).
Proof.
  intros Hr. unfold second_last_item.
  assert (E : firstn (S (S r)) s = firstn r s ++ [nth r s 0; nth (S r) s 0]).
  { revert r Hr. induction s as [| x rest IH]; intros r Hr; cbn in Hr; [lia |].
    destruct r as [| r].
    - destruct rest as [| y rest']; [cbn in Hr; lia | reflexivity].
    - cbn [firstn nth app]. cbn [firstn] in IH. rewrite IH by lia.
      reflexivity. }
  rewrite E, rev_app_distr. reflexivity.
Qed.

Lemma nsmallest_min (n : nat) (l : list R) :
  nsmallest n l = firstn (Nat.min n (length l)) (sorted l).
Proof.
  unfold nsmallest. destruct (Nat.le_gt_cases n (length l)) as [H | H].
  - rewrite Nat.min_l by exact H. reflexivity.
  - rewrite Nat.min_r by lia.
    rewrite <- (sorted_length l). rewrite firstn_all.
    apply firstn_all2. rewrite sorted_length. lia.
Qed.

Lemma ascending_nth (s : list R) :
  ascending s ->
  forall i j, (i <= j < length s)%nat -> nth i s 0 <= nth j s 0.
Proof.
  induction 1 as [| x rest Hx _ IH]; intros i j Hij; cbn in Hij; [lia |].
  destruct i as [| i], j as [| j]; cbn [nth]; try lia; try lra.
  - apply Hx. apply nth_In. lia.
  - apply IH. lia.
Qed.

(** The two thresholds in the branch [0 < num <= len(waitlist)], for a
    waitlist of two keys or more. *)
Lemma acceptance_rejection_mid (num : Z) (waitlist : list R) (q1 q2 : R) :
  (0 < num <= Z.of_nat (length waitlist))%Z ->
  (2 <= length waitlist)%nat ->
  let m := Nat.min (Z.to_nat (num + 1)) (length waitlist) in
  compute_acceptance_rejection_thresholds num waitlist q1 q2
  = ret (nth (m - 1) (sorted waitlist) 0, nth (m - 2) (sorted waitlist) 0).
Proof.
  intros Hnum Hlen m. unfold compute_acceptance_rejection_thresholds.
  replace (Z.of_nat (length waitlist) <? num)%Z with false
    by (symmetry; apply Z.ltb_ge; lia).
  replace (0 <? num)%Z with true by (symmetry; apply Z.ltb_lt; lia).
  rewrite nsmallest_min. fold m.
  assert (Hm : (2 <= m <= length waitlist)%nat) by (unfold m; lia).
  replace m with (S (m - 1)) at 1 by lia.
  rewrite last_item_firstn by (rewrite sorted_length; lia).
  cbn [bind ret].
  replace m with (S (S (m - 2))) at 1 by lia.
  rewrite second_last_item_firstn by (rewrite sorted_length; lia).
  reflexivity.
Qed.

(** X15: [compute_acceptance_rejection_thresholds] raises only in one
    case, an [IndexError]: when one key is to be accepted from a waitlist
    of exactly one key ([sorted_waitlist[-2]] does not exist).  In every
    other case it returns a pair [(acceptance, rejection)] with
    [rejection <= acceptance]. *)
Theorem acceptance_rejection_index_error (num : Z) (waitlist : list R)
  (q1 q2 : R) :
  (num = 1%Z /\ length waitlist = 1%nat ->
   compute_acceptance_rejection_thresholds num waitlist q1 q2
   = raise IndexError)
  /\ (~ (num = 1%Z /\ length waitlist = 1%nat) ->
      exists up lo,
        compute_acceptance_rejection_thresholds num waitlist q1 q2
        = ret (up, lo)
        /\ lo <= up).
Proof.
  split.
  - intros [-> Hlen]. destruct waitlist as [| x [| y rest]]; try discriminate.
    reflexivity.
  - intros Hnot.
    destruct (Z.ltb_spec (Z.of_nat (length waitlist)) num) as [H1 | H1].
    + exists q1, q1. unfold compute_acceptance_rejection_thresholds.
      replace (Z.of_nat (length waitlist) <? num)%Z with true
        by (symmetry; apply Z.ltb_lt; lia).
      split; [reflexivity | lra].
    + destruct (Z.ltb_spec 0 num) as [H2 | H2].
      * assert (Hlen : (2 <= length waitlist)%nat) by lia.
        eexists. eexists.
        split; [apply acceptance_rejection_mid; [lia | exact Hlen] |].
        apply ascending_nth; [apply sorted_ascending |].
        rewrite sorted_length. lia.
      * exists q2, q2. unfold compute_acceptance_rejection_thresholds.
        replace (Z.of_nat (length waitlist) <? num)%Z with false
          by (symmetry; apply Z.ltb_ge; lia).
        replace (0 <? num)%Z with false by (symmetry; apply Z.ltb_ge; lia).
        split; [reflexivity | lra].
Qed.

Lemma acceptance_rejection_index_error_witness :
  compute_acceptance_rejection_thresholds 1 [1 / 4] 1 0 = raise IndexError
  /\ exists up lo,
       compute_acceptance_rejection_thresholds 1 [1 / 4; 3 / 4] 1 0
       = ret (up, lo)
       /\ lo <= up.
Proof.
  split.
  - apply (proj1 (acceptance_rejection_index_error 1 [1 / 4] 1 0)).
    split; reflexivity.
  - apply (proj2 (acceptance_rejection_index_error 1 [1 / 4; 3 / 4] 1 0)).
    intros [_ H]. discriminate.
Defined.

Lemma acceptance_rejection_facts (num : Z) (waitlist : list R)
  (q1 q2 : R) :
  (0 < num <= Z.of_nat (length waitlist))%Z ->
  (2 <= length waitlist)%nat ->
  NoDup waitlist ->
  exists up lo,
    compute_acceptance_rejection_thresholds num waitlist q1 q2 = ret (up, lo)
    /\ In up waitlist /\ In lo waitlist /\ lo < up
    /\ (forall k, In k waitlist -> ~ (lo < k < up))
    /\ Z.of_nat (Spec.count_below up waitlist)
       = Z.min num (Z.of_nat (length waitlist) - 1).
Proof.
  intros Hnum Hlen ND.
  set (m := Nat.min (Z.to_nat (num + 1)) (length waitlist)).
  assert (Hm : (2 <= m <= length waitlist)%nat) by (unfold m; lia).
  pose proof (acceptance_rejection_mid num waitlist q1 q2 Hnum Hlen) as E.
  fold m in E. cbv zeta in E.
  exists (nth (m - 1) (sorted waitlist) 0), (nth (m - 2) (sorted waitlist) 0).
  split; [exact E |].
  assert (Hcount : forall i, (i < length waitlist)%nat ->
             Spec.count_below (nth i (sorted waitlist) 0) waitlist = i).
  { intros i Hi.
    rewrite <- (count_below_perm _ _ _ (sorted_perm waitlist)).
    apply count_below_nth;
      [apply sorted_ascending | apply sorted_NoDup; exact ND
       | rewrite sorted_length; exact Hi]. }
  assert (Hin : forall i, (i < length waitlist)%nat ->
             In (nth i (sorted waitlist) 0) waitlist).
  { intros i Hi. apply (Permutation_in _ (sorted_perm waitlist)).
    apply nth_In. rewrite sorted_length. exact Hi. }
  assert (Hle : nth (m - 2) (sorted waitlist) 0 <= nth (m - 1) (sorted waitlist) 0).
  { apply ascending_nth; [apply sorted_ascending |].
    rewrite sorted_length. lia. }
  assert (Hne : nth (m - 2) (sorted waitlist) 0 <> nth (m - 1) (sorted waitlist) 0).
  { intros Heq.
    pose proof (Hcount (m - 2)%nat ltac:(lia)) as C1.
    pose proof (Hcount (m - 1)%nat ltac:(lia)) as C2.
    rewrite Heq in C1. lia. }
  split; [apply Hin; lia |]. split; [apply Hin; lia |]. split; [lra |].
  split.
  - unfold compute_acceptance_rejection_thresholds in E.
    replace (Z.of_nat (length waitlist) <? num)%Z with false in E
      by (symmetry; apply Z.ltb_ge; lia).
    replace (0 <? num)%Z with true in E by (symmetry; apply Z.ltb_lt; lia).
    destruct (last_item _) as [e | a] eqn:Ea; [discriminate |].
    cbn [bind ret] in E.
    destruct (second_last_item _) as [e | r] eqn:Er; [discriminate |].
    cbn [bind ret] in E. inversion E; subst a r.
    apply (nsmallest_last_two_adjacent _ _ _ _ Ea Er).
  - rewrite Hcount by lia. unfold m. lia.
Qed.

(** X16: when [0 < num <= len(waitlist)], the waitlist has two keys or
    more and no two of them are equal, the acceptance threshold and the
    rejection threshold are two waitlisted keys next to each other in
    order; exactly [min(num, len(waitlist) - 1)] waitlisted keys are
    below the acceptance threshold: [num] of them when
    [num < len(waitlist)], but one too few when [num = len(waitlist)]. *)
Theorem acceptance_rejection_order_statistics (num : Z) (waitlist : list R)
  (q1 q2 : R) :
  (0 < num <= Z.of_nat (length waitlist))%Z ->
  (2 <= length waitlist)%nat ->
  NoDup waitlist ->
  exists up lo,
    compute_acceptance_rejection_thresholds num waitlist q1 q2 = ret (up, lo)
    /\ In up waitlist /\ In lo waitlist /\ lo < up
    /\ (forall k, In k waitlist -> ~ (lo < k < up))
    /\ Z.of_nat (Spec.count_below up waitlist)
       = Z.min num (Z.of_nat (length waitlist) - 1).
Proof. apply acceptance_rejection_facts. Qed.

Lemma acceptance_rejection_order_statistics_witness :
  exists up lo,
    compute_acceptance_rejection_thresholds 2 [1 / 4; 3 / 4] 1 0 = ret (up, lo)
    /\ In up [1 / 4; 3 / 4] /\ In lo [1 / 4; 3 / 4] /\ lo < up
    /\ (forall k, In k [1 / 4; 3 / 4] -> ~ (lo < k < up))
    /\ Z.of_nat (Spec.count_below up [1 / 4; 3 / 4]) = Z.min 2 (2 - 1).
Proof.
  apply (acceptance_rejection_order_statistics 2 [1 / 4; 3 / 4] 1 0).
  - cbn. lia.
  - cbn. lia.
  - repeat constructor; cbn; intros H;
      repeat (destruct H as [H | H]; try lra); exact H.
Defined.

End WaitlistThresholds.

(** ** The driver of the two-set variant *)

Section TwoSetSizes.

Import scalable_srs srs_sampling.

Lemma Int_part_le (x : R) : IZR (Int_part x) <= x.
Proof. apply base_Int_part. Qed.

Lemma Int_part_nonneg (x : R) : 0 <= x -> (0 <= Int_part x)%Z.
Proof.
  intros H. destruct (base_Int_part x) as [_ Hb].
  assert (IZR (-1) < IZR (Int_part x)) by lra.
  apply lt_IZR in H0. lia.
Qed.

(** X17: after the reproportioning of [sample_train_test_split] the two
    sizes always fit the collection: for sizes that are not negative and
    a count [>= 0], the new sizes are not negative, not larger than the
    sizes asked for, and their sum is at most the count; they are the
    sizes asked for when these already fit. *)
Theorem resized_fits (train_size test_size ad_event_count : Z) :
  (0 <= train_size)%Z -> (0 <= test_size)%Z -> (0 <= ad_event_count)%Z ->
  let sizes := resized train_size test_size ad_event_count in
  (0 <= fst sizes <= train_size)%Z
  /\ (0 <= snd sizes <= test_size)%Z
  /\ (fst sizes + snd sizes <= ad_event_count)%Z
  /\ ((train_size + test_size <= ad_event_count)%Z ->
      sizes = (train_size, test_size)).
Proof.
  intros HT HS Hn sizes. unfold sizes, resized.
  destruct (Z.ltb_spec ad_event_count (train_size + test_size)) as [H | H];
    cbn [fst snd].
  - set (t := IZR train_size). set (s := IZR test_size).
    set (n := IZR ad_event_count).
    assert (Ht : 0 <= t) by (apply IZR_le; exact HT).
    assert (Hs : 0 <= s) by (apply IZR_le; exact HS).
    assert (Hn' : 0 <= n) by (apply IZR_le; exact Hn).
    assert (Hlt : n < t + s).
    { unfold n, t, s. rewrite <- plus_IZR. apply IZR_lt. exact H. }
    rewrite plus_IZR. fold t. fold s.
    set (r := n / (t + s)).
    assert (Hr : 0 <= r < 1).
    { unfold r. split.
      - apply Rmult_le_pos; [lra |]. left. apply Rinv_0_lt_compat. lra.
      - apply (Rmult_lt_reg_r (t + s)); [lra |].
        unfold Rdiv. rewrite Rmult_assoc, Rinv_l by lra. lra. }
    replace (t / (t + s) * n) with (t * r) by (unfold r; field; lra).
    replace (s / (t + s) * n) with (s * r) by (unfold r; field; lra).
    pose proof (Int_part_le (t * r)) as A1.
    pose proof (Int_part_le (s * r)) as A2.
    assert (Htr : 0 <= t * r <= t) by (split; nra).
    assert (Hsr : 0 <= s * r <= s) by (split; nra).
    assert (Hsum : t * r + s * r = n) by (unfold r; field; lra).
    split; [| split; [| split]].
    + split; [apply Int_part_nonneg; lra |]. apply le_IZR. fold t. lra.
    + split; [apply Int_part_nonneg; lra |]. apply le_IZR. fold s. lra.
    + apply le_IZR. rewrite plus_IZR. fold n. lra.
    + intros H'. lia.
  - repeat split; try lia.
Qed.

Lemma resized_fits_witness :
  let sizes := resized 600 500 1000 in
  (0 <= fst sizes <= 600)%Z
  /\ (0 <= snd sizes <= 500)%Z
  /\ (fst sizes + snd sizes <= 1000)%Z
  /\ ((600 + 500 <= 1000)%Z -> sizes = (600%Z, 500%Z)).
Proof. apply resized_fits; lia. Defined.

Context {G : Type} {rng_ops : PRNG G} {Row : Type}.

(** The accumulators and the keys yielded, key after key. *)
Lemma select_one_all (key q1 q2 tq1 tq2 : R) (acc : accumulators) :
  let r := select_one key q1 q2 tq1 tq2 acc in
  train_accepted_items (snd r)
  = (train_accepted_items acc + Z.of_nat (Spec.count_below q2 [key]))%Z
  /\ test_accepted_items (snd r)
     = (test_accepted_items acc + Z.of_nat (Spec.count_below tq2 [key]))%Z
  /\ fst r = filter (Spec.in_band tq2 tq1) [key].
Proof.
  unfold select_one, Spec.count_below, Spec.in_band. cbn [filter].
  destruct (Rltb key q2), (Rltb key q1), (Rltb key tq2), (Rltb key tq1);
    cbn; repeat split; lia.
Qed.

Lemma count_below_app (c : R) (l1 l2 : list R) :
  Spec.count_below c (l1 ++ l2)
  = (Spec.count_below c l1 + Spec.count_below c l2)%nat.
Proof. unfold Spec.count_below. rewrite filter_app, length_app. reflexivity. Qed.

Lemma select_rows_all (q1 q2 tq1 tq2 : R) (rows : list Row) :
  forall (rng : G) (acc : accumulators),
    let drawn := Spec.partition_keys rng (length rows) in
    let r := select_rows rng rows q1 q2 tq1 tq2 acc in
    train_accepted_items (snd r)
    = (train_accepted_items acc + Z.of_nat (Spec.count_below q2 drawn))%Z
    /\ test_accepted_items (snd r)
       = (test_accepted_items acc + Z.of_nat (Spec.count_below tq2 drawn))%Z
    /\ fst r = filter (Spec.in_band tq2 tq1) drawn.
Proof.
  induction rows as [| row rest IH]; intros rng acc;
    cbv zeta; cbn [select_rows Spec.partition_keys length].
  - cbn. repeat split; lia.
  - destruct (random rng) as [key rng'].
    pose proof (select_one_all key q1 q2 tq1 tq2 acc) as H1. cbv zeta in H1.
    destruct (select_one key q1 q2 tq1 tq2 acc) as [out acc1].
    specialize (IH rng' acc1). cbv zeta in IH.
    destruct (select_rows rng' rest q1 q2 tq1 tq2 acc1) as [outs acc2].
    cbn [fst snd] in *. destruct H1 as [A1 [A2 A3]]. destruct IH as [B1 [B2 B3]].
    change (key :: Spec.partition_keys rng' (length rest))
      with ([key] ++ Spec.partition_keys rng' (length rest)).
    rewrite !count_below_app, filter_app, B1, B2, B3, A1, A2, A3.
    repeat split; lia.
Qed.

Lemma select_partitions_all (q1 q2 tq1 tq2 : R) (seed : Z)
  (input_logs : RDD Row) :
  forall (idx : Z) (acc : accumulators),
    let drawn := Spec.rdd_keys seed idx (map (@length Row) input_logs) in
    let r := select_partitions idx input_logs q1 q2 tq1 tq2 seed acc in
    train_accepted_items (snd r)
    = (train_accepted_items acc + Z.of_nat (Spec.count_below q2 drawn))%Z
    /\ test_accepted_items (snd r)
       = (test_accepted_items acc + Z.of_nat (Spec.count_below tq2 drawn))%Z
    /\ fst r = filter (Spec.in_band tq2 tq1) drawn.
Proof.
  induction input_logs as [| rows rest IH]; intros idx acc;
    cbv zeta; cbn [select_partitions map Spec.rdd_keys].
  - cbn. repeat split; lia.
  - unfold select_train_test_ad_events.
    pose proof (select_rows_all q1 q2 tq1 tq2 rows (Random (seed + idx)) acc)
      as H1. cbv zeta in H1.
    destruct (select_rows (Random (seed + idx)) rows q1 q2 tq1 tq2 acc)
      as [out acc1].
    specialize (IH (idx + 1)%Z acc1). cbv zeta in IH.
    destruct (select_partitions (idx + 1) rest q1 q2 tq1 tq2 seed acc1)
      as [outs acc2].
    cbn [fst snd] in *. destruct H1 as [A1 [A2 A3]]. destruct IH as [B1 [B2 B3]].
    rewrite !count_below_app, filter_app, B1, B2, B3, A1, A2, A3.
    repeat split; lia.
Qed.

(** X18: the first pass of the two-set variant, from accumulators at
    zero: after all partitions, the train counter is the number of keys
    below [train_q2], the train waitlist holds the keys of
    [[train_q2, train_q1)], the test counter is the number of keys below
    [test_q2], and the keys collected are those of [[test_q2, test_q1)],
    the last two in the order of the records. *)
Theorem select_partitions_tallies (train_q1 train_q2 test_q1 test_q2 : R)
  (seed : Z) (input_logs : RDD Row) :
  let drawn := Spec.rdd_keys seed 0 (map (@length Row) input_logs) in
  let r :=
    select_partitions 0 input_logs train_q1 train_q2 test_q1 test_q2 seed
      {| train_accepted_items := 0; test_accepted_items := 0;
         train_waitlist := [] |} in
  train_accepted_items (snd r) = Z.of_nat (Spec.count_below train_q2 drawn)
  /\ train_waitlist (snd r) = filter (Spec.in_band train_q2 train_q1) drawn
  /\ test_accepted_items (snd r) = Z.of_nat (Spec.count_below test_q2 drawn)
  /\ fst r = filter (Spec.in_band test_q2 test_q1) drawn.
Proof.
  intros drawn r.
  pose proof (select_partitions_all train_q1 train_q2 test_q1 test_q2 seed
                input_logs 0
                {| train_accepted_items := 0; test_accepted_items := 0;
                   train_waitlist := [] |}) as [H1 [H2 H3]].
  pose proof (select_partitions_waitlist train_q1 train_q2 test_q1 test_q2 seed
                input_logs 0
                {| train_accepted_items := 0; test_accepted_items := 0;
                   train_waitlist := [] |}) as H4.
  cbn [train_accepted_items test_accepted_items train_waitlist app] in *.
  fold drawn in H1, H2, H3, H4. fold r in H1, H2, H3, H4.
  repeat split; assumption.
Qed.

End TwoSetSizes.

(** ** Exact sizes in the two-set variant *)

Section TwoSetExact.

Import scalable_srs srs_sampling.

Lemma count_below_split (lo c : R) (l : list R) :
  lo <= c ->
  Spec.count_below c l
  = (Spec.count_below lo l + Spec.count_band lo c l)%nat.
Proof.
  intros H. unfold Spec.count_below, Spec.count_band, Spec.in_band.
  induction l as [| k rest IH]; cbn; [reflexivity |].
  destruct (Rltb k lo) eqn:E1; cbn.
  - apply Rltb_true in E1.
    replace (Rltb k c) with true by (symmetry; apply Rltb_true; lra).
    cbn. rewrite IH. reflexivity.
  - destruct (Rltb k c); cbn; rewrite IH; lia.
Qed.

Lemma count_below_mono (c c' : R) (l : list R) :
  c <= c' -> (Spec.count_below c l <= Spec.count_below c' l)%nat.
Proof.
  intros H. rewrite (count_below_split c c' l H). lia.
Qed.

Lemma count_band_empty (lo hi : R) (l : list R) :
  hi <= lo -> Spec.count_band lo hi l = 0%nat.
Proof.
  intros H. unfold Spec.count_band, Spec.in_band.
  induction l as [| k rest IH]; cbn; [reflexivity |].
  destruct (Rltb k lo) eqn:E1; cbn; [exact IH |].
  apply Rltb_false in E1.
  replace (Rltb k hi) with false by (symmetry; apply Rltb_false; lra).
  exact IH.
Qed.

(** The keys below a threshold taken from the waitlist: those below the
    selection cutoff and the waitlisted ones below the threshold. *)
Lemma count_below_threshold (q1 q2 up : R) (l : list R) :
  In up (filter (Spec.in_band q2 q1) l) ->
  Spec.count_below up l
  = (Spec.count_below q2 l
     + Spec.count_below up (filter (Spec.in_band q2 q1) l))%nat.
Proof.
  intros Hin. apply filter_In in Hin. destruct Hin as [_ Hb].
  apply in_band_true in Hb.
  rewrite (count_below_split q2 up l) by lra.
  rewrite count_below_waitlist by lra. reflexivity.
Qed.

Context {G : Type} {rng_ops : PRNG G} {Row : Type}.

Lemma filter_rows_length (lower : bound) (upper : R) (rows : list Row) :
  forall rng : G,
    length (filter_rows rng rows lower upper)
    = length (filter (fun k => passes k lower upper)
                (Spec.partition_keys rng (length rows))).
Proof.
  induction rows as [| row rest IH]; intros rng; cbn; [reflexivity |].
  destruct (random rng) as [key rng']. cbn.
  destruct (passes key lower upper); cbn; rewrite IH; reflexivity.
Qed.

Lemma filtered_output_length (lower : bound) (upper : R) (seed : Z)
  (input_logs : RDD Row) :
  forall idx : Z,
    length
      (concat
         (mapPartitionsWithIndex_from
            (fun idx x => filter_ad_events idx x lower upper seed)
            idx input_logs))
    = length (filter (fun k => passes k lower upper)
                (Spec.rdd_keys seed idx (map (@length Row) input_logs))).
Proof.
  induction input_logs as [| rows rest IH]; intros idx; cbn; [reflexivity |].
  rewrite !length_app, filter_app, length_app, IH.
  unfold filter_ad_events. rewrite filter_rows_length. reflexivity.
Qed.

(** The threshold of the branch [0 < num < len(waitlist)] and the keys
    below it. *)
Lemma mid_threshold_count (num : Z) (q1 q2 up lo : R) (l : list R) :
  NoDup l ->
  (0 < num < Z.of_nat (Spec.count_band q2 q1 l))%Z ->
  compute_acceptance_rejection_thresholds num
    (filter (Spec.in_band q2 q1) l) q1 q2 = ret (up, lo) ->
  q2 <= lo /\ lo < up /\ up < q1
  /\ (forall k, In k l -> ~ (lo < k < up))
  /\ Z.of_nat (Spec.count_below up l)
     = (Z.of_nat (Spec.count_below q2 l) + num)%Z.
Proof.
  intros ND Hnum H.
  set (wl := filter (Spec.in_band q2 q1) l) in *.
  assert (Hlen : length wl = Spec.count_band q2 q1 l) by reflexivity.
  destruct (acceptance_rejection_facts num wl q1 q2)
    as [up' [lo' [E [Hup [Hlo [Hlt [Hadj Hcount]]]]]]];
    [lia | lia | apply NoDup_filter; exact ND |].
  rewrite E in H. inversion H; subst up' lo'.
  pose proof Hup as Hup'. pose proof Hlo as Hlo'.
  apply filter_In in Hup'. destruct Hup' as [_ Bup].
  apply filter_In in Hlo'. destruct Hlo' as [_ Blo].
  apply in_band_true in Bup, Blo.
  split; [lra |]. split; [exact Hlt |]. split; [lra |]. split.
  - intros k Hk Hbetween. apply (Hadj k); [| exact Hbetween].
    apply filter_In. split; [exact Hk |]. apply in_band_true. lra.
  - rewrite (count_below_threshold q1 q2 up l Hup). fold wl.
    rewrite Nat2Z.inj_add, Hcount. lia.
Qed.

(** X19: exact sizes in the two-set variant.  When
    [sample_train_test_split] returns, no two keys are equal and the
    train correction is strictly inside its waitlist
    ([0 < train_size - accepted < len(train_waitlist)]), the train output
    holds exactly [train_size] records; when moreover [test_size >= 0]
    and the test correction is strictly inside its own waitlist, the
    test output holds exactly [test_size] records.  The sizes are those
    after the reproportioning. *)
Theorem two_set_exact_sizes (now : R) (train_size test_size : Z)
  (input_logs : RDD Row) (train_out test_out : RDD Row)
  (train_q1 train_q2 test_q1 test_q2 : R) :
  let n := rdd_count input_logs in
  let T := fst (resized train_size test_size n) in
  let S := snd (resized train_size test_size n) in
  let drawn := Spec.rdd_keys (round now) 0 (map (@length Row) input_logs) in
  sample_train_test_split now train_size test_size input_logs
  = ret (train_out, test_out) ->
  compute_selection_waitlist_thresholds (IZR n) (IZR T)
  = ret (train_q1, train_q2) ->
  compute_selection_waitlist_thresholds (IZR n) (IZR (T + S))
  = ret (test_q1, test_q2) ->
  NoDup drawn ->
  (0 < T - Z.of_nat (Spec.count_below train_q2 drawn)
   < Z.of_nat (Spec.count_band train_q2 train_q1 drawn))%Z ->
  Z.of_nat (length (concat train_out)) = T
  /\ ((0 <= S)%Z ->
      (0 < T + S - Z.of_nat (Spec.count_below test_q2 drawn)
       < Z.of_nat (Spec.count_band test_q2 test_q1 drawn))%Z ->
      Z.of_nat (length (concat test_out)) = S).
Proof.
  intros n T S drawn Hsplit Hq Htq ND Htrain.
  unfold sample_train_test_split in Hsplit.
  destruct (driver_thresholds (round now) input_logs train_size test_size)
    as [e | th] eqn:Eth; [discriminate |].
  cbn [bind ret] in Hsplit. inversion Hsplit; subst train_out test_out.
  clear Hsplit.
  unfold driver_thresholds in Eth. fold n in Eth. fold T in Eth. fold S in Eth.
  rewrite Hq, Htq in Eth. cbn [bind ret fst snd] in Eth.
  pose proof (select_partitions_all train_q1 train_q2 test_q1 test_q2
                (round now) input_logs 0
                {| train_accepted_items := 0; test_accepted_items := 0;
                   train_waitlist := [] |}) as Hall.
  pose proof (select_partitions_waitlist train_q1 train_q2 test_q1 test_q2
                (round now) input_logs 0
                {| train_accepted_items := 0; test_accepted_items := 0;
                   train_waitlist := [] |}) as Hwl.
  cbv zeta in Hall. fold drawn in Hall, Hwl.
  destruct (select_partitions 0 input_logs train_q1 train_q2 test_q1 test_q2
              (round now) _) as [yielded acc].
  cbn [fst snd train_accepted_items test_accepted_items train_waitlist app]
    in Hall, Hwl, Eth.
  destruct Hall as [Hta [Hte Hy]]. rewrite Hta, Hte, Hwl, Hy in Eth.
  rewrite Z.add_0_l in Eth.
  destruct (compute_acceptance_rejection_thresholds _
              (filter (Spec.in_band train_q2 train_q1) drawn) _ _)
    as [e | [up lo]] eqn:Etrain; [discriminate |].
  cbn [bind ret fst snd] in Eth.
  destruct (compute_acceptance_rejection_thresholds _
              (filter (Spec.in_band test_q2 test_q1) drawn) _ _)
    as [e | [tup tlo]] eqn:Etest; [discriminate |].
  cbn [bind ret fst snd] in Eth. inversion Eth; subst th. clear Eth.
  cbn [train_upper_threshold test_lower_threshold test_upper_threshold].
  destruct (mid_threshold_count _ _ _ _ _ _ ND Htrain Etrain)
    as [Hlo [Hlt [Hup [Hadj Hcount]]]].
  unfold mapPartitionsWithIndex. rewrite !filtered_output_length. fold drawn.
  split.
  - transitivity (Z.of_nat (Spec.count_below up drawn)); [| lia].
    f_equal. unfold Spec.count_below. f_equal.
    apply filter_ext. intros k. unfold passes, above. apply andb_true_r.
  - intros HS Htest.
    rewrite Z.add_0_l in Etest.
    destruct (mid_threshold_count _ _ _ _ _ _ ND Htest Etest)
      as [_ [_ [_ [_ Htcount]]]].
    assert (E : filter (fun k => passes k (Fin lo) tup) drawn
                = filter (Spec.in_band up tup) drawn).
    { apply filter_ext_in. intros k Hk. unfold passes, above, Spec.in_band.
      rewrite andb_comm. f_equal.
      destruct (Rltb k up) eqn:Ek; cbn.
      - apply Rltb_true in Ek. apply Rltb_false.
        destruct (Rle_dec k lo) as [Hle | Hgt]; [exact Hle |].
        exfalso. apply (Hadj k Hk). lra.
      - apply Rltb_false in Ek. apply Rltb_true. lra. }
    rewrite E. fold (Spec.count_band up tup drawn).
    destruct (Rle_dec up tup) as [Hle | Hgt].
    + pose proof (count_below_split up tup drawn Hle) as Hs. lia.
    + rewrite count_band_empty by lra.
      pose proof (count_below_mono tup up drawn ltac:(lra)). lia.
Qed.

End TwoSetExact.

Section TwoSetRun.

Import scalable_srs srs_sampling.

Lemma sorted_fourths : sorted [1 / 4; 1 / 2; 3 / 4] = [1 / 4; 1 / 2; 3 / 4].
Proof.
  unfold sorted. cbn [fold_right insert_sorted].
  destruct (Rle_dec (1 / 2) (3 / 4)); [| lra]. cbn [insert_sorted].
  destruct (Rle_dec (1 / 4) (1 / 2)); [reflexivity | lra].
Qed.

Lemma sample_train_test_split_fourths :
  @sample_train_test_split _ (Examples.table_rng Examples.fourths) nat
    0 1 1 Examples.three_records
  = ret ([[1%nat]], [[2%nat]]).
Proof.
  unfold sample_train_test_split. rewrite (round_IZR 0).
  unfold driver_thresholds.
  change (rdd_count Examples.three_records) with 3%Z.
  change (resized 1 1 3) with (1%Z, 1%Z).
  cbn [fst snd Z.add Pos.add].
  rewrite !selection_thresholds_small by lra.
  cbn [bind ret fst snd].
  unfold Examples.three_records, select_partitions,
    select_train_test_ad_events, select_rows.
  cbn [random Random Examples.table_rng Examples.fourths fst snd Z.add].
  unfold select_one.
  cbn [train_waitlist train_accepted_items test_accepted_items].
  decide_Rltb.
  cbn [train_waitlist train_accepted_items test_accepted_items fst snd app
       Z.sub Z.add Z.opp].
  decide_Rltb.
  cbn [train_waitlist train_accepted_items test_accepted_items fst snd app].
  decide_Rltb.
  cbn [train_waitlist train_accepted_items test_accepted_items fst snd app].
  unfold compute_acceptance_rejection_thresholds.
  cbn [length Z.of_nat Z.ltb Z.compare Pos.of_succ_nat Pos.succ Pos.compare
       Pos.compare_cont Z.sub Z.add Z.opp Z.pos_sub Pos.add Z.to_nat
       Pos.to_nat Pos.iter_op Init.Nat.add].
  unfold nsmallest. rewrite sorted_fourths.
  change (Pos.to_nat 2) with 2%nat. change (Pos.to_nat 3) with 3%nat.
  cbn [firstn last_item second_last_item rev app bind ret fst snd
       train_upper_threshold test_lower_threshold test_upper_threshold].
  unfold mapPartitionsWithIndex, mapPartitionsWithIndex_from,
    filter_ad_events, filter_rows.
  cbn [random Random Examples.table_rng Examples.fourths fst snd Z.add].
  unfold passes, above.
  decide_Rltb. reflexivity.
Qed.

Lemma two_set_exact_sizes_witness :
  Z.of_nat (length (concat [[1%nat]])) = 1%Z
  /\ Z.of_nat (length (concat [[2%nat]])) = 1%Z.
Proof.
  pose proof (@two_set_exact_sizes _ (Examples.table_rng Examples.fourths) nat
                0 1 1 Examples.three_records [[1%nat]] [[2%nat]] 1 0 1 0) as H.
  cbv zeta in H.
  change (rdd_count Examples.three_records) with 3%Z in H.
  change (resized 1 1 3) with (1%Z, 1%Z) in H.
  cbn [fst snd Z.add Pos.add] in H.
  rewrite (round_IZR 0) in H.
  change (@Spec.rdd_keys _ (Examples.table_rng Examples.fourths) 0 0
            (map (@length nat) Examples.three_records))
    with [1 / 4; 1 / 2; 3 / 4] in H.
  assert (Hb : Spec.count_below 0 [1 / 4; 1 / 2; 3 / 4] = 0%nat).
  { unfold Spec.count_below. cbn [filter]. decide_Rltb. reflexivity. }
  assert (Hc : Spec.count_band 0 1 [1 / 4; 1 / 2; 3 / 4] = 3%nat).
  { unfold Spec.count_band, Spec.in_band. cbn [filter]. decide_Rltb.
    reflexivity. }
  rewrite Hb, Hc in H.
  destruct H as [H1 H2].
  - exact sample_train_test_split_fourths.
  - apply selection_thresholds_small; lra.
  - apply selection_thresholds_small; lra.
  - repeat constructor; cbn; intros H;
      repeat (destruct H as [H | H]; try lra); exact H.
  - cbn. lia.
  - split; [exact H1 |]. apply H2; cbn; lia.
Defined.

End TwoSetRun.

(** ** Float sizes in the mid-waitlist branch *)

Section ReproportionedRun.

Import scalable_srs.

Lemma ln_default_delta : ln (1 / 20000) < - 6.
Proof.
  replace (1 / 20000) with (/ 20000) by lra. rewrite ln_Rinv by lra.
  assert (H : ln (exp 6) < ln 20000); [| rewrite ln_exp in H; lra].
  apply ln_increasing; [apply exp_pos |].
  replace 6 with (1 + 1 + 1 + (1 + 1 + 1)) by lra. rewrite !exp_plus.
  pose proof exp_le_3 as H3. pose proof (exp_pos 1) as H0.
  set (e := exp 1) in *.
  assert (H2 : e * e <= 9) by nra.
  assert (H4 : 0 < e * e) by nra.
  assert (H5 : e * e * e <= 27) by nra.
  assert (H6 : 0 < e * e * e) by nra.
  nra.
Qed.

(** With the default [delta], half of eight records has the whole key
    space as its waitlist zone. *)
Lemma q_low_half_of_eight : Spec.q_low (4 / 8) 8 (1 / 20000) = 0.
Proof.
  unfold Spec.q_low, Spec.gamma2. pose proof ln_default_delta as Hl.
  set (g := - (2 * ln (1 / 20000)) / (3 * 8)).
  assert (Hg : 1 / 2 < g) by (unfold g; lra).
  assert (Hs : 4 / 8 + g <= sqrt (Rsqr g + 3 * g * (4 / 8))).
  { apply Rle_trans with (sqrt ((4 / 8 + g) * (4 / 8 + g))).
    - rewrite sqrt_square by lra. lra.
    - apply sqrt_le_1; unfold Rsqr; nra. }
  unfold Rmax. destruct (Rle_dec 0 _); lra.
Qed.

Lemma q_high_half_of_eight : Spec.q_high (4 / 8) 8 (1 / 20000) = 1.
Proof.
  unfold Spec.q_high, Spec.gamma1. pose proof ln_default_delta as Hl.
  set (g := - ln (1 / 20000) / 8).
  assert (Hg : 6 / 8 < g) by (unfold g; lra).
  pose proof (sqrt_pos (Rsqr g + 2 * g * (4 / 8))) as Hs.
  unfold Rmin. destruct (Rle_dec 1 _); lra.
Qed.

Lemma oversubscribed_reproportioned :
  _set_up_set_sizes Examples.oversubscribed 8 true
  = ret Examples.reproportioned.
Proof.
  unfold _set_up_set_sizes, absolute_sizes, Examples.oversubscribed.
  cbn [map fst snd]. rewrite absolute_size_int by lra.
  change (sum_sizes [("A"%string, 6%Z); ("B"%string, 6%Z)]) with 12%Z.
  replace (Rltb 8 12) with true by (symmetry; apply Rltb_true; lra).
  cbn [rescale]. rewrite fdiv_ok by lra. cbn [bind ret].
  unfold Examples.reproportioned.
  replace (6 * 8 / 12) with 4 by lra. reflexivity.
Qed.

Lemma reproportioned_initial_thresholds :
  _get_initial_thresholds Examples.reproportioned 8 (1 / 20000)
  = ret Examples.reproportioned_thresholds.
Proof.
  unfold _get_initial_thresholds, Examples.reproportioned.
  rewrite initial_thresholds_loop_layout;
    [| lra | lra | repeat constructor; cbn; lra
     | cbn; repeat constructor; cbn; intros H;
       repeat (destruct H as [H | H]; try discriminate); exact H
     | intros k _ []].
  cbn [bind ret snd app Spec.layout float].
  rewrite q_low_half_of_eight, q_high_half_of_eight.
  unfold Examples.reproportioned_thresholds.
  replace (0 + 0) with 0 by lra.
  replace (0 + 1 + 0) with 1 by lra.
  replace (0 + 1 + 1) with 2 by lra.
  replace (0 + 1) with 1 by lra.
  reflexivity.
Qed.

(** A key of the unit interval is waitlisted for the first set. *)
Lemma classify_reproportioned (key : R) (values : dict tally) :
  0 <= key < 1 ->
  classify key Examples.reproportioned_thresholds values
  = dict_adjust (append_key key) values "A"%string.
Proof.
  intros H. unfold Examples.reproportioned_thresholds. cbn [classify].
  replace (Rltb key 0) with false by (symmetry; apply Rltb_false; lra).
  replace (Rltb key 1) with true by (symmetry; apply Rltb_true; lra).
  reflexivity.
Qed.

Lemma eight_keys_in_unit :
  Forall (fun k => 0 <= k < 1) Examples.eight_keys.
Proof. repeat constructor; lra. Qed.

Lemma eight_keys_distinct : NoDup Examples.eight_keys.
Proof.
  repeat constructor; cbn; intros H;
    repeat (destruct H as [H | H]; try lra); exact H.
Qed.

Lemma reproportioned_first_pass :
  reduce _dict_addition_reducer
    (mapPartitionsWithIndex
       (fun idx rows =>
          @_threshold_accumulator _ (Examples.table_rng Examples.eighths) nat
            idx rows Examples.reproportioned_thresholds 1)
       Examples.eight_records)
  = ret Examples.reproportioned_counts.
Proof.
  pose proof eight_keys_in_unit as Hk. unfold Examples.eight_keys in Hk.
  repeat match goal with
         | H : Forall _ (_ :: _) |- _ =>
             let H1 := fresh "K" in
             let H2 := fresh "F" in
             inversion H as [| ? ? H1 H2]; subst; clear H; cbn beta in H1
         end.
  unfold Examples.eight_records, mapPartitionsWithIndex,
    mapPartitionsWithIndex_from, _threshold_accumulator, reduce.
  cbn [concat app fold_left Random Examples.table_rng].
  change (keys Examples.reproportioned_thresholds)
    with ["A"%string; "B"%string].
  cbn [zero_tallies dict_set dict_get String.eqb Ascii.eqb Bool.eqb].
  cbn [accumulate random Examples.table_rng fst snd Examples.eighths nth
       Examples.eight_keys].
  rewrite !classify_reproportioned by assumption.
  reflexivity.
Qed.

(** C3 at a float size.  Two sets of six records each are asked of eight
    records with [reproportion = True]: [_set_up_set_sizes] rescales both
    sizes to the float 4.0.  The first pass accepts no record of the set
    "A" and waitlists the eight pairwise-distinct keys, so that
    [required = 4.0] and [0 < required < len(waitlist)].  In this branch
    [_get_final_thresholds] sets no cutoff: [nsmallest] is given the float
    count [required + 1] and raises [TypeError], and so does the whole of
    [scalable_srs]. *)
Theorem final_cutoff_float_size_type_error :
  _set_up_set_sizes Examples.oversubscribed 8 true
  = ret Examples.reproportioned
  /\ dict_get Examples.reproportioned "A"%string = Some (Float 4)
  /\ dict_get Examples.reproportioned_counts "A"%string
     = Some (0%Z, Examples.eight_keys)
  /\ 0 < 4 - IZR 0 < INR (length Examples.eight_keys)
  /\ NoDup Examples.eight_keys
  /\ _get_final_thresholds Examples.reproportioned_counts
       Examples.reproportioned Examples.reproportioned_thresholds
     = raise TypeError
  /\ @scalable_srs _ (Examples.table_rng Examples.eighths) nat
       0 Examples.eight_records Examples.oversubscribed None (1 / 20000)
       (Some (Int 1)) true
     = raise TypeError.
Proof.
  assert (Hreq : 0 < 4 - IZR 0 < INR (length Examples.eight_keys))
    by (cbn; lra).
  assert (Hfinal :
            _get_final_thresholds Examples.reproportioned_counts
              Examples.reproportioned Examples.reproportioned_thresholds
            = raise TypeError).
  { unfold _get_final_thresholds, Examples.reproportioned,
      Examples.reproportioned_counts, Examples.reproportioned_thresholds.
    cbn [final_thresholds_loop dict_lookup dict_get String.eqb Ascii.eqb
         Bool.eqb bind ret].
    rewrite refine_float_mid by exact Hreq. reflexivity. }
  split; [exact oversubscribed_reproportioned |].
  split; [reflexivity |].
  split; [reflexivity |].
  split; [exact Hreq |].
  split; [exact eight_keys_distinct |].
  split; [exact Hfinal |].
  unfold scalable_srs.
  change (float (or_else None (Int (rdd_count Examples.eight_records))))
    with 8.
  change (int (or_else (Some (Int 1)) (Float 0))) with 1%Z.
  rewrite oversubscribed_reproportioned. cbn [bind ret].
  rewrite reproportioned_initial_thresholds. cbn [bind ret].
  rewrite reproportioned_first_pass. cbn [bind ret].
  rewrite Hfinal. reflexivity.
Qed.

End ReproportionedRun.
